(** * Blockchain state engine (CryptoNoteCore/Blockchain.cpp, Common/Math.h)

    A shallow embedding of the chain manager of the node: the key-value
    store it writes to, the consensus predicates it evaluates, the
    push / pop / reorganisation paths and the random-output query,
    followed by the properties that were checked against it. *)

From Stdlib Require Import ZArith List Bool Lia.
From stdpp Require Import base tactics option list sorting numbers.
From Stdlib Require Floats.SpecFloat.

Local Open Scope Z_scope.

(** ** Machine integers

    Unsigned 64-bit values ([uint64_t], [size_t], [difficulty_type]) are
    integers in [0, 2^64); an arithmetic operation of the source that can
    leave the range is followed by [u64]; adding a negative [int64_t] to
    an unsigned value is the same reduction. *)

Definition u64 (x : Z) : Z := x mod 2 ^ 64.
Definition u32 (x : Z) : Z := x mod 2 ^ 32.
Definition is_u64 (x : Z) : Prop := 0 <= x < 2 ^ 64.

(** ** Common::medianValue (Common/Math.h) *)

Module Common.

(** [std::sort(v.begin(), v.end())] on unsigned integers. *)
Definition std_sort (v : list Z) : list Z := merge_sort Z.le v.

(** [v[i]] on a vector that is long enough. *)
Definition at_ (v : list Z) (i : nat) : Z := nth i v 0.

Definition medianValue (v : list Z) : Z :=
  match v with
  | [] => 0                                   (* return T(); *)
  | [x] => x                                  (* return v[0]; *)
  | _ =>
      let n := (length v / 2)%nat in
      let s := std_sort v in
      if Nat.odd (length v)                   (* v.size() % 2 *)
      then at_ s n
      else u64 (at_ s (n - 1) + at_ s n) / 2
  end.

(** The sum of the two middle elements of the sorted vector, as an
    integer. *)
Definition middle_sum (v : list Z) : Z :=
  let n := (length v / 2)%nat in
  at_ (std_sort v) (n - 1) + at_ (std_sort v) n.

(** The median as the specification words it: 0, the single element, the
    middle element, or the truncating average of the two middle ones. *)
Definition median_spec (v : list Z) : Z :=
  match v with
  | [] => 0
  | [x] => x
  | _ =>
      if Nat.odd (length v) then at_ (std_sort v) (length v / 2)
      else middle_sum v / 2
  end.

End Common.

(** ** Data model (include/CryptoNote.h, Blockchain.h)

    Hashes, key images, public keys and signatures are fixed-size byte
    blobs; they are represented by the number their bytes spell, which is
    all the engine uses of them (equality, and the byte order of keys). *)

Definition Hash := Z.
Definition KeyImage := Z.
Definition PublicKey := Z.
Definition Signature := Z.
Definition NULL_HASH : Hash := 0.

Record BaseInput := { blockIndex : Z }.

Record KeyInput := {
  ki_amount : Z;
  outputIndexes : list Z;
  keyImage : KeyImage }.

Record MultisignatureInput := {
  mi_amount : Z;
  signatureCount : Z;
  mi_outputIndex : Z }.

Inductive TransactionInput :=
| InBase (i : BaseInput)
| InKey (i : KeyInput)
| InMultisignature (i : MultisignatureInput).

Record KeyOutput := { key : PublicKey }.

Record MultisignatureOutput := {
  keys : list PublicKey;
  requiredSignatureCount : Z }.

Inductive TransactionOutputTarget :=
| OutKey (o : KeyOutput)
| OutMultisignature (o : MultisignatureOutput).

Record TransactionOutput := {
  amount : Z;
  target : TransactionOutputTarget }.

Record Transaction := {
  version : Z;
  unlockTime : Z;
  inputs : list TransactionInput;
  outputs : list TransactionOutput;
  extra : list Z;
  signatures : list (list Signature) }.

Record ParentBlock := {
  pb_majorVersion : Z;
  pb_minorVersion : Z;
  pb_previousBlockHash : Hash;
  transactionCount : Z;
  baseTransactionBranch : list Hash;
  pb_baseTransaction : Transaction;
  blockchainBranch : list Hash }.

Record Block := {
  majorVersion : Z;
  minorVersion : Z;
  nonce : Z;
  timestamp : Z;
  previousBlockHash : Hash;
  parentBlock : ParentBlock;
  baseTransaction : Transaction;
  transactionHashes : list Hash;
  algorithm : Z }.

Definition BLOCK_MAJOR_VERSION_1 : Z := 1.
Definition BLOCK_MAJOR_VERSION_2 : Z := 2.
Definition BLOCK_MAJOR_VERSION_3 : Z := 3.
Definition BLOCK_MAJOR_VERSION_4 : Z := 4.
Definition BLOCK_MAJOR_VERSION_5 : Z := 5.

Record TransactionIndex := {
  block : Z;
  transaction : Z }.

Record TransactionEntry := {
  tx : Transaction;
  m_global_output_indexes : list Z }.

Record BlockEntry := {
  bl : Block;
  height : Z;
  block_cumulative_size : Z;
  cumulative_difficulty : Z;
  already_generated_coins : Z;
  transactions : list TransactionEntry }.

Record MultisignatureOutputUsage := {
  transactionIndex : TransactionIndex;
  mu_outputIndex : Z;
  isUsed : bool }.

Record block_verification_context := {
  m_added_to_main_chain : bool;
  m_verification_failed : bool;
  m_marked_as_orphaned : bool;
  m_already_exists : bool;
  m_switched_to_alt_chain : bool }.

(** [boost::value_initialized<block_verification_context>()] *)
Definition bvc_init : block_verification_context :=
  {| m_added_to_main_chain := false; m_verification_failed := false;
     m_marked_as_orphaned := false; m_already_exists := false;
     m_switched_to_alt_chain := false |}.

Definition set_verification_failed (c : block_verification_context) :=
  {| m_added_to_main_chain := m_added_to_main_chain c;
     m_verification_failed := true;
     m_marked_as_orphaned := m_marked_as_orphaned c;
     m_already_exists := m_already_exists c;
     m_switched_to_alt_chain := m_switched_to_alt_chain c |}.

Definition set_already_exists (c : block_verification_context) :=
  {| m_added_to_main_chain := m_added_to_main_chain c;
     m_verification_failed := m_verification_failed c;
     m_marked_as_orphaned := m_marked_as_orphaned c;
     m_already_exists := true;
     m_switched_to_alt_chain := m_switched_to_alt_chain c |}.

Definition set_marked_as_orphaned (c : block_verification_context) :=
  {| m_added_to_main_chain := m_added_to_main_chain c;
     m_verification_failed := m_verification_failed c;
     m_marked_as_orphaned := true;
     m_already_exists := m_already_exists c;
     m_switched_to_alt_chain := m_switched_to_alt_chain c |}.

Definition set_added_to_main_chain (v : bool) (c : block_verification_context) :=
  {| m_added_to_main_chain := v;
     m_verification_failed := m_verification_failed c;
     m_marked_as_orphaned := m_marked_as_orphaned c;
     m_already_exists := m_already_exists c;
     m_switched_to_alt_chain := m_switched_to_alt_chain c |}.

Definition set_switched_to_alt_chain (c : block_verification_context) :=
  {| m_added_to_main_chain := m_added_to_main_chain c;
     m_verification_failed := m_verification_failed c;
     m_marked_as_orphaned := m_marked_as_orphaned c;
     m_already_exists := m_already_exists c;
     m_switched_to_alt_chain := true |}.

(** ** The persistent store *)

Module DB.

(** Modelled from the spec: the prefix constants are declared in
    Blockchain.h, which is not among the sources; the key spaces are "b/",
    "B/<hash>/b", "t/", "k/", "o/", "m/", "p/", "T/", "g/" and the
    "$version" marker. They are listed in the byte order of their ASCII
    prefixes. *)
Inductive Prefix :=
| VERSION                               (* "$version" *)
| BLOCK_PREFIX                          (* "B/" <hash> "/b" *)
| TIMESTAMP_INDEX_PREFIX                (* "T/" <timestamp> *)
| BLOCK_INDEX_PREFIX                    (* "b/" <height> *)
| GENERATED_TRANSACTIONS_INDEX_PREFIX   (* "g/" <height> *)
| SPENT_KEY_IMAGES_INDEX_PREFIX         (* "k/" <key image> *)
| MULTUSIGNATURE_OUTPUTS_INDEX_PREFIX   (* "m/" <amount> *)
| OUTPUTS_INDEX_PREFIX                  (* "o/" <amount> *)
| PAYMENT_ID_INDEX_PREFIX               (* "p/" <payment id> *)
| TRANSACTIONS_INDEX_PREFIX.            (* "t/" <hash> *)

Definition rank (p : Prefix) : Z :=
  match p with
  | VERSION => 0 | BLOCK_PREFIX => 1 | TIMESTAMP_INDEX_PREFIX => 2
  | BLOCK_INDEX_PREFIX => 3 | GENERATED_TRANSACTIONS_INDEX_PREFIX => 4
  | SPENT_KEY_IMAGES_INDEX_PREFIX => 5
  | MULTUSIGNATURE_OUTPUTS_INDEX_PREFIX => 6 | OUTPUTS_INDEX_PREFIX => 7
  | PAYMENT_ID_INDEX_PREFIX => 8 | TRANSACTIONS_INDEX_PREFIX => 9
  end.

(** A key is a prefix followed by one varint ([write_varint_sqlite4]) or one
    binary key ([to_binary_key]); both encodings compare like the number
    they encode. *)
Definition Key : Type := Prefix * Z.

Definition key_eqb (a b : Key) : bool :=
  (rank (fst a) =? rank (fst b)) && (snd a =? snd b).

Definition key_ltb (a b : Key) : bool :=
  (rank (fst a) <? rank (fst b))
  || ((rank (fst a) =? rank (fst b)) && (snd a <? snd b)).

(** What a value holds. Each constructor stands for the serialisation
    ([toBinaryArray], [write_varint_sqlite4], [as_binary_array]) of one
    type; two values are byte-identical exactly when they are equal. *)
Inductive Value :=
| VHash (h : Hash)
| VBlockEntry (e : BlockEntry)
| VTransactionIndex (i : TransactionIndex)
| VVarint (n : Z)
| VOutputsEntry (o : list (TransactionIndex * Z))
| VMultisignatureOutputEntry (m : list MultisignatureOutputUsage)
| VPaymentIdEntry (p : list Hash)
| VTimestampEntry (t : list (Z * Hash))
| VEmpty.

(** Modelled from the spec: the store itself ([Platform::DB]) is not among
    the sources. It is "an ordered byte-keyed byte-valued map supporting
    point get/put/delete" and prefix-scoped cursors; "[put] may throw on
    duplicate when the caller asserts creation-only; [delete] may throw on
    absence when the caller asserts existence". The map is kept as a list
    of bindings in increasing key order. *)
Definition t : Type := list (Key * Value).

Definition empty : t := [].

Fixpoint get (k : Key) (db : t) : option Value :=
  match db with
  | [] => None
  | (k', v) :: db' => if key_eqb k k' then Some v else get k db'
  end.

Fixpoint insert (k : Key) (v : Value) (db : t) : t :=
  match db with
  | [] => [(k, v)]
  | (k', v') :: db' =>
      if key_ltb k k' then (k, v) :: db
      else if key_eqb k k' then (k, v) :: db'
      else (k', v') :: insert k v db'
  end.

Fixpoint remove (k : Key) (db : t) : t :=
  match db with
  | [] => []
  | (k', v') :: db' =>
      if key_eqb k k' then remove k db' else (k', v') :: remove k db'
  end.

(** Modelled from the spec: [put(key, value, nooverwrite)] "may throw on
    duplicate when the caller asserts creation-only"; [None] is the
    [std::runtime_error]. *)
Definition put (k : Key) (v : Value) (nooverwrite : bool) (db : t) : option t :=
  match get k db with
  | Some _ => if nooverwrite then None else Some (insert k v db)
  | None => Some (insert k v db)
  end.

(** Modelled from the spec: [del(key, mustexist)] "may throw on absence
    when the caller asserts existence"; [None] is the
    [std::runtime_error]. *)
Definition del (k : Key) (mustexist : bool) (db : t) : option t :=
  match get k db with
  | Some _ => Some (remove k db)
  | None => if mustexist then None else Some db
  end.

(** Modelled from the spec: "prefix-scoped forward/reverse iteration
    ([begin(prefix)], [rbegin(prefix)], optional starting middle key)". A
    cursor is the list of the bindings still ahead, the current one first,
    each with the key suffix after the prefix; [end()] is the empty list
    and [next()] the tail. *)
Definition Cursor : Type := list (Z * Value).

Definition scan (p : Prefix) (db : t) : Cursor :=
  map (fun kv => (snd (fst kv), snd kv))
      (filter (fun kv => rank (fst (fst kv)) = rank p) db).

(** [begin(prefix)] and [begin(prefix, middle)] *)
Definition begin (p : Prefix) (middle : option Z) (db : t) : Cursor :=
  match middle with
  | None => scan p db
  | Some m => filter (fun e => m <= fst e) (scan p db)
  end.

(** [rbegin(prefix)] and [rbegin(prefix, middle)] *)
Definition rbegin (p : Prefix) (middle : option Z) (db : t) : Cursor :=
  match middle with
  | None => rev (scan p db)
  | Some m => rev (filter (fun e => fst e <= m) (scan p db))
  end.

Definition cur_end (c : Cursor) : bool :=
  match c with [] => true | _ => false end.

Definition next (c : Cursor) : Cursor := tl c.

(** [get_suffix()] read as a varint; on a cursor at its end the store
    hands back an empty string, read here as 0. *)
Definition get_suffix (c : Cursor) : Z :=
  match c with [] => 0 | (s, _) :: _ => s end.

(** [get_value_array()]; empty on a cursor at its end. *)
Definition get_value_array (c : Cursor) : Value :=
  match c with [] => VEmpty | (_, v) :: _ => v end.

End DB.

(** ** Control flow: results, exceptions, loops that may not end

    Functions that write to the chain manager's state thread it
    explicitly. A C++ exception leaves the function with the state as it
    was when it was thrown: nothing in the engine rolls a batch back. *)

Inductive exn :=
| runtime_error        (* std::runtime_error, thrown by the store and by the engine *)
| bad_get              (* boost::bad_get *)
| length_error         (* std::length_error: a vector of more than max_size() elements *)
| out_of_bounds        (* operator[] past the end of a vector: undefined behaviour *)
| out_of_range.        (* std::out_of_range, thrown by Common::integer_cast *)

Inductive Outcome (S A : Type) :=
| Ret (a : A) (s : S)        (* normal return *)
| Throw (e : exn) (s : S)    (* an exception leaves the function *)
| Spin.                      (* the loop bound ran out: no return seen *)

Arguments Ret {S A} a s.
Arguments Throw {S A} e s.
Arguments Spin {S A}.

Definition M (S A : Type) : Type := S -> Outcome S A.

Definition ret {S A} (a : A) : M S A := fun s => Ret a s.

Definition bind {S A B} (m : M S A) (k : A -> M S B) : M S B :=
  fun s => match m s with
           | Ret a s' => k a s'
           | Throw e s' => Throw e s'
           | Spin => Spin
           end.

Definition throw {S A} (e : exn) : M S A := fun s => Throw e s.

(** [Common::integer_cast<uint32_t>] of an unsigned 64-bit value: the value
    when it fits, [std::out_of_range] otherwise. *)
Definition integer_cast_u32 {S} (x : Z) : M S Z :=
  if x <=? 2 ^ 32 - 1 then ret x else throw out_of_range.

Definition get_state {S} : M S S := fun s => Ret s s.

Definition modify {S} (f : S -> S) : M S unit := fun s => Ret tt (f s).

(** [try { m } catch (std::runtime_error&) { handler }] *)
Definition try_catch_runtime_error {S A} (m : M S A) (handler : M S A) : M S A :=
  fun s => match m s with
           | Throw runtime_error s' => handler s'
           | r => r
           end.

(** The state a call leaves behind, whichever way it ends. *)
Definition final_state {S A} (r : Outcome S A) : option S :=
  match r with Ret _ s => Some s | Throw _ s => Some s | Spin => None end.

Declare Scope engine_scope.
Delimit Scope engine_scope with engine.
Notation "x <- c1 ;; c2" := (bind c1 (fun x => c2))
  (at level 20, c1 at level 99, c2 at level 200, only parsing) : engine_scope.
Notation "' pat <- c1 ;; c2" := (bind c1 (fun x => match x with pat => c2 end))
  (at level 20, pat pattern, c1 at level 99, c2 at level 200, only parsing) : engine_scope.
Notation "c1 ;; c2" := (bind c1 (fun _ => c2))
  (at level 100, c2 at level 200, only parsing, right associativity) : engine_scope.

(** ** What a call leaves unchanged

    [keeps f m]: the call [m] ends, by a return or by an exception, and
    the observation [f] of the state is then what it was before.
    [triple P m Q X]: from a state satisfying [P], a return of [m] with
    value [a] satisfies [Q a] and an exception leaves a state satisfying
    [X]. [invariant P m]: if [P] holds before [m] it holds when [m] ends. *)

Definition keeps {S A B} (f : S -> B) (m : M S A) : Prop :=
  forall s, match m s with
            | Ret _ s' => f s' = f s
            | Throw _ s' => f s' = f s
            | Spin => False
            end.

Definition triple {S A} (P : S -> Prop) (m : M S A) (Q : A -> S -> Prop)
    (X : S -> Prop) : Prop :=
  forall s, P s -> match m s with
                   | Ret a s' => Q a s'
                   | Throw _ s' => X s'
                   | Spin => True
                   end.

Definition invariant {S A} (P : S -> Prop) (m : M S A) : Prop :=
  forall s, P s -> match m s with
                   | Ret _ s' => P s'
                   | Throw _ s' => P s'
                   | Spin => True
                   end.

(** ** Collaborators

    The currency parameters, the checkpoint set, the cryptographic and
    serialisation helpers and the transaction pool are passed to the
    engine at construction; none of them is among the sources. They are
    interfaces here, and every result below holds for all of their
    implementations unless it names one. *)

Class Currency := {
  upgradeHeight : Z -> Z;
  minedMoneyUnlockWindow : Z;
  minedMoneyUnlockWindow_v1 : Z;
  timestampCheckWindow : Z -> Z;
  blockFutureTimeLimit : Z -> Z;
  rewardBlocksWindow : Z;
  difficultyBlocksCountByBlockVersion : Z -> Z;
  blockGrantedFullRewardZoneByBlockVersion : Z -> Z;
  maxBlockCumulativeSize : Z -> Z;
  minerTxBlobReservedSize : Z;
  (** [getBlockReward(version, median, size, generated, fee, reward&,
      emissionChange&)]: [None] when it returns false. *)
  getBlockReward : Z -> Z -> Z -> Z -> Z -> option (Z * Z);
  nextDifficulty : Z -> Z -> list Z -> list Z -> Z;
  checkProofOfWork : Block -> Z -> bool;
  (** [CryptoNote::parameters::UPGRADE_HEIGHT_V5] *)
  UPGRADE_HEIGHT_V5 : Z }.

Class Checkpoints := {
  is_in_checkpoint_zone : Z -> bool;
  (** [check_block(height, id, is_a_checkpoint&)]: the result and the flag *)
  check_block : Z -> Hash -> bool * bool;
  is_alternative_block_allowed : Z -> Z -> bool }.

Class FormatUtils := {
  get_block_hash : Block -> option Hash;
  get_block_height : Block -> Z;
  getObjectHash : Transaction -> Hash;
  getObjectBinarySize : Transaction -> Z;
  getInputAmount : Transaction -> Z;
  getOutputAmount : Transaction -> Z;
  checkMultisignatureInputsDiff : Transaction -> bool;
  getMergeMiningTagFromExtra : list Z -> bool;
  getPaymentId : Transaction -> option Hash;
  (** [time(NULL)] as seen by [get_adjusted_time] *)
  time_now : Z;
  (** what a default-initialised [BlockEntry] local holds when nothing was
      deserialised into it *)
  indeterminate : BlockEntry }.

(** The signature checks of an input ([check_tx_input] with its output
    scan, [validateInput]), the Poisson test of a long reorganisation and
    the size of a block with its transactions read the store and the
    height and change nothing; they rest on the cryptographic primitives
    and on floating point, and are taken as given. *)
Class InputChecks := {
  check_tx_input : DB.t -> Z -> KeyInput -> Hash -> list Signature -> bool;
  validateInput :
    DB.t -> Z -> MultisignatureInput -> Hash -> Hash -> list Signature -> bool;
  getPrefixHash : Transaction -> Hash;
  POISSON_CHECK_TRIGGER : Z;
  poisson_check_passes : DB.t -> list BlockEntry -> bool }.

Class TxPool := {
  tx_memory_pool : Type;
  take_tx : Hash -> tx_memory_pool -> option (Transaction * tx_memory_pool);
  (** [add_tx(tx, context, keptByBlock = true)] *)
  add_tx : Transaction -> tx_memory_pool -> bool * tx_memory_pool;
  (** [getBlockCumulativeSize]: the size of the block with those of its
      transactions that the pool or the chain knows *)
  getBlockCumulativeSize : Block -> DB.t -> tx_memory_pool -> Z }.

(** Modelled from the spec: [check_outs_overflow] (CryptoNoteFormatUtils) is
    not among the sources; the coinbase must have "no output overflow": the
    running 64-bit sum of the output amounts never wraps. *)
Fixpoint check_outs_overflow_from (money : Z) (outs : list TransactionOutput) : bool :=
  match outs with
  | [] => true
  | o :: outs' =>
      if u64 (amount o + money) <? money then false
      else check_outs_overflow_from (u64 (money + amount o)) outs'
  end.

Definition check_outs_overflow (t : Transaction) : bool :=
  check_outs_overflow_from 0 (outputs t).

(** The sum of the output amounts of a transaction, as an integer. *)
Definition output_sum (t : Transaction) : Z :=
  fold_right Z.add 0 (map amount (outputs t)).

(** ** The chain manager's state *)

Inductive BlockchainMessage :=
| NewBlockMessage (h : Hash)
| NewAlternativeBlockMessage (h : Hash)
| ChainSwitchMessage (hs : list Hash).

Section Engine.
Context `{Currency, Checkpoints, FormatUtils, InputChecks, TxPool}.

(** The members that the push, pop and reorganisation paths read or
    write. Left out: logging, the lock, [db_commit] (the store is read
    through its write buffer, so a commit changes no lookup), the reload of
    the checkpoints from DNS at the head of [handle_alternative_block] (the
    checkpoint set is a fixed collaborator here) and the orphan-block
    index, which only [getOrphanBlockIdsByHeight] reads back. *)
Record Blockchain := {
  m_db : DB.t;
  m_height : Z;
  m_lastGeneratedTxNumber : Z;
  (** [blocks_ext_by_hash]: at most one entry per hash *)
  m_alternative_chains : list (Hash * BlockEntry);
  m_current_block_cumul_sz_limit : Z;
  m_synchronized : bool;
  m_tx_pool : tx_memory_pool;
  (** everything [sendMessage] pushed on the message queues, newest first *)
  m_messages : list BlockchainMessage;
  (** number of [blockchainUpdated] notifications sent to the observers *)
  m_notified : nat }.

Definition with_db (db : DB.t) (s : Blockchain) : Blockchain :=
  {| m_db := db; m_height := m_height s;
     m_lastGeneratedTxNumber := m_lastGeneratedTxNumber s;
     m_alternative_chains := m_alternative_chains s;
     m_current_block_cumul_sz_limit := m_current_block_cumul_sz_limit s;
     m_synchronized := m_synchronized s; m_tx_pool := m_tx_pool s;
     m_messages := m_messages s; m_notified := m_notified s |}.

Definition with_height (h : Z) (s : Blockchain) : Blockchain :=
  {| m_db := m_db s; m_height := h;
     m_lastGeneratedTxNumber := m_lastGeneratedTxNumber s;
     m_alternative_chains := m_alternative_chains s;
     m_current_block_cumul_sz_limit := m_current_block_cumul_sz_limit s;
     m_synchronized := m_synchronized s; m_tx_pool := m_tx_pool s;
     m_messages := m_messages s; m_notified := m_notified s |}.

Definition with_lastGeneratedTxNumber (n : Z) (s : Blockchain) : Blockchain :=
  {| m_db := m_db s; m_height := m_height s;
     m_lastGeneratedTxNumber := n;
     m_alternative_chains := m_alternative_chains s;
     m_current_block_cumul_sz_limit := m_current_block_cumul_sz_limit s;
     m_synchronized := m_synchronized s; m_tx_pool := m_tx_pool s;
     m_messages := m_messages s; m_notified := m_notified s |}.

Definition with_alternative_chains (a : list (Hash * BlockEntry)) (s : Blockchain) : Blockchain :=
  {| m_db := m_db s; m_height := m_height s;
     m_lastGeneratedTxNumber := m_lastGeneratedTxNumber s;
     m_alternative_chains := a;
     m_current_block_cumul_sz_limit := m_current_block_cumul_sz_limit s;
     m_synchronized := m_synchronized s; m_tx_pool := m_tx_pool s;
     m_messages := m_messages s; m_notified := m_notified s |}.

Definition with_cumul_sz_limit (l : Z) (s : Blockchain) : Blockchain :=
  {| m_db := m_db s; m_height := m_height s;
     m_lastGeneratedTxNumber := m_lastGeneratedTxNumber s;
     m_alternative_chains := m_alternative_chains s;
     m_current_block_cumul_sz_limit := l;
     m_synchronized := m_synchronized s; m_tx_pool := m_tx_pool s;
     m_messages := m_messages s; m_notified := m_notified s |}.

Definition with_tx_pool (p : tx_memory_pool) (s : Blockchain) : Blockchain :=
  {| m_db := m_db s; m_height := m_height s;
     m_lastGeneratedTxNumber := m_lastGeneratedTxNumber s;
     m_alternative_chains := m_alternative_chains s;
     m_current_block_cumul_sz_limit := m_current_block_cumul_sz_limit s;
     m_synchronized := m_synchronized s; m_tx_pool := p;
     m_messages := m_messages s; m_notified := m_notified s |}.

(** [sendMessage] *)
Definition sendMessage (m : BlockchainMessage) (s : Blockchain) : Blockchain :=
  {| m_db := m_db s; m_height := m_height s;
     m_lastGeneratedTxNumber := m_lastGeneratedTxNumber s;
     m_alternative_chains := m_alternative_chains s;
     m_current_block_cumul_sz_limit := m_current_block_cumul_sz_limit s;
     m_synchronized := m_synchronized s; m_tx_pool := m_tx_pool s;
     m_messages := m :: m_messages s; m_notified := m_notified s |}.

(** [m_observerManager.notify(&IBlockchainStorageObserver::blockchainUpdated)] *)
Definition notify_observers (s : Blockchain) : Blockchain :=
  {| m_db := m_db s; m_height := m_height s;
     m_lastGeneratedTxNumber := m_lastGeneratedTxNumber s;
     m_alternative_chains := m_alternative_chains s;
     m_current_block_cumul_sz_limit := m_current_block_cumul_sz_limit s;
     m_synchronized := m_synchronized s; m_tx_pool := m_tx_pool s;
     m_messages := m_messages s; m_notified := S (m_notified s) |}.

Local Open Scope engine_scope.

(** ** Reading the chain *)

Definition getCurrentBlockchainHeight (s : Blockchain) : Z := m_height s.

(** [fromBinaryArray(e, ba)] for a [BlockEntry] *)
Definition as_BlockEntry (v : option DB.Value) : option BlockEntry :=
  match v with Some (DB.VBlockEntry e) => Some e | _ => None end.

(** The recurring sequence
    [v = cur.get_value_array(); copy v into id; m_db.get("B/"+id+"/b", ba);
     BlockEntry e; fromBinaryArray(e, ba);]
    whose results are not checked: when a step fails, [e] keeps what it
    held. *)
Definition entry_at_cursor (db : DB.t) (cur : DB.Cursor) : BlockEntry :=
  match DB.get_value_array cur with
  | DB.VHash id =>
      match as_BlockEntry (DB.get (DB.BLOCK_PREFIX, id) db) with
      | Some e => e
      | None => indeterminate
      end
  | _ => indeterminate
  end.

Definition getTailId (s : Blockchain) : Hash :=
  match DB.rbegin DB.BLOCK_INDEX_PREFIX None (m_db s) with
  | [] => NULL_HASH
  | (_, DB.VHash h) :: _ => h
  | _ :: _ => NULL_HASH
  end.

Definition alt_find (id : Hash) (a : list (Hash * BlockEntry)) : option BlockEntry :=
  snd <$> find (fun e => fst e =? id) a.

Definition haveBlock (id : Hash) (s : Blockchain) : bool :=
  match DB.get (DB.BLOCK_PREFIX, id) (m_db s) with
  | Some _ => true
  | None =>
      match alt_find id (m_alternative_chains s) with
      | Some _ => true
      | None => false
      end
  end.

Definition checkIfSpent (keyImage : KeyImage) (s : Blockchain) : bool :=
  match DB.get (DB.SPENT_KEY_IMAGES_INDEX_PREFIX, keyImage) (m_db s) with
  | Some _ => true
  | None => false
  end.

Definition have_tx_keyimg_as_spent (key_im : KeyImage) (s : Blockchain) : bool :=
  checkIfSpent key_im s.

Definition isInCheckpointZone (height : Z) : bool := is_in_checkpoint_zone height.

Definition getBlockMajorVersionForHeight (height : Z) : Z :=
  if upgradeHeight BLOCK_MAJOR_VERSION_5 <? height then BLOCK_MAJOR_VERSION_5
  else if upgradeHeight BLOCK_MAJOR_VERSION_4 <? height then BLOCK_MAJOR_VERSION_4
  else if upgradeHeight BLOCK_MAJOR_VERSION_3 <? height then BLOCK_MAJOR_VERSION_3
  else if upgradeHeight BLOCK_MAJOR_VERSION_2 <? height then BLOCK_MAJOR_VERSION_2
  else BLOCK_MAJOR_VERSION_1.

(** [getBlockEntryByHeight(height, e)] *)
Definition getBlockEntryByHeight (height : Z) (s : Blockchain) : option BlockEntry :=
  match DB.get (DB.BLOCK_INDEX_PREFIX, height) (m_db s) with
  | Some (DB.VHash h) => as_BlockEntry (DB.get (DB.BLOCK_PREFIX, h) (m_db s))
  | Some _ => as_BlockEntry (DB.get (DB.BLOCK_PREFIX, NULL_HASH) (m_db s))
  | None => None
  end.

(** [getBlockHeight(blockId, blockHeight)] *)
Definition getBlockHeight (blockId : Hash) (s : Blockchain) : option Z :=
  height <$> as_BlockEntry (DB.get (DB.BLOCK_PREFIX, blockId) (m_db s)).

(** ** Timestamps *)

Definition get_adjusted_time : Z := time_now.

Definition check_block_timestamp (timestamps : list Z) (b : Block) : bool :=
  if Z.of_nat (length timestamps) <? timestampCheckWindow (majorVersion b)
  then true
  else
    let median_ts := Common.medianValue timestamps in
    if timestamp b <? median_ts then false else true.

(** The loop of [check_block_timestamp_main]:
    [for (cur = m_db.begin("b/", offset); offset != m_height || !cur.end();
          ++offset, cur.next()) timestamps.push_back(e.bl.timestamp);] *)
Fixpoint main_chain_timestamps (fuel : nat) (s : Blockchain) (offset : Z)
    (cur : DB.Cursor) : option (list Z) :=
  if negb (offset =? m_height s) || negb (DB.cur_end cur) then
    match fuel with
    | O => None
    | S fuel' =>
        cons (timestamp (bl (entry_at_cursor (m_db s) cur)))
          <$> main_chain_timestamps fuel' s (u64 (offset + 1)) (DB.next cur)
    end
  else Some [].

(** [None]: the loop did not end within [fuel] iterations. *)
Definition check_block_timestamp_main (fuel : nat) (b : Block) (s : Blockchain) : option bool :=
  if u64 (get_adjusted_time + blockFutureTimeLimit (majorVersion b)) <? timestamp b
  then Some false
  else
    let offset :=
      if m_height s <=? timestampCheckWindow (majorVersion b) then 0
      else m_height s - timestampCheckWindow (majorVersion b) in
    match main_chain_timestamps fuel s offset
            (DB.begin DB.BLOCK_INDEX_PREFIX (Some offset) (m_db s)) with
    | None => None
    | Some timestamps => Some (check_block_timestamp timestamps b)
    end.

(** ** The coinbase transaction *)

Definition prevalidate_miner_transaction (b : Block) (height : Z) : bool :=
  match inputs (baseTransaction b) with
  | [in0] =>
      match signatures (baseTransaction b) with
      | [] =>
          match in0 with
          | InBase bi =>
              if negb (blockIndex bi =? height) then false
              else if negb (unlockTime (baseTransaction b) =?
                        u64 (height + (if majorVersion b <? BLOCK_MAJOR_VERSION_5
                                       then minedMoneyUnlockWindow
                                       else minedMoneyUnlockWindow_v1)))
              then false
              else if negb (check_outs_overflow (baseTransaction b)) then false
              else true
          | _ => false
          end
      | _ :: _ => false
      end
  | _ => false
  end.

(** [for (i = start; i != stop; i++, cur.next()) sz.push_back(e.block_cumulative_size)]
    with [start <= stop]: [stop - start] rounds. *)
Fixpoint backward_sizes (n : nat) (db : DB.t) (cur : DB.Cursor) : list Z :=
  match n with
  | O => []
  | S n' => block_cumulative_size (entry_at_cursor db cur)
              :: backward_sizes n' db (DB.next cur)
  end.

Definition getBackwardBlocksSize (from_height : Z) (sz : list Z) (count : Z)
    (s : Blockchain) : bool * list Z :=
  if negb (from_height <? m_height s) then (false, sz)
  else
    let start_offset := (from_height + 1) - Z.min (from_height + 1) count in
    (true,
     sz ++ backward_sizes (Z.to_nat (from_height + 1 - start_offset)) (m_db s)
             (DB.begin DB.BLOCK_INDEX_PREFIX (Some start_offset) (m_db s))).

Definition get_last_n_blocks_sizes (sz : list Z) (count : Z) (s : Blockchain)
    : bool * list Z :=
  if m_height s =? 0 then (true, sz)
  else getBackwardBlocksSize (m_height s - 1) sz count s.

(** [minerReward += o.amount] over the outputs, in 64 bits *)
Definition minerReward_of (outs : list TransactionOutput) : Z :=
  fold_left (fun acc o => u64 (acc + amount o)) outs 0.

(** [Some (reward, emissionChange)] when the function returns true. *)
Definition validate_miner_transaction (b : Block) (height cumulativeBlockSize
    alreadyGeneratedCoins fee : Z) (s : Blockchain) : option (Z * Z) :=
  let minerReward := minerReward_of (outputs (baseTransaction b)) in
  let lastBlocksSizes := snd (get_last_n_blocks_sizes [] rewardBlocksWindow s) in
  let blocksSizeMedian := Common.medianValue lastBlocksSizes in
  let blockMajorVersion := getBlockMajorVersionForHeight height in
  match getBlockReward blockMajorVersion blocksSizeMedian cumulativeBlockSize
          alreadyGeneratedCoins fee with
  | None => None
  | Some (reward, emissionChange) =>
      if reward <? minerReward then None
      else if minerReward <? reward then None
      else Some (reward, emissionChange)
  end.

(** ** Writing the indices *)

Definition E : Type -> Type := M Blockchain.

Definition db_get (k : DB.Key) : E (option DB.Value) :=
  fun s => Ret (DB.get k (m_db s)) s.

Definition db_put (k : DB.Key) (v : DB.Value) (nooverwrite : bool) : E unit :=
  fun s => match DB.put k v nooverwrite (m_db s) with
           | Some db => Ret tt (with_db db s)
           | None => Throw runtime_error s
           end.

Definition db_del (k : DB.Key) (mustexist : bool) : E unit :=
  fun s => match DB.del k mustexist (m_db s) with
           | Some db => Ret tt (with_db db s)
           | None => Throw runtime_error s
           end.

Definition set_global_output_index (output value : Z) (t : TransactionEntry)
    : TransactionEntry :=
  {| tx := tx t;
     m_global_output_indexes :=
       <[Z.to_nat output := value]> (m_global_output_indexes t) |}.

Definition set_transaction (i : Z) (t : TransactionEntry) (b : BlockEntry) : BlockEntry :=
  {| bl := bl b; height := height b;
     block_cumulative_size := block_cumulative_size b;
     cumulative_difficulty := cumulative_difficulty b;
     already_generated_coins := already_generated_coins b;
     transactions := <[Z.to_nat i := t]> (transactions b) |}.

Definition set_isUsed (v : bool) (u : MultisignatureOutputUsage) : MultisignatureOutputUsage :=
  {| transactionIndex := transactionIndex u; mu_outputIndex := mu_outputIndex u;
     isUsed := v |}.

(** The handler of the failed key-image insertion: for [j < i], take
    [boost::get<KeyInput>(inputs[i - 1 - j]).keyImage] and delete it.
    [prev] lists [inputs[i-1], ..., inputs[0]]. *)
Fixpoint erase_key_images (prev : list TransactionInput) : E unit :=
  match prev with
  | [] => ret tt
  | InKey k :: prev' =>
      db_del (DB.SPENT_KEY_IMAGES_INDEX_PREFIX, keyImage k) true ;;
      erase_key_images prev'
  | _ :: _ => throw bad_get
  end.

(** First loop of [pushTransaction]: the key images of the inputs.
    Returns false when the function returned false from inside the loop. *)
Fixpoint push_key_images (block_height : Z) (tkey : DB.Key)
    (prev ins : list TransactionInput) : E bool :=
  match ins with
  | [] => ret true
  | InKey k :: ins' =>
      ok <- try_catch_runtime_error
              (db_put (DB.SPENT_KEY_IMAGES_INDEX_PREFIX, keyImage k)
                      (DB.VVarint block_height) true ;; ret true)
              (erase_key_images prev ;; db_del tkey true ;; ret false) ;;
      if (ok : bool) then push_key_images block_height tkey (InKey k :: prev) ins'
      else ret false
  | i :: ins' => push_key_images block_height tkey (i :: prev) ins'
  end.

(** Second loop: mark the multisignature outputs that the inputs spend. *)
Fixpoint push_multisignature_inputs (ins : list TransactionInput) : E unit :=
  match ins with
  | [] => ret tt
  | InMultisignature i :: ins' =>
      let key := (DB.MULTUSIGNATURE_OUTPUTS_INDEX_PREFIX, mi_amount i) in
      ba <- db_get key ;;
      match ba with
      | Some (DB.VMultisignatureOutputEntry me) =>
          match me !! Z.to_nat (mi_outputIndex i) with
          | Some u =>
              db_put key (DB.VMultisignatureOutputEntry
                            (<[Z.to_nat (mi_outputIndex i) := set_isUsed true u]> me))
                     false ;;
              push_multisignature_inputs ins'
          | None => throw out_of_bounds
          end
      | Some _ => throw runtime_error      (* failed to parse the entry *)
      | None => throw out_of_bounds        (* me.multisignatureOutputs is empty *)
      end
  | _ :: ins' => push_multisignature_inputs ins'
  end.

(** Third loop: the outputs; [output] is the position of the head of
    [outs] in the transaction. *)
Fixpoint push_outputs (transactionIndex : TransactionIndex) (output : Z)
    (outs : list TransactionOutput) (t : TransactionEntry) : E TransactionEntry :=
  match outs with
  | [] => ret t
  | o :: outs' =>
      match target o with
      | OutKey _ =>
          let key := (DB.OUTPUTS_INDEX_PREFIX, amount o) in
          ba <- db_get key ;;
          match ba with
          | Some (DB.VOutputsEntry oe) =>
              db_put key (DB.VOutputsEntry (oe ++ [(transactionIndex, output)])) false ;;
              push_outputs transactionIndex (output + 1) outs'
                (set_global_output_index output (Z.of_nat (length oe)) t)
          | Some _ => throw runtime_error
          | None =>
              db_put key (DB.VOutputsEntry [(transactionIndex, output)]) true ;;
              push_outputs transactionIndex (output + 1) outs'
                (set_global_output_index output 0 t)
          end
      | OutMultisignature _ =>
          let key := (DB.MULTUSIGNATURE_OUTPUTS_INDEX_PREFIX, amount o) in
          let outputUsage :=
            {| transactionIndex := transactionIndex; mu_outputIndex := output;
               isUsed := false |} in
          ba <- db_get key ;;
          match ba with
          | Some (DB.VMultisignatureOutputEntry me) =>
              db_put key (DB.VMultisignatureOutputEntry (me ++ [outputUsage])) false ;;
              push_outputs transactionIndex (output + 1) outs' t
          | Some _ => throw runtime_error
          | None =>
              db_put key (DB.VMultisignatureOutputEntry [outputUsage]) true ;;
              push_outputs transactionIndex (output + 1) outs' t
          end
      end
  end.

(** [m_global_output_indexes.resize(n)] *)
Definition resize (n : nat) (l : list Z) : list Z :=
  take n l ++ replicate (n - length l) 0.

Definition pushTransaction (block : BlockEntry) (transactionHash : Hash)
    (transactionIndex : TransactionIndex) : E (bool * BlockEntry) :=
  let tkey := (DB.TRANSACTIONS_INDEX_PREFIX, transactionHash) in
  ok <- try_catch_runtime_error
          (db_put tkey (DB.VTransactionIndex transactionIndex) true ;; ret true)
          (ret false) ;;
  if negb ok then ret (false, block) else
  match transactions block !! Z.to_nat (transaction transactionIndex) with
  | None => throw out_of_bounds
  | Some transaction_ =>
      if negb (checkMultisignatureInputsDiff (tx transaction_)) then
        db_del tkey true ;; ret (false, block)
      else
        ok <- push_key_images (height block) tkey [] (inputs (tx transaction_)) ;;
        if negb ok then ret (false, block) else
        push_multisignature_inputs (inputs (tx transaction_)) ;;
        (* the output counter is a uint16_t *)
        if 65535 <? Z.of_nat (length (outputs (tx transaction_))) then (fun _ => Spin) else
        t' <- push_outputs transactionIndex 0 (outputs (tx transaction_))
                {| tx := tx transaction_;
                   m_global_output_indexes :=
                     resize (length (outputs (tx transaction_)))
                            (m_global_output_indexes transaction_) |} ;;
        let block' := set_transaction (transaction transactionIndex) t' block in
        match getPaymentId (tx transaction_) with
        | None => ret (true, block')
        | Some paymentId =>
            let pkey := (DB.PAYMENT_ID_INDEX_PREFIX, paymentId) in
            ba <- db_get pkey ;;
            match ba with
            | None =>
                try_catch_runtime_error
                  (db_put pkey (DB.VPaymentIdEntry [transactionHash]) true ;;
                   ret (true, block'))
                  (ret (false, block'))
            | Some (DB.VPaymentIdEntry pe) =>
                try_catch_runtime_error
                  (db_put pkey (DB.VPaymentIdEntry (pe ++ [transactionHash])) false ;;
                   ret (true, block'))
                  (ret (false, block'))
            | Some _ => throw runtime_error
            end
        end
  end.

(** [getTransactionIndex(txId, index)] *)
Definition getTransactionIndex (txId : Hash) : E (option TransactionIndex) :=
  ba <- db_get (DB.TRANSACTIONS_INDEX_PREFIX, txId) ;;
  match ba with
  | None => ret None
  | Some (DB.VTransactionIndex i) => ret (Some i)
  | Some _ => throw runtime_error
  end.

(** First loop of [popTransaction]: the outputs, last one first. [outs] is
    the reversed output list and [pos] the position of its head. Each
    [continue] of the source is a step to the next output. *)
Fixpoint pop_outputs (transactionIndex_ : TransactionIndex) (pos : Z)
    (outs : list TransactionOutput) : E unit :=
  match outs with
  | [] => ret tt
  | o :: outs' =>
      let continue := pop_outputs transactionIndex_ (pos - 1) outs' in
      match target o with
      | OutKey _ =>
          let key := (DB.OUTPUTS_INDEX_PREFIX, amount o) in
          ba <- db_get key ;;
          match ba with
          | None => continue
          | Some (DB.VOutputsEntry oe) =>
              match list.last oe with
              | None => continue
              | Some back =>
                  if negb (block (fst back) =? block transactionIndex_)
                     || negb (transaction (fst back) =? transaction transactionIndex_)
                  then continue
                  else if negb (snd back =? pos) then continue
                  else
                    (* oe.outputs.pop_back(); the shortened list is written
                       nowhere unless it is empty *)
                    match removelast oe with
                    | [] => db_del key true ;; continue
                    | _ :: _ => continue
                    end
              end
          | Some _ => throw runtime_error
          end
      | OutMultisignature _ =>
          let key := (DB.MULTUSIGNATURE_OUTPUTS_INDEX_PREFIX, amount o) in
          ba <- db_get key ;;
          match ba with
          | None => continue
          | Some (DB.VMultisignatureOutputEntry me) =>
              match list.last me with
              | None => continue
              | Some back =>
                  if isUsed back then continue
                  else if negb (block (transactionIndex back) =? block transactionIndex_)
                          || negb (transaction (transactionIndex back)
                                     =? transaction transactionIndex_)
                  then continue
                  else if negb (mu_outputIndex back =? pos) then continue
                  else
                    match removelast me with
                    | [] => db_del key true ;; continue
                    | _ :: _ => continue
                    end
              end
          | Some _ => throw runtime_error
          end
      end
  end.

(** Second loop of [popTransaction]: the inputs. *)
Fixpoint pop_inputs (ins : list TransactionInput) : E unit :=
  match ins with
  | [] => ret tt
  | InKey k :: ins' =>
      db_del (DB.SPENT_KEY_IMAGES_INDEX_PREFIX, keyImage k) true ;;
      pop_inputs ins'
  | InMultisignature i :: ins' =>
      ba <- db_get (DB.MULTUSIGNATURE_OUTPUTS_INDEX_PREFIX, mi_amount i) ;;
      match ba with
      | None => pop_inputs ins'
      | Some (DB.VMultisignatureOutputEntry me) =>
          match me !! Z.to_nat (mi_outputIndex i) with
          | Some _ =>
              (* me.multisignatureOutputs[in.outputIndex].isUsed = false;
                 on the local copy only *)
              pop_inputs ins'
          | None => throw out_of_bounds
          end
      | Some _ => throw runtime_error
      end
  | InBase _ :: ins' => pop_inputs ins'
  end.

Definition popTransaction (transaction_ : Transaction) (transactionHash : Hash) : E unit :=
  i <- getTransactionIndex transactionHash ;;
  match i with
  | None => ret tt
  | Some transactionIndex_ =>
      pop_outputs transactionIndex_
        (Z.of_nat (length (outputs transaction_)) - 1)
        (rev (outputs transaction_)) ;;
      pop_inputs (inputs transaction_) ;;
      match getPaymentId transaction_ with
      | Some paymentId => db_del (DB.PAYMENT_ID_INDEX_PREFIX, paymentId) false
      | None => ret tt
      end ;;
      try_catch_runtime_error
        (db_del (DB.TRANSACTIONS_INDEX_PREFIX, transactionHash) true)
        (ret tt)
  end.

Fixpoint pop_block_transactions (k : nat) (block_ : BlockEntry) : E unit :=
  match k with
  | O => ret tt
  | S k' =>
      match transactions block_ !! k, transactionHashes (bl block_) !! k' with
      | Some t, Some h =>
          popTransaction (tx t) h ;; pop_block_transactions k' block_
      | _, _ => throw out_of_bounds
      end
  end.

(** [for (i = 0; i < block.transactions.size() - 1; ++i)
       popTransaction(block.transactions[size - 1 - i].tx,
                      block.bl.transactionHashes[size - 2 - i]);
     popTransaction(block.bl.baseTransaction, minerTransactionHash);] *)
Definition popTransactions (block_ : BlockEntry) (minerTransactionHash : Hash) : E unit :=
  match transactions block_ with
  | [] => throw out_of_bounds       (* size() - 1 wraps around *)
  | _ :: _ =>
      pop_block_transactions (length (transactions block_) - 1) block_ ;;
      popTransaction (baseTransaction (bl block_)) minerTransactionHash
  end.

(** [pushBlock(BlockEntry& block, const Crypto::Hash& blockHash)] *)
Definition pushBlock_entry (block_ : BlockEntry) (blockHash : Hash) : E bool :=
  db_put (DB.BLOCK_PREFIX, blockHash) (DB.VBlockEntry block_) true ;;
  db_put (DB.BLOCK_INDEX_PREFIX, height block_) (DB.VHash blockHash) true ;;
  let tkey := (DB.TIMESTAMP_INDEX_PREFIX, timestamp (bl block_)) in
  ba <- db_get tkey ;;
  match ba with
  | None => db_put tkey (DB.VTimestampEntry [(height block_, blockHash)]) false
  | Some (DB.VTimestampEntry tse) =>
      (* the entry read from the store is written back as it is *)
      db_put tkey (DB.VTimestampEntry tse) false
  | Some _ => throw runtime_error
  end ;;
  (if 0 <? height block_ then
     s <- get_state ;;
     let n := u64 (m_lastGeneratedTxNumber s
                   + (Z.of_nat (length (transactionHashes (bl block_))) + 1)) in
     modify (with_lastGeneratedTxNumber n) ;;
     db_put (DB.GENERATED_TRANSACTIONS_INDEX_PREFIX, height block_) (DB.VVarint n) true
   else ret tt) ;;
  modify (with_height (u32 (height block_ + 1))) ;;
  ret true.

(** [x--] on a [uint32_t]: the value of the expression, then the variable. *)
Definition post_decrement (x : Z) : Z * Z := (x, u32 (x - 1)).

(** [removeLastBlock] *)
Definition removeLastBlock : E unit :=
  s <- get_state ;;
  let cur := DB.rbegin DB.BLOCK_INDEX_PREFIX None (m_db s) in
  if DB.cur_end cur then ret tt else
  suffix <- integer_cast_u32 (DB.get_suffix cur) ;;
  let height_ := u32 (suffix + 1) in
  let e := entry_at_cursor (m_db s) cur in
  let key :=
    (DB.BLOCK_PREFIX,
     match DB.get_value_array cur with DB.VHash h => h | _ => NULL_HASH end) in
  popTransactions e (getObjectHash (baseTransaction (bl e))) ;;
  db_del (DB.TIMESTAMP_INDEX_PREFIX, timestamp (bl e)) false ;;
  modify (fun s => with_lastGeneratedTxNumber
            (u64 (m_lastGeneratedTxNumber s
                  - (Z.of_nat (length (transactionHashes (bl e))) + 1))) s) ;;
  db_del (DB.GENERATED_TRANSACTIONS_INDEX_PREFIX, height_) false ;;
  db_del key true ;;
  db_del (DB.BLOCK_INDEX_PREFIX, height_) true ;;
  (* uint32_t temp_height = m_height.load(); m_height.store(temp_height--); *)
  s' <- get_state ;;
  let temp_height := m_height s' in
  let '(stored, _) := post_decrement temp_height in
  modify (with_height stored).

(** [saveTransactions]: back to the pool, last one first *)
Fixpoint saveTransactions_rev (txs : list Transaction) (p : tx_memory_pool) : tx_memory_pool :=
  match txs with
  | [] => p
  | t :: txs' => saveTransactions_rev txs' (snd (add_tx t p))
  end.

Definition saveTransactions (txs : list Transaction) : E unit :=
  modify (fun s => with_tx_pool (saveTransactions_rev (rev txs) (m_tx_pool s)) s).

(** [popBlock] *)
Definition popBlock : E unit :=
  s <- get_state ;;
  let cur := DB.rbegin DB.BLOCK_INDEX_PREFIX None (m_db s) in
  if DB.cur_end cur then ret tt else
  let e := entry_at_cursor (m_db s) cur in
  match transactions e with
  | [] => throw length_error       (* a vector of size() - 1 elements *)
  | _ :: rest =>
      saveTransactions (map tx rest) ;;
      removeLastBlock
  end.

(** [rollbackBlockchainTo]:
    [while (height + 1 < m_height) removeLastBlock();] *)
Fixpoint rollbackBlockchainTo (fuel : nat) (height_ : Z) : E unit :=
  s <- get_state ;;
  if u32 (height_ + 1) <? m_height s then
    match fuel with
    | O => fun _ => Spin
    | S fuel' => removeLastBlock ;; rollbackBlockchainTo fuel' height_
    end
  else ret tt.

(** [loadTransactions]: the handler of a failed [take_tx] puts the
    transactions taken so far back, last one first. *)
Fixpoint restore_taken (taken : list Transaction) : E unit :=
  match taken with
  | [] => ret tt
  | t :: taken' =>
      s <- get_state ;;
      let '(ok, p) := add_tx t (m_tx_pool s) in
      if negb ok then throw runtime_error
      else modify (with_tx_pool p) ;; restore_taken taken'
  end.

Fixpoint loadTransactions_from (hashes : list Hash) (taken : list Transaction)
    : E (bool * list Transaction) :=
  match hashes with
  | [] => ret (true, rev taken)
  | h :: hashes' =>
      s <- get_state ;;
      match take_tx h (m_tx_pool s) with
      | None => restore_taken taken ;; ret (false, rev taken)
      | Some (t, p) =>
          modify (with_tx_pool p) ;; loadTransactions_from hashes' (t :: taken)
      end
  end.

Definition loadTransactions (b : Block) : E (bool * list Transaction) :=
  loadTransactions_from (transactionHashes b) [].

(** ** Difficulty, version and size *)

Fixpoint difficulty_window (n : nat) (db : DB.t) (cur : DB.Cursor) : list (Z * Z) :=
  match n with
  | O => []
  | S n' =>
      let e := entry_at_cursor db cur in
      (timestamp (bl e), cumulative_difficulty e)
        :: difficulty_window n' db (DB.next cur)
  end.

(** [getDifficultyForNextBlock]; its loop
    [for (...; offset < m_height || !cur.end(); offset++, cur.next())]
    makes as many rounds as the longer of the two conditions allows. *)
Definition getDifficultyForNextBlock (s : Blockchain) : Z :=
  let BlockMajorVersion := getBlockMajorVersionForHeight (m_height s) in
  let offset0 :=
    m_height s - Z.min (m_height s) (difficultyBlocksCountByBlockVersion BlockMajorVersion) in
  let offset := if offset0 =? 0 then 1 else offset0 in
  let cur := DB.begin DB.BLOCK_INDEX_PREFIX (Some offset) (m_db s) in
  let rounds := Z.to_nat (Z.max (m_height s - offset) (Z.of_nat (length cur))) in
  let w := difficulty_window rounds (m_db s) cur in
  nextDifficulty (m_height s) BlockMajorVersion (map fst w) (map snd w).

Definition checkBlockVersion (b : Block) : bool :=
  let height_ := get_block_height b in
  let expectedBlockVersion := getBlockMajorVersionForHeight height_ in
  if negb (majorVersion b =? expectedBlockVersion) then false else true.

Definition checkCumulativeBlockSize (cumulativeBlockSize height_ : Z) : bool :=
  if maxBlockCumulativeSize height_ <? cumulativeBlockSize then false else true.

Definition update_next_cumulative_size_limit : E bool :=
  s <- get_state ;;
  let nextBlockMajorVersion := getBlockMajorVersionForHeight (m_height s) in
  let nextBlockGrantedFullRewardZone :=
    blockGrantedFullRewardZoneByBlockVersion nextBlockMajorVersion in
  let sz := snd (get_last_n_blocks_sizes [] rewardBlocksWindow s) in
  let median0 := Common.medianValue sz in
  let median := if median0 <=? nextBlockGrantedFullRewardZone
                then nextBlockGrantedFullRewardZone else median0 in
  modify (with_cumul_sz_limit (u64 (median * 2))) ;;
  ret true.

(** ** Transaction inputs *)

(** The loop of [checkTransactionInputs(tx, tx_prefix_hash, nullptr)] *)
Fixpoint check_inputs_from (inputIndex : nat) (ins : list TransactionInput)
    (t : Transaction) (tx_prefix_hash transactionHash : Hash) : E bool :=
  match ins with
  | [] => ret true
  | InKey in_to_key :: ins' =>
      s <- get_state ;;
      if match outputIndexes in_to_key with [] => true | _ => false end
      then ret false
      else if have_tx_keyimg_as_spent (keyImage in_to_key) s then ret false
      else if negb (isInCheckpointZone (getCurrentBlockchainHeight s)) then
        match signatures t !! inputIndex with
        | None => throw out_of_bounds
        | Some sig =>
            if negb (check_tx_input (m_db s) (m_height s) in_to_key tx_prefix_hash sig)
            then ret false
            else check_inputs_from (S inputIndex) ins' t tx_prefix_hash transactionHash
        end
      else check_inputs_from (S inputIndex) ins' t tx_prefix_hash transactionHash
  | InMultisignature i :: ins' =>
      s <- get_state ;;
      if negb (isInCheckpointZone (getCurrentBlockchainHeight s)) then
        match signatures t !! inputIndex with
        | None => throw out_of_bounds
        | Some sig =>
            if negb (validateInput (m_db s) (m_height s) i transactionHash
                       tx_prefix_hash sig)
            then ret false
            else check_inputs_from (S inputIndex) ins' t tx_prefix_hash transactionHash
        end
      else check_inputs_from (S inputIndex) ins' t tx_prefix_hash transactionHash
  | InBase _ :: _ => ret false
  end.

Definition checkTransactionInputs (t : Transaction) : E bool :=
  check_inputs_from 0 (inputs t) t (getPrefixHash t) (getObjectHash t).

(** ** Pushing a block on the main chain *)

Definition push_back_transaction (t : Transaction) (b : BlockEntry) : BlockEntry :=
  {| bl := bl b; height := height b;
     block_cumulative_size := block_cumulative_size b;
     cumulative_difficulty := cumulative_difficulty b;
     already_generated_coins := already_generated_coins b;
     transactions := transactions b ++ [{| tx := t; m_global_output_indexes := [] |}] |}.

Definition pop_back_transaction (b : BlockEntry) : BlockEntry :=
  {| bl := bl b; height := height b;
     block_cumulative_size := block_cumulative_size b;
     cumulative_difficulty := cumulative_difficulty b;
     already_generated_coins := already_generated_coins b;
     transactions := removelast (transactions b) |}.

Record push_loop_state := {
  pl_block : BlockEntry;
  pl_transactionIndex : TransactionIndex;
  pl_cumulative_block_size : Z;
  pl_fee_summary : Z }.

(** The transaction loop of [pushBlock]. [None]: the function returned
    false from inside the loop, with the verification-failed flag set. *)
Fixpoint push_block_transactions (txs : list Transaction) (hashes : list Hash)
    (minerTransactionHash : Hash) (st : push_loop_state) : E (option push_loop_state) :=
  match txs with
  | [] => ret (Some st)
  | t :: txs' =>
      match hashes with
      | [] => throw out_of_bounds            (* blockData.transactionHashes[i] *)
      | tx_id :: hashes' =>
          let block1 := push_back_transaction t (pl_block st) in
          let blob_size := getObjectBinarySize t in
          let fee := u64 (getInputAmount t - getOutputAmount t) in
          s <- get_state ;;
          inputs_ok <-
            (if negb (is_in_checkpoint_zone (getCurrentBlockchainHeight s))
             then checkTransactionInputs t else ret true) ;;
          if negb inputs_ok then
            popTransactions (pop_back_transaction block1) minerTransactionHash ;;
            ret None
          else
            let transactionIndex' :=
              {| block := block (pl_transactionIndex st);
                 transaction := (transaction (pl_transactionIndex st) + 1) mod 2 ^ 16 |} in
            '(_, block2) <- pushTransaction block1 tx_id transactionIndex' ;;
            push_block_transactions txs' hashes' minerTransactionHash
              {| pl_block := block2;
                 pl_transactionIndex := transactionIndex';
                 pl_cumulative_block_size := u64 (pl_cumulative_block_size st + blob_size);
                 pl_fee_summary := u64 (pl_fee_summary st + fee) |}
      end
  end.

Definition lift_option {A} (o : option A) : E A :=
  fun s => match o with Some a => Ret a s | None => Spin end.

(** [pushBlock(blockData, transactions, blockHash, bvc)] *)
Definition pushBlock_transactions (fuel : nat) (blockData : Block)
    (transactions_ : list Transaction) (blockHash : Hash)
    (bvc : block_verification_context) : E (bool * block_verification_context) :=
  if negb (checkBlockVersion blockData) then ret (false, set_verification_failed bvc) else
  if (BLOCK_MAJOR_VERSION_5 <=? majorVersion blockData)
     && getMergeMiningTagFromExtra (extra (baseTransaction blockData))
  then ret (false, bvc) else
  s <- get_state ;;
  if negb (previousBlockHash blockData =? getTailId s)
  then ret (false, set_verification_failed bvc) else
  timestamp_ok <-
    (if negb (is_in_checkpoint_zone (getCurrentBlockchainHeight s))
     then lift_option (check_block_timestamp_main fuel blockData s)
     else ret true) ;;
  if negb timestamp_ok then ret (false, set_verification_failed bvc) else
  let currentDifficulty := getDifficultyForNextBlock s in
  if currentDifficulty =? 0 then ret (false, bvc) else
  if (if is_in_checkpoint_zone (getCurrentBlockchainHeight s)
      then negb (fst (check_block (getCurrentBlockchainHeight s) blockHash))
      else negb (checkProofOfWork blockData currentDifficulty))
  then ret (false, set_verification_failed bvc) else
  if negb (is_in_checkpoint_zone (getCurrentBlockchainHeight s))
     && negb (prevalidate_miner_transaction blockData (m_height s))
  then ret (false, set_verification_failed bvc) else
  let minerTransactionHash := getObjectHash (baseTransaction blockData) in
  let cur := DB.rbegin DB.BLOCK_INDEX_PREFIX None (m_db s) in
  new_height <-
    (if DB.cur_end cur then ret 0
     else suffix <- integer_cast_u32 (DB.get_suffix cur) ;; ret (u32 (suffix + 1))) ;;
  modify (with_height new_height) ;;
  let e := entry_at_cursor (m_db s) cur in
  s1 <- get_state ;;
  let block0 :=
    {| bl := blockData; height := m_height s1;
       block_cumulative_size := block_cumulative_size indeterminate;
       cumulative_difficulty := cumulative_difficulty indeterminate;
       already_generated_coins := already_generated_coins indeterminate;
       transactions := [{| tx := baseTransaction blockData;
                           m_global_output_indexes := [] |}] |} in
  let transactionIndex0 := {| block := m_height s1; transaction := 0 |} in
  '(_, block1) <- pushTransaction block0 minerTransactionHash transactionIndex0 ;;
  let coinbase_blob_size := getObjectBinarySize (baseTransaction blockData) in
  r <- push_block_transactions transactions_ (transactionHashes blockData)
         minerTransactionHash
         {| pl_block := block1; pl_transactionIndex := transactionIndex0;
            pl_cumulative_block_size := coinbase_blob_size;
            pl_fee_summary := 0 |} ;;
  match r with
  | None => ret (false, set_verification_failed bvc)
  | Some st =>
      s2 <- get_state ;;
      if negb (checkCumulativeBlockSize (pl_cumulative_block_size st) (m_height s2))
      then ret (false, set_verification_failed bvc) else
      let already_generated_coins_ :=
        if DB.cur_end cur then 0 else already_generated_coins e in
      let validated :=
        if negb (is_in_checkpoint_zone (getCurrentBlockchainHeight s2))
        then validate_miner_transaction blockData (m_height s2)
               (pl_cumulative_block_size st) already_generated_coins_
               (pl_fee_summary st) s2
        else Some (0, 0) in
      match validated with
      | None =>
          popTransactions (pl_block st) minerTransactionHash ;;
          ret (false, set_verification_failed bvc)
      | Some (reward, emissionChange) =>
          let block_ :=
            {| bl := blockData; height := height (pl_block st);
               block_cumulative_size := pl_cumulative_block_size st;
               cumulative_difficulty :=
                 if DB.cur_end cur then currentDifficulty
                 else u64 (currentDifficulty + cumulative_difficulty e);
               already_generated_coins := u64 (already_generated_coins_ + emissionChange);
               transactions := transactions (pl_block st) |} in
          pushBlock_entry block_ blockHash ;;
          update_next_cumulative_size_limit ;;
          ret (true, set_added_to_main_chain true bvc)
      end
  end.

(** [pushBlock(blockData, id, bvc)] *)
Definition pushBlock (fuel : nat) (blockData : Block) (id : Hash)
    (bvc : block_verification_context) : E (bool * block_verification_context) :=
  '(loaded, transactions_) <- loadTransactions blockData ;;
  if negb loaded then ret (false, set_verification_failed bvc) else
  '(ok, bvc') <- pushBlock_transactions fuel blockData transactions_ id bvc ;;
  if negb ok then saveTransactions transactions_ ;; ret (false, bvc')
  else ret (true, bvc').

(** ** Alternative chains *)

(** [Hash get_block_hash(const Block&)]: [NULL_HASH] when hashing fails. *)
Definition get_block_hash1 (b : Block) : Hash := default NULL_HASH (get_block_hash b).

(** [m_alternative_chains.insert(value_type(id, bei))]: the flag tells
    whether the entry went in. *)
Definition alt_insert (id : Hash) (bei : BlockEntry) (a : list (Hash * BlockEntry))
    : bool * list (Hash * BlockEntry) :=
  match alt_find id a with
  | Some _ => (false, a)
  | None => (true, (id, bei) :: a)
  end.

Definition alt_erase (id : Hash) (a : list (Hash * BlockEntry)) : list (Hash * BlockEntry) :=
  filter (fun e => fst e <> id) a.

(** The [do { ... } while (start_top_height != stop_offset)] of
    [complete_timestamps_vector]; [n] bounds the rounds. *)
Fixpoint complete_timestamps_loop (n : nat) (start_top_height stop_offset : Z)
    (s : Blockchain) (timestamps : list Z) : bool * list Z :=
  match n with
  | O => (true, timestamps)
  | S n' =>
      match DB.get (DB.BLOCK_INDEX_PREFIX, start_top_height) (m_db s) with
      | None => (false, timestamps)
      | Some v =>
          let h := match v with DB.VHash h => h | _ => NULL_HASH end in
          match as_BlockEntry (DB.get (DB.BLOCK_PREFIX, h) (m_db s)) with
          | None => (false, timestamps)
          | Some e =>
              let timestamps' := timestamps ++ [timestamp (bl e)] in
              if start_top_height =? 0 then (true, timestamps')
              else if start_top_height - 1 =? stop_offset then (true, timestamps')
              else complete_timestamps_loop n' (start_top_height - 1) stop_offset s
                     timestamps'
          end
      end
  end.

Definition complete_timestamps_vector (blockMajorVersion start_top_height : Z)
    (timestamps : list Z) (s : Blockchain) : bool * list Z :=
  if timestampCheckWindow blockMajorVersion <=? Z.of_nat (length timestamps)
  then (true, timestamps)
  else
    let need_elements :=
      timestampCheckWindow blockMajorVersion - Z.of_nat (length timestamps) in
    if negb (start_top_height <? m_height s) then (false, timestamps)
    else
      let stop_offset :=
        if need_elements <? start_top_height
        then start_top_height - need_elements else 0 in
      complete_timestamps_loop (S (Z.to_nat start_top_height)) start_top_height
        stop_offset s timestamps.

(** [get_next_difficulty_for_alternative_chain]; 0 is also what its
    [return false] yields. *)
Definition get_next_difficulty_for_alternative_chain
    (alt_chain : list (Hash * BlockEntry)) (bei : BlockEntry) : E Z :=
  s <- get_state ;;
  let BlockMajorVersion := getBlockMajorVersionForHeight (m_height s) in
  let N := difficultyBlocksCountByBlockVersion BlockMajorVersion in
  let alt_size := Z.of_nat (length alt_chain) in
  let of_alt := map (fun it => (timestamp (bl (snd it)), cumulative_difficulty (snd it))) in
  if alt_size <? N then
    let main_chain_stop_offset :=
      match alt_chain with
      | front :: _ => height (snd front)
      | [] => height bei
      end in
    let main_chain_count := Z.min (N - Z.min N alt_size) main_chain_stop_offset in
    let start0 := main_chain_stop_offset - main_chain_count in
    let main_chain_start_offset := if start0 =? 0 then 1 else start0 in
    let w :=
      difficulty_window (Z.to_nat (main_chain_stop_offset - main_chain_start_offset))
        (m_db s)
        (DB.begin DB.BLOCK_INDEX_PREFIX (Some main_chain_start_offset) (m_db s)) in
    if negb (alt_size + Z.of_nat (length w) <=? N) then ret 0
    else
      let w' := w ++ of_alt alt_chain in
      ret (nextDifficulty (m_height s) BlockMajorVersion (map fst w') (map snd w'))
  else
    match alt_chain with
    | _ :: _ =>
        if N =? 0 then throw out_of_bounds      (* timestamps[max_i - count] *)
        else
          let w' := of_alt (drop (length alt_chain - Z.to_nat N) alt_chain) in
          ret (nextDifficulty (m_height s) BlockMajorVersion (map fst w') (map snd w'))
    | [] => ret (nextDifficulty (m_height s) BlockMajorVersion [] [])
    end.

(** The walk from the parent towards the main chain:
    [while (alt_it != end) { alt_chain.push_front(alt_it);
       timestamps.push_back(ts); alt_it = find(alt_it->prev); }] *)
Fixpoint build_alt_chain (fuel : nat) (a : list (Hash * BlockEntry))
    (alt_it : option (Hash * BlockEntry)) (alt_chain : list (Hash * BlockEntry))
    (timestamps : list Z) : option (list (Hash * BlockEntry) * list Z) :=
  match alt_it with
  | None => Some (alt_chain, timestamps)
  | Some it =>
      match fuel with
      | O => None
      | S fuel' =>
          build_alt_chain fuel' a
            (find (fun e => fst e =? previousBlockHash (bl (snd it))) a)
            (it :: alt_chain) (timestamps ++ [timestamp (bl (snd it))])
      end
  end.

Definition with_cumulative_difficulty (d : Z) (b : BlockEntry) : BlockEntry :=
  {| bl := bl b; height := height b;
     block_cumulative_size := block_cumulative_size b;
     cumulative_difficulty := d;
     already_generated_coins := already_generated_coins b;
     transactions := transactions b |}.

(** [boost::value_initialized<BlockEntry>()] with [bl] and [height] set *)
Definition new_alt_entry (b : Block) (h : Z) : BlockEntry :=
  {| bl := b; height := h; block_cumulative_size := 0;
     cumulative_difficulty := 0; already_generated_coins := 0;
     transactions := [] |}.

Section Reorganisation.

(** The two functions call each other; each is written against the other
    one as a parameter, and the knot is tied below. *)
Variable switch_to_alternative_blockchain_ :
  list (Hash * BlockEntry) -> bool -> E bool.
Variable handle_alternative_block_ :
  Block -> Hash -> block_verification_context -> bool
  -> E (bool * block_verification_context).

Definition handle_alternative_block_body (fuel : nat) (b : Block) (id : Hash)
    (bvc : block_verification_context) (sendNewAlternativeBlockMessage : bool)
    : E (bool * block_verification_context) :=
  let block_height := get_block_height b in
  if block_height =? 0 then ret (false, set_verification_failed bvc) else
  s <- get_state ;;
  if negb (is_alternative_block_allowed (getCurrentBlockchainHeight s) block_height)
  then ret (false, set_verification_failed bvc) else
  if negb (checkBlockVersion b) then ret (false, set_verification_failed bvc) else
  let cumulativeSize := getBlockCumulativeSize b (m_db s) (m_tx_pool s) in
  if negb (checkCumulativeBlockSize cumulativeSize block_height)
  then ret (false, set_verification_failed bvc) else
  let mainPrev := getBlockHeight (previousBlockHash b) s in
  let mainPrevHeight := default 0 mainPrev in
  let it_prev := find (fun e => fst e =? previousBlockHash b) (m_alternative_chains s) in
  if negb (bool_decide (is_Some it_prev) || bool_decide (is_Some mainPrev)) then
    (* block orphaned *)
    ret (true, set_marked_as_orphaned bvc)
  else
  '(alt_chain, timestamps0) <-
     lift_option (build_alt_chain fuel (m_alternative_chains s) it_prev [] []) ;;
  connected <-
    match alt_chain with
    | front :: _ =>
        if negb (height (snd front) <? m_height s) then ret None else
        match DB.get (DB.BLOCK_INDEX_PREFIX, height (snd front) - 1) (m_db s) with
        | None => ret None
        | Some v =>
            let h := match v with DB.VHash h => h | _ => NULL_HASH end in
            if negb (h =? previousBlockHash (bl (snd front))) then ret None
            else ret (Some (snd (complete_timestamps_vector (majorVersion b)
                                   (height (snd front) - 1) timestamps0 s)))
        end
    | [] =>
        if negb (bool_decide (is_Some mainPrev)) then ret None
        else ret (Some (snd (complete_timestamps_vector (majorVersion b)
                               mainPrevHeight timestamps0 s)))
    end ;;
  match connected with
  | None => ret (false, bvc)
  | Some timestamps =>
  if negb (check_block_timestamp timestamps b)
  then ret (false, set_verification_failed bvc) else
  let bei0 :=
    new_alt_entry b
      (u32 (match it_prev, alt_chain with
            | Some p, _ :: _ => height (snd p) + 1
            | _, _ => mainPrevHeight + 1
            end)) in
  let '(checkpoint_ok, is_a_checkpoint) := check_block (height bei0) id in
  if negb checkpoint_ok then ret (false, set_verification_failed bvc) else
  if (BLOCK_MAJOR_VERSION_5 <=? majorVersion b)
     && getMergeMiningTagFromExtra (extra (baseTransaction b))
  then ret (false, bvc) else
  current_diff <- get_next_difficulty_for_alternative_chain alt_chain bei0 ;;
  if current_diff =? 0 then ret (false, bvc) else
  if negb (checkProofOfWork b current_diff)
  then ret (false, set_verification_failed bvc) else
  if negb (prevalidate_miner_transaction b (height bei0))
  then ret (false, set_verification_failed bvc) else
  match DB.get (DB.BLOCK_INDEX_PREFIX, mainPrevHeight) (m_db s) with
  | None => ret (false, bvc)
  | Some v =>
  let h := match v with DB.VHash h => h | _ => NULL_HASH end in
  match as_BlockEntry (DB.get (DB.BLOCK_PREFIX, h) (m_db s)) with
  | None => ret (false, bvc)
  | Some e =>
  let bei :=
    with_cumulative_difficulty
      (u64 ((match it_prev, alt_chain with
             | Some p, _ :: _ => cumulative_difficulty (snd p)
             | _, _ => cumulative_difficulty e
             end) + current_diff)) bei0 in
  let '(inserted, alt') := alt_insert id bei (m_alternative_chains s) in
  if negb inserted then ret (false, bvc) else
  modify (with_alternative_chains alt') ;;
  let alt_chain' := alt_chain ++ [(id, bei)] in
  (* cur = m_db.rbegin("b/"); tip_ba = cur.get_value_array();
     BlockEntry tip_be; fromBinaryArray(tip_be, tip_ba); *)
  let cur := DB.rbegin DB.BLOCK_INDEX_PREFIX None (m_db s) in
  let tip_be :=
    default indeterminate (as_BlockEntry (Some (DB.get_value_array cur))) in
  if is_a_checkpoint then
    r <- switch_to_alternative_blockchain_ alt_chain' true ;;
    if r then ret (r, set_switched_to_alt_chain (set_added_to_main_chain true bvc))
    else ret (r, set_verification_failed bvc)
  else if cumulative_difficulty tip_be <? cumulative_difficulty bei then
    r <- switch_to_alternative_blockchain_ alt_chain' false ;;
    if r then ret (r, set_switched_to_alt_chain (set_added_to_main_chain true bvc))
    else ret (r, set_verification_failed bvc)
  else
    (if sendNewAlternativeBlockMessage
     then modify (sendMessage (NewAlternativeBlockMessage id)) else ret tt) ;;
    ret (true, bvc)
  end end end.

(** [for (size_t i = m_height - 1; i >= stop; i--) popBlock();]
    [n] rounds. *)
Fixpoint pop_blocks (n : nat) : E unit :=
  match n with
  | O => ret tt
  | S n' => popBlock ;; pop_blocks n'
  end.

Fixpoint push_original_chain (fuel : nat) (original_chain : list Block) : E bool :=
  match original_chain with
  | [] => ret true
  | b :: rest =>
      '(r, bvc) <- pushBlock fuel b (get_block_hash1 b) bvc_init ;;
      if negb (r && m_added_to_main_chain bvc) then ret false
      else push_original_chain fuel rest
  end.

Definition rollback_blockchain_switching (fuel : nat) (original_chain : list Block)
    (rollback_height : Z) : E bool :=
  s <- get_state ;;
  if (m_height s =? 0) || (rollback_height =? 0) then (fun _ => Spin) else
  pop_blocks (Z.to_nat (m_height s - rollback_height)) ;;
  push_original_chain fuel original_chain.

(** The disconnecting loop of [switch_to_alternative_blockchain]:
    [for (cur = rbegin("b/", m_height - 1); i >= split_height; i--, cur.next())
       { e = entry under cur; popBlock(); disconnected_chain.push_front(e.bl); }] *)
Fixpoint disconnect_chain (n : nat) (cur : DB.Cursor) (disconnected_chain : list Block)
    : E (list Block) :=
  match n with
  | O => ret disconnected_chain
  | S n' =>
      s <- get_state ;;
      let e := entry_at_cursor (m_db s) cur in
      popBlock ;;
      disconnect_chain n' (DB.next cur) (bl e :: disconnected_chain)
  end.

Definition erase_alt_entries (ents : list (Hash * BlockEntry)) : E unit :=
  modify (fun s => with_alternative_chains
            (fold_left (fun a e => alt_erase (fst e) a) ents (m_alternative_chains s)) s).

(** The connecting loop; [None] when a push failed and the function
    returned false. *)
Fixpoint connect_alt_chain (fuel : nat) (alt_chain : list (Hash * BlockEntry))
    (disconnected_chain : list Block) (split_height : Z) : E bool :=
  match alt_chain with
  | [] => ret true
  | ch_ent :: rest =>
      '(r, bvc) <- pushBlock fuel (bl (snd ch_ent)) (get_block_hash1 (bl (snd ch_ent)))
                     bvc_init ;;
      if negb r || negb (m_added_to_main_chain bvc) then
        rollback_blockchain_switching fuel disconnected_chain split_height ;;
        erase_alt_entries (ch_ent :: rest) ;;
        ret false
      else connect_alt_chain fuel rest disconnected_chain split_height
  end.

Fixpoint push_old_chain_as_alternative (old : list Block) : E unit :=
  match old with
  | [] => ret tt
  | old_ch_ent :: rest =>
      '(r, _) <- handle_alternative_block_ old_ch_ent (get_block_hash1 old_ch_ent)
                   bvc_init false ;;
      if negb r then ret tt else push_old_chain_as_alternative rest
  end.

Definition switch_to_alternative_blockchain_body (fuel : nat)
    (alt_chain : list (Hash * BlockEntry)) (discard_disconnected_chain : bool) : E bool :=
  match alt_chain with
  | [] => ret false
  | front :: _ =>
      let split_height := height (snd front) in
      s <- get_state ;;
      if negb (split_height <? m_height s) then ret false else
      if (POISSON_CHECK_TRIGGER <=? Z.of_nat (length alt_chain))
         && negb (poisson_check_passes (m_db s) (map snd alt_chain))
      then ret false else
      if split_height =? 0 then (fun _ => Spin) else
      disconnected_chain <-
        disconnect_chain (Z.to_nat (m_height s - split_height))
          (DB.rbegin DB.BLOCK_INDEX_PREFIX (Some (m_height s - 1)) (m_db s)) [] ;;
      connected <- connect_alt_chain fuel alt_chain disconnected_chain split_height ;;
      if negb connected then ret false else
      (if negb discard_disconnected_chain
       then push_old_chain_as_alternative disconnected_chain else ret tt) ;;
      let blocksFromCommonRoot :=
        previousBlockHash (bl (snd front))
          :: map (fun ch_ent => get_block_hash1 (bl (snd ch_ent))) alt_chain in
      erase_alt_entries alt_chain ;;
      modify (sendMessage (ChainSwitchMessage blocksFromCommonRoot)) ;;
      ret true
  end.

End Reorganisation.

Fixpoint handle_alternative_block (fuel : nat) (b : Block) (id : Hash)
    (bvc : block_verification_context) (sendNewAlternativeBlockMessage : bool)
    {struct fuel} : E (bool * block_verification_context) :=
  match fuel with
  | O => fun _ => Spin
  | S fuel' =>
      handle_alternative_block_body (switch_to_alternative_blockchain fuel')
        fuel' b id bvc sendNewAlternativeBlockMessage
  end
with switch_to_alternative_blockchain (fuel : nat)
    (alt_chain : list (Hash * BlockEntry)) (discard_disconnected_chain : bool)
    {struct fuel} : E bool :=
  match fuel with
  | O => fun _ => Spin
  | S fuel' =>
      switch_to_alternative_blockchain_body (handle_alternative_block fuel')
        fuel' alt_chain discard_disconnected_chain
  end.

(** ** Block ingestion *)

Definition addNewBlock (fuel : nat) (bl_ : Block) (bvc : block_verification_context)
    : E (bool * block_verification_context) :=
  match get_block_hash bl_ with
  | None => ret (false, set_verification_failed bvc)
  | Some id =>
      s <- get_state ;;
      if haveBlock id s then ret (false, set_already_exists bvc) else
      '(add_result, bvc') <-
        (if negb (previousBlockHash bl_ =? getTailId s) then
           (* the debug line reads
              boost::get<BaseInput>(bl.baseTransaction.inputs.front()).blockIndex *)
           match inputs (baseTransaction bl_) with
           | InBase _ :: _ =>
               handle_alternative_block fuel bl_ id
                 (set_added_to_main_chain false bvc) true
           | _ :: _ => throw bad_get
           | [] => throw out_of_bounds
           end
         else
           '(r, c) <- pushBlock fuel bl_ id bvc ;;
           (if r then modify (sendMessage (NewBlockMessage id)) else ret tt) ;;
           ret (r, c)) ;;
      (if add_result && m_added_to_main_chain bvc'
       then modify notify_observers else ret tt) ;;
      ret (add_result, bvc')
  end.

(** ** Random outputs *)

(** [find_end_of_allowed_index]: scan from the last output down to the
    first one whose block is old enough. [rev_outs] is the reversed list,
    [i] the index after its head. *)
Fixpoint find_end_of_allowed_index_from (rev_outs : list (TransactionIndex * Z))
    (i : Z) (s : Blockchain) : Z :=
  match rev_outs with
  | [] => 0
  | o :: rest =>
      if u64 (block (fst o)
              + (if block (fst o) <? UPGRADE_HEIGHT_V5
                 then minedMoneyUnlockWindow else minedMoneyUnlockWindow_v1))
         <=? getCurrentBlockchainHeight s
      then i
      else find_end_of_allowed_index_from rest (i - 1) s
  end.

Definition find_end_of_allowed_index (amount_outs : list (TransactionIndex * Z))
    (s : Blockchain) : Z :=
  find_end_of_allowed_index_from (rev amount_outs) (Z.of_nat (length amount_outs)) s.

(** The key image [K] is in the spent-key-image index and the cached
    height is outside the checkpoint zone. *)
Definition spent_outside_zone (K : KeyImage) (s : Blockchain) : Prop :=
  checkIfSpent K s = true /\ is_in_checkpoint_zone (m_height s) = false.

(** One of the inputs is a [KeyInput] with key image [K]. *)
Definition spends (K : KeyImage) (ins : list TransactionInput) : Prop :=
  exists k, In (InKey k) ins /\ keyImage k = K.

(** An observation of the state that no write outside the height index
    "b/", and no change of the pool or of the transaction counter, can
    alter. *)
Definition frame {B} (f : Blockchain -> B) : Prop :=
  (forall k v b, fst k <> DB.BLOCK_INDEX_PREFIX -> keeps f (db_put k v b))
  /\ (forall k b, fst k <> DB.BLOCK_INDEX_PREFIX -> keeps f (db_del k b))
  /\ (forall n s, f (with_lastGeneratedTxNumber n s) = f s)
  /\ (forall p s, f (with_tx_pool p s) = f s).

End Engine.

(** ** A small network

    Concrete collaborators and a few blocks, used to run the engine. The
    hash of a block is read off its timestamp and the hash of a
    transaction off its first extra byte (or its unlock time, for a
    coinbase): the blocks and transactions below all differ there. *)

Module Example.

Definition empty_tx : Transaction :=
  {| version := 1; unlockTime := 0; inputs := []; outputs := []; extra := [];
     signatures := [] |}.

Definition no_parent : ParentBlock :=
  {| pb_majorVersion := 0; pb_minorVersion := 0; pb_previousBlockHash := NULL_HASH;
     transactionCount := 0; baseTransactionBranch := [];
     pb_baseTransaction := empty_tx; blockchainBranch := [] |}.

(** A well-formed coinbase for height [h] paying [amt]. *)
Definition coinbase (h amt : Z) : Transaction :=
  {| version := 1; unlockTime := h + 10; inputs := [InBase {| blockIndex := h |}];
     outputs := [{| amount := amt; target := OutKey {| key := 77 |} |}];
     extra := []; signatures := [] |}.

Definition block_with (base : Transaction) (ts : Z) (prev : Hash) (hs : list Hash) : Block :=
  {| majorVersion := 1; minorVersion := 0; nonce := 0; timestamp := ts;
     previousBlockHash := prev; parentBlock := no_parent; baseTransaction := base;
     transactionHashes := hs; algorithm := 0 |}.

(** A transfer spending key image [ki]; [id] makes its hash. *)
Definition spend (id : Z) (kis : list KeyImage) : Transaction :=
  {| version := 1; unlockTime := 0;
     inputs := map (fun ki => InKey {| ki_amount := 50; outputIndexes := [0];
                                       keyImage := ki |}) kis;
     outputs := []; extra := [id]; signatures := map (fun _ => [1]) kis |}.

Definition tx_hash (t : Transaction) : Hash :=
  match extra t with
  | id :: _ => 7000 + id
  | [] => 5000 + unlockTime t
  end.

Definition block_hash (b : Block) : Hash := 1000 + timestamp b.

(** What an unassigned [BlockEntry] local holds: [g] in its cumulative
    difficulty, zeros elsewhere. *)
Definition garbage (g : Z) : BlockEntry :=
  {| bl := block_with empty_tx 0 NULL_HASH []; height := 0;
     block_cumulative_size := 0; cumulative_difficulty := g;
     already_generated_coins := 0; transactions := [] |}.

Definition currency : Currency :=
  {| upgradeHeight := fun _ => 1000000;
     minedMoneyUnlockWindow := 10; minedMoneyUnlockWindow_v1 := 20;
     timestampCheckWindow := fun _ => 3; blockFutureTimeLimit := fun _ => 100;
     rewardBlocksWindow := 5; difficultyBlocksCountByBlockVersion := fun _ => 4;
     blockGrantedFullRewardZoneByBlockVersion := fun _ => 1000;
     maxBlockCumulativeSize := fun _ => 100000; minerTxBlobReservedSize := 600;
     getBlockReward := fun _ _ _ _ fee => Some (50 + fee, 50);
     nextDifficulty := fun _ _ _ _ => 1;
     checkProofOfWork := fun _ _ => true;
     UPGRADE_HEIGHT_V5 := 1000000 |}.

(** No checkpoints at all. *)
Definition no_checkpoints : Checkpoints :=
  {| is_in_checkpoint_zone := fun _ => false;
     check_block := fun _ _ => (true, false);
     is_alternative_block_allowed := fun _ _ => true |}.

(** A last checkpoint above every height used here, none at these heights. *)
Definition checkpoint_zone : Checkpoints :=
  {| is_in_checkpoint_zone := fun _ => true;
     check_block := fun _ _ => (true, false);
     is_alternative_block_allowed := fun _ _ => true |}.

Definition format_utils (g : Z) : FormatUtils :=
  {| get_block_hash := fun b => Some (block_hash b);
     get_block_height := fun b =>
       match inputs (baseTransaction b) with
       | [InBase i] => blockIndex i
       | _ => 0
       end;
     getObjectHash := tx_hash;
     getObjectBinarySize := fun _ => 100;
     getInputAmount := fun _ => 0; getOutputAmount := fun _ => 0;
     checkMultisignatureInputsDiff := fun _ => true;
     getMergeMiningTagFromExtra := fun _ => false;
     getPaymentId := fun _ => None;
     time_now := 100000;
     indeterminate := garbage g |}.

Definition input_checks : InputChecks :=
  {| check_tx_input := fun _ _ _ _ _ => true;
     validateInput := fun _ _ _ _ _ _ => true;
     getPrefixHash := fun _ => 0;
     POISSON_CHECK_TRIGGER := 100;
     poisson_check_passes := fun _ _ => true |}.

(** The pool: transactions by hash. *)
Definition pool : TxPool :=
  {| tx_memory_pool := list (Hash * Transaction);
     take_tx := fun h p =>
       match find (fun e => fst e =? h) p with
       | Some e => Some (snd e, filter (fun e => fst e <> h) p)
       | None => None
       end;
     add_tx := fun t p => (true, (tx_hash t, t) :: p);
     getBlockCumulativeSize := fun _ _ _ => 100 |}.

Definition State : Type := @Blockchain pool.

Definition fresh (p : list (Hash * Transaction)) : State :=
  {| m_db := DB.empty; m_height := 0; m_lastGeneratedTxNumber := 0;
     m_alternative_chains := []; m_current_block_cumul_sz_limit := 0;
     m_synchronized := true; m_tx_pool := p : @tx_memory_pool pool;
     m_messages := []; m_notified := 0 |}.

(** The engine without checkpoints, and inside the checkpoint zone. *)
Definition ingest (g : Z) (b : Block) : State -> Outcome State (bool * block_verification_context) :=
  @addNewBlock currency no_checkpoints (format_utils g) input_checks pool 10 b bvc_init.

Definition ingest_in_zone (b : Block) : State -> Outcome State (bool * block_verification_context) :=
  @addNewBlock currency checkpoint_zone (format_utils 0) input_checks pool 10 b bvc_init.

Definition after {A} (r : Outcome State A) : State :=
  match r with
  | Ret _ s => s
  | Throw _ s => s
  | Spin => fresh []
  end.

(** Genesis, and a block on top of it. *)
Definition genesis : Block := block_with (coinbase 0 50) 10 NULL_HASH [].
Definition block1 : Block := block_with (coinbase 1 50) 20 (block_hash genesis) [].

Definition chain1 (g : Z) : State := after (ingest g genesis (fresh [])).
Definition chain2 (g : Z) : State := after (ingest g block1 (chain1 g)).

(** Two competitors of [block1]: [alt1] on genesis, [alt2] on [alt1]. *)
Definition alt1 : Block := block_with (coinbase 1 50) 30 (block_hash genesis) [].
Definition alt2 : Block := block_with (coinbase 2 50) 40 (block_hash alt1) [].

(** Two transfers spending the same key image 9, and their blocks. *)
Definition spend_a : Transaction := spend 1 [9].
Definition spend_b : Transaction := spend 2 [9].
Definition pool_ab : list (Hash * Transaction) :=
  [(tx_hash spend_a, spend_a); (tx_hash spend_b, spend_b)].
Definition block1_a : Block :=
  block_with (coinbase 1 50) 20 (block_hash genesis) [tx_hash spend_a].
Definition block2_b : Block :=
  block_with (coinbase 2 50) 30 (block_hash block1_a) [tx_hash spend_b].

Definition zone1 : State := after (ingest_in_zone genesis (fresh pool_ab)).
Definition zone2 : State := after (ingest_in_zone block1_a zone1).

(** A block whose coinbase unlocks at once, signs, and has two inputs. *)
Definition odd_coinbase : Transaction :=
  {| version := 1; unlockTime := 0;
     inputs := [InBase {| blockIndex := 1 |}; InBase {| blockIndex := 1 |}];
     outputs := [{| amount := 50; target := OutKey {| key := 77 |} |}];
     extra := []; signatures := [[1]] |}.
Definition odd_block : Block := block_with odd_coinbase 20 (block_hash genesis) [].

(** A block on genesis stamped one second after the future time limit
    (now 100000, limit 100). *)
Definition late_block : Block :=
  block_with (coinbase 1 50) 100101 (block_hash genesis) [].

End Example.

(** * Further functions of the engine and of [Common/Math.h] *)

(** ** [Common::integer_cast] between integral types

    An integral type is its signedness and its width. [integer_cast] picks
    one of the four [integer_cast_impl] by the signedness of the target and
    of the source; [None] stands for the [std::out_of_range] thrown by
    [integer_cast_throw]. The comparisons of the source are between values
    of one signedness after the usual conversions, hence exact. *)

Module Cast.

Inductive int_type :=
| Unsigned (bits : Z)
| Signed (bits : Z).

(** [std::numeric_limits<T>::max()] and [min()] *)
Definition numeric_limits_max (t : int_type) : Z :=
  match t with Unsigned w => 2 ^ w - 1 | Signed w => 2 ^ (w - 1) - 1 end.

Definition numeric_limits_min (t : int_type) : Z :=
  match t with Unsigned _ => 0 | Signed w => - 2 ^ (w - 1) end.

(** [static_cast<T>(x)]: reduction modulo [2^w], read in two's complement
    for a signed [T]. *)
Definition static_cast (t : int_type) (x : Z) : Z :=
  match t with
  | Unsigned w => x mod 2 ^ w
  | Signed w => (x + 2 ^ (w - 1)) mod 2 ^ w - 2 ^ (w - 1)
  end.

(** [std::make_unsigned<T>::type] *)
Definition make_unsigned (t : int_type) : int_type :=
  match t with Unsigned w => Unsigned w | Signed w => Unsigned w end.

(** [integer_cast<Target>(arg)] for an integral [Source] *)
Definition integer_cast (target source : int_type) (arg : Z) : option Z :=
  match target, source with
  | Unsigned _, Unsigned _ =>
      (* both unsigned *)
      if numeric_limits_max target <? arg then None
      else Some (static_cast target arg)
  | Signed _, Signed _ =>
      (* both signed *)
      if numeric_limits_max target <? arg then None
      else if arg <? numeric_limits_min target then None
      else Some (static_cast target arg)
  | Unsigned _, Signed _ =>
      (* signed to unsigned *)
      if arg <? 0 then None
      else if numeric_limits_max target <? static_cast (make_unsigned source) arg then None
      else Some (static_cast target arg)
  | Signed _, Unsigned _ =>
      (* unsigned to signed *)
      if static_cast (make_unsigned target) (numeric_limits_max target) <? arg then None
      else Some (static_cast target arg)
  end.

Definition bits (t : int_type) : Z := match t with Unsigned w => w | Signed w => w end.

(** [x] is a value of the type [t]. *)
Definition in_range (t : int_type) (x : Z) : Prop :=
  numeric_limits_min t <= x <= numeric_limits_max t.

End Cast.

(** ** Queries of the chain and of its indices *)

Section Queries.
Context `{Currency, Checkpoints, FormatUtils, InputChecks, TxPool}.
Local Open Scope engine_scope.

(** [std::copy(v.begin(), v.end(), id.data)] on the value of an entry of
    the height index. *)
Definition as_Hash (v : DB.Value) : Hash :=
  match v with DB.VHash h => h | _ => NULL_HASH end.

(** [getBlockIdByHeight(height, hash)]: [None] when it returns false. *)
Definition getBlockIdByHeight_hash (height : Z) (s : Blockchain) : option Hash :=
  as_Hash <$> DB.get (DB.BLOCK_INDEX_PREFIX, height) (m_db s).

(** [getBlockByHash(blockHash, b)]: the main chain first, then the
    alternative blocks; [None] when it returns false. *)
Definition getBlockByHash (blockHash : Hash) (s : Blockchain) : option Block :=
  match DB.get (DB.BLOCK_PREFIX, blockHash) (m_db s) with
  | Some v => bl <$> as_BlockEntry (Some v)
  | None => bl <$> alt_find blockHash (m_alternative_chains s)
  end.

(** The timestamp of the main-chain block at [height], through
    [getBlockEntryByHeight]. *)
Definition timestamp_at (height : Z) (s : Blockchain) : option Z :=
  (fun e => timestamp (bl e)) <$> getBlockEntryByHeight height s.

(** [haveTransaction(id)] *)
Definition haveTransaction (id : Hash) (s : Blockchain) : bool :=
  match DB.get (DB.TRANSACTIONS_INDEX_PREFIX, id) (m_db s) with
  | Some _ => true
  | None => false
  end.

(** [getTransactionIdsByPaymentId(paymentId, transactionHashes)]: [None]
    when it returns false; an entry that does not parse throws. *)
Definition getTransactionIdsByPaymentId (paymentId : Hash) : E (option (list Hash)) :=
  ba <- db_get (DB.PAYMENT_ID_INDEX_PREFIX, paymentId) ;;
  match ba with
  | None => ret None
  | Some (DB.VPaymentIdEntry pe) => ret (Some pe)
  | Some _ => throw runtime_error
  end.

(** The test that [find_end_of_allowed_index] makes on one output:
    [amount_outs[i].first.block + window <= getCurrentBlockchainHeight()]. *)
Definition old_enough (o : TransactionIndex * Z) (s : Blockchain) : bool :=
  u64 (block (fst o)
       + (if block (fst o) <? UPGRADE_HEIGHT_V5
          then minedMoneyUnlockWindow else minedMoneyUnlockWindow_v1))
  <=? getCurrentBlockchainHeight s.

(** [haveTransactionKeyImagesAsSpent(tx)]:
    [for (in : tx.inputs) if (in is KeyInput) if (have_tx_keyimg_as_spent(..))
       return true; return false;] *)
Fixpoint haveTransactionKeyImagesAsSpent_from (ins : list TransactionInput)
    (s : Blockchain) : bool :=
  match ins with
  | [] => false
  | InKey k :: ins' =>
      if have_tx_keyimg_as_spent (keyImage k) s then true
      else haveTransactionKeyImagesAsSpent_from ins' s
  | _ :: ins' => haveTransactionKeyImagesAsSpent_from ins' s
  end.

Definition haveTransactionKeyImagesAsSpent (t : Transaction) (s : Blockchain) : bool :=
  haveTransactionKeyImagesAsSpent_from (inputs t) s.

(** What [checkTransactionInputs] asks of the input at position
    [inputIndex]: the signature checks only outside the checkpoint zone. *)
Definition input_checked (t : Transaction) (s : Blockchain) (inputIndex : nat)
    (i : TransactionInput) : Prop :=
  match i with
  | InBase _ => False
  | InKey k =>
      outputIndexes k <> []
      /\ checkIfSpent (keyImage k) s = false
      /\ (is_in_checkpoint_zone (m_height s) = false ->
          exists sig, signatures t !! inputIndex = Some sig
                      /\ check_tx_input (m_db s) (m_height s) k (getPrefixHash t) sig
                         = true)
  | InMultisignature m =>
      is_in_checkpoint_zone (m_height s) = false ->
      exists sig, signatures t !! inputIndex = Some sig
                  /\ validateInput (m_db s) (m_height s) m (getObjectHash t)
                       (getPrefixHash t) sig = true
  end.

(** [getBlockIds(startHeight, maxCount)]:
    [for (cur = begin("b/", startHeight); !cur.end(); ++count, cur.next())
       { ids.push_back(id); if (count > maxCount) break; }] *)
Fixpoint getBlockIds_loop (cur : DB.Cursor) (count maxCount : Z) : list Hash :=
  match cur with
  | [] => []
  | _ :: cur' =>
      as_Hash (DB.get_value_array cur)
        :: (if maxCount <? count then []
            else getBlockIds_loop cur' (u32 (count + 1)) maxCount)
  end.

Definition getBlockIds (startHeight maxCount : Z) (s : Blockchain) : list Hash :=
  getBlockIds_loop (DB.begin DB.BLOCK_INDEX_PREFIX (Some startHeight) (m_db s)) 0 maxCount.

(** [getBlocks(start_offset, count, blocks)]:
    [if (start_offset >= m_height) return false;
     for (cur = begin("b/", start_offset); !cur.end(); ++cnt, cur.next())
       { blocks.push_back(e.bl); if (cnt > count) break; }
     return true;] *)
Fixpoint getBlocks_loop (db : DB.t) (cur : DB.Cursor) (cnt count : Z) : list Block :=
  match cur with
  | [] => []
  | _ :: cur' =>
      bl (entry_at_cursor db cur)
        :: (if count <? cnt then []
            else getBlocks_loop db cur' (u32 (cnt + 1)) count)
  end.

Definition getBlocks (start_offset count : Z) (blocks : list Block) (s : Blockchain)
    : bool * list Block :=
  if m_height s <=? start_offset then (false, blocks)
  else
    (true,
     blocks ++ getBlocks_loop (m_db s)
                 (DB.begin DB.BLOCK_INDEX_PREFIX (Some start_offset) (m_db s)) 0 count).

(** [build_sparse_chain(startBlockId)]: its loop
    [for (size_t i = 1; i <= sparseChainEnd; i *= 2)], which [fuel] bounds. *)
Fixpoint build_sparse_chain_loop (fuel : nat) (i sparseChainEnd : Z)
    (result : list Hash) : E (list Hash) :=
  if i <=? sparseChainEnd then
    match fuel with
    | O => fun _ => Spin
    | S fuel' =>
        v <- db_get (DB.BLOCK_INDEX_PREFIX, sparseChainEnd - i) ;;
        match v with
        | None => throw runtime_error
        | Some v =>
            build_sparse_chain_loop fuel' (u64 (i * 2)) sparseChainEnd
              (result ++ [as_Hash v])
        end
    end
  else ret result.

Definition build_sparse_chain (fuel : nat) (startBlockId : Hash) : E (list Hash) :=
  s <- get_state ;;
  match getBlockHeight startBlockId s with
  | None => throw runtime_error
  | Some startBlockHeight =>
      let sparseChainEnd := u32 (startBlockHeight + 1) in
      result <- build_sparse_chain_loop fuel 1 sparseChainEnd [] ;;
      let z := as_Hash (DB.get_value_array
                          (DB.begin DB.BLOCK_INDEX_PREFIX None (m_db s))) in
      match list.last result with
      | None => throw out_of_bounds          (* result.back() of an empty vector *)
      | Some back => if negb (back =? z) then ret (result ++ [z]) else ret result
      end
  end.

(** *** Notions used to state what the index writers do *)

(** The state without its store. *)
Definition other_members (s : Blockchain) : Blockchain := with_db DB.empty s.

(** Every key of the store reads in [s'] as it does in [s], and the other
    members of the two states are equal. *)
Definition same_store (s s' : Blockchain) : Prop :=
  (forall key, DB.get key (m_db s') = DB.get key (m_db s))
  /\ with_db DB.empty s' = with_db DB.empty s.

(** [key] is the spent-key-image key of one of the [KeyInput]s of [ins]. *)
Definition key_image_key (ins : list TransactionInput) (key : DB.Key) : bool :=
  existsb (fun i => match i with
                    | InKey k => DB.key_eqb key (DB.SPENT_KEY_IMAGES_INDEX_PREFIX, keyImage k)
                    | _ => false
                    end) ins.

(** What the first loop of [pushTransaction] has written so far, against
    the store [db0] the call started from: the keys it wrote were absent,
    every other key is as it was. *)
Definition rollback_inv (db0 : DB.t) (tkey : DB.Key) (prev : list TransactionInput)
    (s : Blockchain) : Prop :=
  forall key,
    if DB.key_eqb key tkey || key_image_key prev key
    then DB.get key db0 = None
    else DB.get key (m_db s) = DB.get key db0.

(** The key spaces that [pushTransaction] and [popTransaction] write. *)
Definition transaction_index (p : DB.Prefix) : bool :=
  match p with
  | DB.TRANSACTIONS_INDEX_PREFIX | DB.SPENT_KEY_IMAGES_INDEX_PREFIX
  | DB.MULTUSIGNATURE_OUTPUTS_INDEX_PREFIX | DB.OUTPUTS_INDEX_PREFIX
  | DB.PAYMENT_ID_INDEX_PREFIX => true
  | _ => false
  end.

(** Those that its two output loops write. *)
Definition output_index (p : DB.Prefix) : bool :=
  match p with
  | DB.MULTUSIGNATURE_OUTPUTS_INDEX_PREFIX | DB.OUTPUTS_INDEX_PREFIX => true
  | _ => false
  end.

(** An observation of the state that no write to the key spaces [W] can
    alter. *)
Definition frame_of (W : DB.Prefix -> bool) {B} (f : Blockchain -> B) : Prop :=
  (forall k v b, W (fst k) = true -> keeps f (db_put k v b))
  /\ (forall k b, W (fst k) = true -> keeps f (db_del k b)).

(** Apart from the key spaces [W], every key of the store reads in [s']
    as it does in [s], and the other members of the two states are equal. *)
Definition same_outside (W : DB.Prefix -> bool) (s s' : Blockchain) : Prop :=
  (forall key, W (fst key) = false -> DB.get key (m_db s') = DB.get key (m_db s))
  /\ other_members s' = other_members s.

(** The two tests of [pushBlock] that turn a block down without setting a
    flag: the merge-mining tag from version 5 on, and a next difficulty of
    zero. *)
Definition turned_down_quietly (b : Block) (s : Blockchain) : Prop :=
  (BLOCK_MAJOR_VERSION_5 <=? majorVersion b)
    && getMergeMiningTagFromExtra (extra (baseTransaction b)) = true
  \/ getDifficultyForNextBlock s = 0.

(** The height that [handle_alternative_block] gives the block:
    [bei.height = static_cast<uint32_t>(alt_chain.size()
       ? it_prev->second.height + 1 : mainPrevHeight + 1)],
    where [alt_chain] is not empty exactly when the parent is an
    alternative block ([it_prev]). *)
Definition alternative_block_height (b : Block) (s : Blockchain) : Z :=
  u32 (match find (fun e => fst e =? previousBlockHash b) (m_alternative_chains s) with
       | Some p => height (snd p) + 1
       | None => default 0 (getBlockHeight (previousBlockHash b) s) + 1
       end).

End Queries.

(** ** Random outputs: the query ([getRandomOutsByAmount])

    The index of a sampled output is computed in double precision. A
    double is a [spec_float] of the IEEE 754 binary64 format (53 bits of
    precision, exponents below 1024), with the operations of the standard
    library's specification of floating-point arithmetic, which round to
    nearest, ties to even. *)

Module Double.
Import SpecFloat.

Definition prec : Z := 53.
Definition emax : Z := 1024.

(** [(double)n] for an unsigned integer [n]: the nearest double. *)
Definition of_Z (n : Z) : spec_float := binary_normalize prec emax n 0 false.

Definition div : spec_float -> spec_float -> spec_float := SFdiv prec emax.
Definition sqrt : spec_float -> spec_float := SFsqrt prec emax.
Definition mul : spec_float -> spec_float -> spec_float := SFmul prec emax.

(** [(size_t)x] for a double that is not negative: the fractional part is
    discarded. *)
Definition to_Z (x : spec_float) : Z :=
  match x with
  | S754_finite false m e =>
      if 0 <=? e then Zpos m * 2 ^ e else Zpos m / 2 ^ (- e)
  | _ => 0
  end.

End Double.

(** The index that the sampling loop draws from the random value [r]:
    [frac = std::sqrt((double)r / ((uint64_t)1 << 53));
     i = (size_t)(frac * up_index_limit);] *)
Definition sample_index (r up_index_limit : Z) : Z :=
  let frac := Double.sqrt (Double.div (Double.of_Z r) (Double.of_Z (2 ^ 53))) in
  Double.to_Z (Double.mul frac (Double.of_Z up_index_limit)).

(** The request and the entries of the response of the query. Their
    types are declared in Rpc/CoreRpcServerCommandsDefinitions.h, which is
    not among the sources; the fields are those the engine reads and
    writes. The response is its one field, the vector [outs]. *)
Module COMMAND_RPC_GET_RANDOM_OUTPUTS_FOR_AMOUNTS.

Record request := {
  amounts : list Z;
  outs_count : Z }.

Record out_entry := {
  global_amount_index : Z;
  out_key : PublicKey }.

Record outs_for_amount := {
  amount : Z;
  outs : list out_entry }.

End COMMAND_RPC_GET_RANDOM_OUTPUTS_FOR_AMOUNTS.

Module RPC := COMMAND_RPC_GET_RANDOM_OUTPUTS_FOR_AMOUNTS.

(** [Random::randomValue<size_t>()] (Common/Random.h, not among the
    sources): a draw from a generator, whose state it advances. *)
Class Random := {
  random_state : Type;
  randomValue : random_state -> Z * random_state }.

(** Three more constants of the currency (Currency.h, not among the
    sources), all [uint64_t]. *)
Class SpendTime := {
  maxBlockHeight : Z;
  lockedTxAllowedDeltaBlocks : Z;
  lockedTxAllowedDeltaSeconds : Z }.

Section RandomOutputs.
Context `{Currency, Checkpoints, FormatUtils, InputChecks, TxPool, SpendTime, Random}.
Local Open Scope engine_scope.

(** [transactionByIndex(index)]: the two lookups log their failures and go
    on, so that the entry read is what the local [e] held; [None] is the
    access [e.transactions[index.transaction]] past the end. *)
Definition transactionByIndex (index : TransactionIndex) (s : Blockchain)
    : option TransactionEntry :=
  let e := match DB.get (DB.BLOCK_INDEX_PREFIX, block index) (m_db s) with
           | Some v =>
               match as_BlockEntry (DB.get (DB.BLOCK_PREFIX, as_Hash v) (m_db s)) with
               | Some e => e
               | None => indeterminate
               end
           | None => indeterminate
           end in
  transactions e !! Z.to_nat (transaction index).

(** [getBlockTimestamp(height)]: the result of [getBlockEntryByHeight] is
    not looked at. *)
Definition getBlockTimestamp (height : Z) (s : Blockchain) : Z :=
  timestamp (bl (default indeterminate (getBlockEntryByHeight height s))).

(** [is_tx_spendtime_unlocked(unlock_time)]: a value below
    [maxBlockHeight()] is a block index, any other a time. The height is a
    [uint32_t], the sums are 64-bit. *)
Definition is_tx_spendtime_unlocked (unlock_time : Z) (s : Blockchain) : bool :=
  if unlock_time <? maxBlockHeight then
    unlock_time
    <=? u64 (u32 (getCurrentBlockchainHeight s - 1) + lockedTxAllowedDeltaBlocks)
  else
    let lastBlockTimestamp :=
      getBlockTimestamp (u32 (getCurrentBlockchainHeight s - 1)) s in
    unlock_time <=? u64 (lastBlockTimestamp + lockedTxAllowedDeltaSeconds).

(** What the query works on: the generator and [res.outs], the vector of
    the response, which the caller passes by reference and sees as it is
    when the call ends. *)
Record Sampler := {
  m_random : random_state;
  res : list RPC.outs_for_amount }.

Definition R : Type -> Type := M Sampler.

(** [res.outs.insert(res.outs.end(), outs_for_amount())] with its amount *)
Definition push_outs_for_amount (amount : Z) : R unit :=
  modify (fun st => {| m_random := m_random st;
                       res := res st ++ [{| RPC.amount := amount; RPC.outs := [] |}] |}).

(** [result_outs.outs.insert(result_outs.outs.end(), oen)], where
    [result_outs] refers to the last entry of [res.outs]. *)
Definition push_back_out (oen : RPC.out_entry) (result_outs : RPC.outs_for_amount)
    : RPC.outs_for_amount :=
  {| RPC.amount := RPC.amount result_outs;
     RPC.outs := RPC.outs result_outs ++ [oen] |}.

Definition push_out_entry (oen : RPC.out_entry) : R unit :=
  modify (fun st =>
    {| m_random := m_random st;
       res := alter (push_back_out oen) (pred (length (res st))) (res st) |}).

(** [Random::randomValue<size_t>()] *)
Definition random_size_t : R Z :=
  fun st => let (v, g) := randomValue (m_random st) in
            Ret (u64 v) {| m_random := g; res := res st |}.

(** [add_out_to_get_random_outs(amount_outs, result_outs, amount, i)] *)
Definition add_out_to_get_random_outs (amount_outs : list (TransactionIndex * Z))
    (i : Z) (s : Blockchain) : R bool :=
  match amount_outs !! Z.to_nat i with
  | None => throw out_of_bounds
  | Some o =>
      match transactionByIndex (fst o) s with
      | None => throw out_of_bounds
      | Some te =>
          match outputs (tx te) !! Z.to_nat (snd o) with
          | None => ret false
          | Some out =>
              match target out with
              | OutMultisignature _ => ret false
              | OutKey k =>
                  if negb (is_tx_spendtime_unlocked (unlockTime (tx te)) s)
                  then ret false
                  else
                    push_out_entry {| RPC.global_amount_index := u32 i;
                                      RPC.out_key := key k |} ;;
                    ret true
              end
          end
      end
  end.

(** The sampling loop
    [for (uint64_t j = 0; j != req.outs_count && try_count < up_index_limit;)],
    which [fuel] bounds; [used] is the set of the indices tried. *)
Fixpoint sample_outs (fuel : nat) (amount_outs : list (TransactionIndex * Z))
    (up_index_limit outs_count : Z) (s : Blockchain)
    (j try_count : Z) (used : list Z) : R unit :=
  if negb (j =? outs_count) && (try_count <? up_index_limit) then
    match fuel with
    | O => fun _ => Spin
    | S fuel' =>
        v <- random_size_t ;;
        let r := v mod 2 ^ 53 in
        let i := sample_index r up_index_limit in
        if bool_decide (i ∈ used) then
          sample_outs fuel' amount_outs up_index_limit outs_count s j try_count used
        else
          added <- add_out_to_get_random_outs amount_outs i s ;;
          sample_outs fuel' amount_outs up_index_limit outs_count s
            (if added then u64 (j + 1) else j) (u64 (try_count + 1)) (i :: used)
    end
  else ret tt.

(** The loop [for (size_t i = 0; i != up_index_limit; i++)] of the other
    branch, with [n] indices to go. *)
Fixpoint add_all_outs (n : nat) (amount_outs : list (TransactionIndex * Z))
    (i : Z) (s : Blockchain) : R unit :=
  match n with
  | O => ret tt
  | S n' =>
      add_out_to_get_random_outs amount_outs i s ;;
      add_all_outs n' amount_outs (i + 1) s
  end.

(** The loop of [getRandomOutsByAmount] over [req.amounts]. *)
Fixpoint getRandomOutsByAmount_from (fuel : nat) (amounts : list Z) (outs_count : Z)
    (s : Blockchain) : R bool :=
  match amounts with
  | [] => ret true
  | amount :: rest =>
      push_outs_for_amount amount ;;
      match DB.get (DB.OUTPUTS_INDEX_PREFIX, amount) (m_db s) with
      | None => getRandomOutsByAmount_from fuel rest outs_count s
      | Some (DB.VOutputsEntry amount_outs) =>
          let up_index_limit := find_end_of_allowed_index amount_outs s in
          if negb (up_index_limit <=? Z.of_nat (length amount_outs)) then ret false
          else
            (if outs_count <? Z.of_nat (length amount_outs)
             then sample_outs fuel amount_outs up_index_limit outs_count s 0 0 []
             else add_all_outs (Z.to_nat up_index_limit) amount_outs 0 s) ;;
            getRandomOutsByAmount_from fuel rest outs_count s
      | Some _ => throw runtime_error
      end
  end.

Definition getRandomOutsByAmount (fuel : nat) (req : RPC.request) (s : Blockchain)
    : R bool :=
  getRandomOutsByAmount_from fuel (RPC.amounts req) (RPC.outs_count req) s.

(** *** Notions used to state what the query returns *)

(** The generator after [n] draws, and the value drawn after them. *)
Fixpoint after_draws (n : nat) (g : random_state) : random_state :=
  match n with
  | O => g
  | S n' => after_draws n' (snd (randomValue g))
  end.

Definition draw (n : nat) (g : random_state) : Z :=
  u64 (fst (randomValue (after_draws n g))).

(** The entry that [add_out_to_get_random_outs] appends for the output at
    index [i]; [None] when it returns false or reads past the end of a
    vector. *)
Definition offered (amount_outs : list (TransactionIndex * Z)) (s : Blockchain)
    (i : Z) : option RPC.out_entry :=
  match amount_outs !! Z.to_nat i with
  | None => None
  | Some o =>
      match transactionByIndex (fst o) s with
      | None => None
      | Some te =>
          match outputs (tx te) !! Z.to_nat (snd o) with
          | None => None
          | Some out =>
              match target out with
              | OutMultisignature _ => None
              | OutKey k =>
                  if is_tx_spendtime_unlocked (unlockTime (tx te)) s
                  then Some {| RPC.global_amount_index := u32 i; RPC.out_key := key k |}
                  else None
              end
          end
      end
  end.

(** The candidates for an amount: what the indices below
    [find_end_of_allowed_index] offer, in the order of the indices. *)
Definition candidates (amount_outs : list (TransactionIndex * Z)) (s : Blockchain)
    : list RPC.out_entry :=
  omap (offered amount_outs s) (seqZ 0 (find_end_of_allowed_index amount_outs s)).

(** What the query returns for one amount, [g] being the generator when
    the query starts. *)
Definition outs_for (outs_count : Z) (s : Blockchain) (g : random_state)
    (amount : Z) (r : RPC.outs_for_amount) : Prop :=
  RPC.amount r = amount
  /\ match DB.get (DB.OUTPUTS_INDEX_PREFIX, amount) (m_db s) with
     | None => RPC.outs r = []
     | Some (DB.VOutputsEntry amount_outs) =>
         let up_index_limit := find_end_of_allowed_index amount_outs s in
         NoDup (RPC.global_amount_index <$> RPC.outs r)
         /\ (forall e, e ∈ RPC.outs r ->
               0 <= RPC.global_amount_index e < up_index_limit
               /\ offered amount_outs s (RPC.global_amount_index e) = Some e)
         /\ Z.of_nat (length (RPC.outs r))
            = Z.min outs_count (Z.of_nat (length (candidates amount_outs s)))
         /\ (if outs_count <? Z.of_nat (length amount_outs)
             then forall e, e ∈ RPC.outs r ->
                    exists n, RPC.global_amount_index e
                              = sample_index (draw n g mod 2 ^ 53) up_index_limit
             else RPC.outs r = candidates amount_outs s)
     | Some _ => False
     end.

(** Every requested amount has fewer than 2^32 outputs. *)
Definition indexable (req : RPC.request) (s : Blockchain) : Prop :=
  Forall (fun amount =>
            match DB.get (DB.OUTPUTS_INDEX_PREFIX, amount) (m_db s) with
            | Some (DB.VOutputsEntry amount_outs) =>
                Z.of_nat (length amount_outs) < 2 ^ 32
            | _ => True
            end) (RPC.amounts req).

(** No requested amount has more outputs than the count asked for. *)
Definition all_requested (req : RPC.request) (s : Blockchain) : Prop :=
  Forall (fun amount =>
            match DB.get (DB.OUTPUTS_INDEX_PREFIX, amount) (m_db s) with
            | Some (DB.VOutputsEntry amount_outs) =>
                Z.of_nat (length amount_outs) <= RPC.outs_count req
            | _ => True
            end) (RPC.amounts req).

(** What holds of the set [used] and of the outputs appended to the entry
    [r0], at every turn of the sampling loop; [k] values have been drawn
    from the generator [g] since the query started. *)
Definition sampled (amount_outs : list (TransactionIndex * Z)) (s : Blockchain)
    (up_index_limit : Z) (g : random_state) (k : nat) (used : list Z)
    (r0 r : RPC.outs_for_amount) : Prop :=
  NoDup used
  /\ (forall i, i ∈ used ->
        0 <= i < up_index_limit
        /\ exists n, (n < k)%nat
                     /\ i = sample_index (draw n g mod 2 ^ 53) up_index_limit)
  /\ RPC.amount r = RPC.amount r0
  /\ RPC.outs r = RPC.outs r0 ++ omap (offered amount_outs s) (reverse used).

End RandomOutputs.

(** ** A chain with a time-locked output

    Twelve blocks of the small network, the second of which holds a
    transfer that unlocks at height 1000, and a generator. *)

Module Ring.

Definition spend_time : SpendTime :=
  {| maxBlockHeight := 500000000; lockedTxAllowedDeltaBlocks := 1;
     lockedTxAllowedDeltaSeconds := 240 |}.

(** A linear congruential generator. *)
Definition lcg : Random :=
  {| random_state := Z;
     randomValue := fun g =>
       let g' := (6364136223846793005 * g + 1442695040888963407) mod 2 ^ 64 in
       (g', g') |}.

(** A transfer with one output of 50 that unlocks at height 1000. *)
Definition locked_transfer : Transaction :=
  {| version := 1; unlockTime := 1000; inputs := [];
     outputs := [{| amount := 50; target := OutKey {| key := 88 |} |}];
     extra := [3]; signatures := [] |}.

(** Block 1 with the transfer. *)
Definition block1_locked : Block :=
  Example.block_with (Example.coinbase 1 50) 20
    (Example.block_hash Example.genesis) [Example.tx_hash locked_transfer].

(** [n] more blocks, from height [h] on: the block at height [h] is stamped
    [10 * (h + 1)], and so is on the block of hash [1000 + 10 * h]. *)
Fixpoint grow (n : nat) (h : Z) (s : Example.State) : Example.State :=
  match n with
  | O => s
  | S n' =>
      grow n' (h + 1)
        (Example.after
           (Example.ingest 0
              (Example.block_with (Example.coinbase h 50) (10 * (h + 1))
                 (1000 + 10 * h) []) s))
  end.

Definition chain12 : Example.State :=
  grow 10 2
    (Example.after
       (Example.ingest 0 block1_locked
          (Example.after
             (Example.ingest 0 Example.genesis
                (Example.fresh [(Example.tx_hash locked_transfer, locked_transfer)]))))).

(** [count] outputs of 50 asked of [chain12], the generator seeded with
    [seed] and the response empty. *)
Definition query (fuel : nat) (count : Z) (seed : Z) : Outcome Sampler bool :=
  @getRandomOutsByAmount Example.currency (Example.format_utils 0) Example.pool
    spend_time lcg fuel
    {| RPC.amounts := [50]; RPC.outs_count := count |} chain12
    {| m_random := seed : @random_state lcg; res := [] |}.

End Ring.

(* ================================================================== *)
(** * Properties *)

(** ** Machine integers *)

Lemma u64_small x : is_u64 x -> u64 x = x.
Proof. intros Hx. unfold u64. apply Z.mod_small. exact Hx. Qed.

Lemma u64_range x : is_u64 (u64 x).
Proof. unfold is_u64, u64. apply Z.mod_pos_bound. lia. Qed.

(** ** The median *)

Lemma std_sort_Sorted v : Sorted Z.le (Common.std_sort v).
Proof. unfold Common.std_sort. apply Sorted_merge_sort. intros x y. lia. Qed.

Lemma std_sort_Permutation v : Common.std_sort v ≡ₚ v.
Proof. apply merge_sort_Permutation. Qed.

Lemma std_sort_length v : length (Common.std_sort v) = length v.
Proof. apply Permutation_length, std_sort_Permutation. Qed.

(** [std::sort] has one possible result: any sorted rearrangement of the
    vector is the one the model computes. *)
Lemma std_sort_unique v s : Sorted Z.le s -> s ≡ₚ v -> Common.std_sort v = s.
Proof.
  intros Hs Hp.
  apply (Sorted_unique Z.le); [apply std_sort_Sorted | exact Hs |].
  rewrite std_sort_Permutation. symmetry. exact Hp.
Qed.

Lemma std_sort_Forall (P : Z -> Prop) v : Forall P v -> Forall P (Common.std_sort v).
Proof. intros Hv. rewrite std_sort_Permutation. exact Hv. Qed.

Lemma at_u64 v i : Forall is_u64 v -> is_u64 (Common.at_ v i).
Proof.
  intros Hv. unfold Common.at_.
  destruct (nth_in_or_default i v 0) as [Hin | ->].
  - rewrite List.Forall_forall in Hv. apply Hv. exact Hin.
  - unfold is_u64. lia.
Qed.

Lemma middle_sum_nonneg v : Forall is_u64 v -> 0 <= Common.middle_sum v.
Proof.
  intros Hv. unfold Common.middle_sum.
  pose proof (at_u64 _ (length v / 2 - 1) (std_sort_Forall _ _ Hv)) as H1.
  pose proof (at_u64 _ (length v / 2) (std_sort_Forall _ _ Hv)) as H2.
  unfold is_u64 in *. lia.
Qed.

(** C10, as stated, at the two-element vector [2^63; 2^63]: the code
    returns 0, the truncating average of the two middle elements is 2^63. *)
Lemma medianValue_even_counterexample :
  Common.medianValue [2 ^ 63; 2 ^ 63] = 0
  /\ Common.median_spec [2 ^ 63; 2 ^ 63] = 2 ^ 63
  /\ Common.medianValue [2 ^ 63; 2 ^ 63] <> Common.median_spec [2 ^ 63; 2 ^ 63].
Proof. vm_compute. repeat split; congruence. Qed.

(** C10 (amended). For every vector [v] of 64-bit unsigned values,
    [medianValue v] is 0 when [v] is empty, the element when there is one,
    the middle element of the sorted vector when the length is odd, and,
    when the length is even, half of the sum of the two middle sorted
    elements reduced modulo 2^64; that is their truncating average as soon
    as the sum is below 2^64, and then the code and the specification's
    median agree. *)
Theorem medianValue_spec (v : list Z) :
  Forall is_u64 v ->
  let s := Common.std_sort v in
  let n := (length v / 2)%nat in
  (Sorted Z.le s /\ s ≡ₚ v)
  /\ (v = [] -> Common.medianValue v = 0)
  /\ (forall x, v = [x] -> Common.medianValue v = x)
  /\ (Nat.odd (length v) = true -> Common.medianValue v = Common.at_ s n)
  /\ (Nat.odd (length v) = false -> v <> [] ->
      Common.medianValue v = (Common.middle_sum v mod 2 ^ 64) / 2)
  /\ (Common.middle_sum v < 2 ^ 64 -> Common.medianValue v = Common.median_spec v).
Proof.
  intros Hv s n. split; [split; [apply std_sort_Sorted | apply std_sort_Permutation] |].
  split; [intros ->; reflexivity |].
  split; [intros x ->; reflexivity |].
  split.
  { intros Hodd. destruct v as [| x [| y v']]; [discriminate | | ].
    - vm_compute. reflexivity.
    - unfold Common.medianValue. rewrite Hodd. reflexivity. }
  split.
  { intros Heven Hne. destruct v as [| x [| y v']]; [congruence | discriminate |].
    unfold Common.medianValue. rewrite Heven. reflexivity. }
  intros Hsum. destruct v as [| x [| y v']]; [reflexivity | reflexivity |].
  unfold Common.medianValue, Common.median_spec.
  destruct (Nat.odd (length (x :: y :: v'))); [reflexivity |].
  fold (Common.middle_sum (x :: y :: v')).
  rewrite u64_small; [reflexivity |].
  split; [apply middle_sum_nonneg, Hv | exact Hsum].
Qed.

Lemma medianValue_spec_witness :
  Forall is_u64 [3; 1; 4; 2]
  /\ Common.medianValue [3; 1; 4; 2] = Common.median_spec [3; 1; 4; 2]
  /\ Common.medianValue [3; 1; 4; 2] = 2.
Proof.
  assert (Hv : Forall is_u64 [3; 1; 4; 2])
    by (repeat constructor; unfold is_u64; lia).
  split; [exact Hv |].
  split; [| reflexivity].
  apply (medianValue_spec [3; 1; 4; 2] Hv). vm_compute. reflexivity.
Defined.

(** ** The timestamp rule *)

Section TimestampRule.
Context `{Currency, Checkpoints, FormatUtils, InputChecks, TxPool}.

Lemma check_block_timestamp_iff (timestamps : list Z) (b : Block) :
  check_block_timestamp timestamps b = true
  <-> Z.of_nat (length timestamps) < timestampCheckWindow (majorVersion b)
      \/ Common.medianValue timestamps <= timestamp b.
Proof.
  unfold check_block_timestamp.
  destruct (Z.ltb_spec (Z.of_nat (length timestamps))
              (timestampCheckWindow (majorVersion b))) as [Hlt | Hge].
  - split; [intros _; left; exact Hlt | reflexivity].
  - destruct (Z.ltb_spec (timestamp b) (Common.medianValue timestamps)) as [Hm | Hm].
    + split; [discriminate | intros [Hc | Hc]; lia].
    + split; [intros _; right; exact Hm | reflexivity].
Qed.

(** The collecting loop ends when the index holds no more heights than the
    cached height announces; it then yields one timestamp per block. *)
Lemma main_chain_timestamps_terminates (s : Blockchain) :
  forall (d fuel : nat) (offset : Z) (cur : DB.Cursor),
    0 <= offset -> m_height s < 2 ^ 64 ->
    m_height s - offset = Z.of_nat d ->
    (length cur <= d)%nat -> (d <= fuel)%nat ->
    exists timestamps,
      main_chain_timestamps fuel s offset cur = Some timestamps
      /\ length timestamps = d.
Proof.
  induction d as [| d IH]; intros fuel offset cur Hoff Hmax Hd Hlen Hfuel.
  - assert (offset = m_height s) as -> by lia.
    destruct cur as [| c cur']; [| simpl in Hlen; lia].
    exists []. destruct fuel; simpl; rewrite Z.eqb_refl; split; reflexivity.
  - destruct fuel as [| fuel]; [lia |].
    simpl. destruct (Z.eqb_spec offset (m_height s)) as [Heq | Hne]; [lia |].
    simpl.
    destruct (IH fuel (u64 (offset + 1)) (DB.next cur)) as (ts & Hts & Hl).
    + apply u64_range.
    + exact Hmax.
    + rewrite u64_small; [lia | unfold is_u64; lia].
    + destruct cur; simpl in *; lia.
    + lia.
    + rewrite Hts. simpl. eexists. split; [reflexivity |]. simpl. lia.
Qed.

(** C6 (amended). The median rule alone is [check_block_timestamp], the
    check of an alternative block: it passes with fewer than
    [TimestampWindow] timestamps, and otherwise exactly when the timestamp
    is at least the median, so a timestamp equal to the median passes and
    one second less fails. The main-chain check
    [check_block_timestamp_main] first rejects every block stamped after
    now plus [FutureTimeLimit], however few blocks there are; below that
    limit it is the median rule on the timestamps of the last
    [min(height, TimestampWindow)] blocks, which its loop collects in that
    many rounds. *)
Theorem check_block_timestamp_rule (fuel : nat) (b : Block) (s : Blockchain) :
  let W := timestampCheckWindow (majorVersion b) in
  let limit := u64 (get_adjusted_time + blockFutureTimeLimit (majorVersion b)) in
  let offset := if m_height s <=? W then 0 else m_height s - W in
  let cur := DB.begin DB.BLOCK_INDEX_PREFIX (Some offset) (m_db s) in
  (forall timestamps,
      check_block_timestamp timestamps b = true
      <-> Z.of_nat (length timestamps) < W
          \/ Common.medianValue timestamps <= timestamp b)
  /\ (forall timestamps,
         W <= Z.of_nat (length timestamps) ->
         (timestamp b = Common.medianValue timestamps ->
          check_block_timestamp timestamps b = true)
         /\ (timestamp b = Common.medianValue timestamps - 1 ->
             check_block_timestamp timestamps b = false))
  /\ (limit < timestamp b -> check_block_timestamp_main fuel b s = Some false)
  /\ (timestamp b <= limit ->
      forall timestamps,
        main_chain_timestamps fuel s offset cur = Some timestamps ->
        check_block_timestamp_main fuel b s
        = Some (check_block_timestamp timestamps b))
  /\ (0 <= W -> 0 <= m_height s < 2 ^ 64 ->
      Z.of_nat (length cur) <= Z.min (m_height s) W ->
      Z.min (m_height s) W <= Z.of_nat fuel ->
      exists timestamps,
        main_chain_timestamps fuel s offset cur = Some timestamps
        /\ Z.of_nat (length timestamps) = Z.min (m_height s) W).
Proof.
  intros W limit offset cur.
  split; [intros ts; apply check_block_timestamp_iff |].
  split.
  { intros ts Hlen. split; intros Hts.
    - apply check_block_timestamp_iff. right. lia.
    - destruct (check_block_timestamp ts b) eqn:Hc; [| reflexivity].
      apply check_block_timestamp_iff in Hc. fold W in Hc. lia. }
  split.
  { intros Hlate. unfold check_block_timestamp_main. fold limit.
    destruct (Z.ltb_spec limit (timestamp b)); [reflexivity | lia]. }
  split.
  { intros Hok ts Hts. unfold check_block_timestamp_main. fold limit.
    destruct (Z.ltb_spec limit (timestamp b)); [lia |].
    fold W. fold offset. fold cur. rewrite Hts. reflexivity. }
  intros HW Hh Hcur Hfuel.
  assert (Hd : m_height s - offset = Z.min (m_height s) W).
  { unfold offset. destruct (Z.leb_spec (m_height s) W); lia. }
  destruct (main_chain_timestamps_terminates s
              (Z.to_nat (Z.min (m_height s) W)) fuel offset cur)
    as (ts & Hts & Hl).
  - unfold offset. destruct (Z.leb_spec (m_height s) W); lia.
  - lia.
  - lia.
  - lia.
  - lia.
  - exists ts. split; [exact Hts | lia].
Qed.

End TimestampRule.

Lemma check_block_timestamp_rule_witness :
  @check_block_timestamp_main Example.currency (Example.format_utils 0)
    Example.pool 10 Example.late_block (Example.chain1 0) = Some false
  /\ exists timestamps,
       @main_chain_timestamps (Example.format_utils 0) Example.pool 10
         (Example.chain1 0) 0
         (DB.begin DB.BLOCK_INDEX_PREFIX (Some 0) (m_db (Example.chain1 0)))
       = Some timestamps
       /\ Z.of_nat (length timestamps) = 1.
Proof.
  split.
  - destruct (@check_block_timestamp_rule Example.currency
                (Example.format_utils 0) Example.pool 10 Example.late_block
                (Example.chain1 0)) as (_ & _ & Hlate & _).
    apply Hlate. vm_compute. reflexivity.
  - destruct (@check_block_timestamp_rule Example.currency
                (Example.format_utils 0) Example.pool 10 Example.block1
                (Example.chain1 0)) as (_ & _ & _ & _ & Hloop).
    apply Hloop; vm_compute; repeat split; first [reflexivity | intros; discriminate].
Defined.

(** C6, as stated, on a chain of one block and a window of three: the
    block stamped one second after the future time limit fails the
    main-chain check although fewer than [TimestampWindow] timestamps
    exist; and the check of an alternative block passes it over a full
    window although it lies after the limit. *)
Lemma timestamp_rule_counterexample :
  m_height (Example.chain1 0) = 1
  /\ @timestampCheckWindow Example.currency (majorVersion Example.late_block) = 3
  /\ @check_block_timestamp_main Example.currency (Example.format_utils 0)
       Example.pool 10 Example.late_block (Example.chain1 0) = Some false
  /\ @time_now (Example.format_utils 0)
     + @blockFutureTimeLimit Example.currency (majorVersion Example.late_block)
     < timestamp Example.late_block
  /\ @check_block_timestamp Example.currency [10; 20; 30] Example.late_block = true.
Proof. vm_compute. repeat split; reflexivity. Qed.

(** ** The coinbase transaction *)

Section Coinbase.
Context `{Currency, Checkpoints, FormatUtils, InputChecks, TxPool}.

Lemma check_outs_overflow_from_sum (outs : list TransactionOutput) :
  forall money,
    is_u64 money ->
    Forall (fun o => is_u64 (amount o)) outs ->
    check_outs_overflow_from money outs = true ->
    fold_left (fun acc o => u64 (acc + amount o)) outs money
    = money + fold_right Z.add 0 (map amount outs)
    /\ is_u64 (money + fold_right Z.add 0 (map amount outs)).
Proof.
  induction outs as [| o outs IH]; intros money Hm Ho Hc; simpl.
  - split; [lia | rewrite Z.add_0_r; exact Hm].
  - inversion Ho as [| ? ? Ha Ho']; subst. simpl in Hc.
    destruct (Z.ltb_spec (u64 (amount o + money)) money) as [Hlt | Hge];
      [discriminate |].
    assert (Hsmall : is_u64 (money + amount o)).
    { unfold is_u64, u64 in *.
      destruct (Z.lt_ge_cases (amount o + money) (2 ^ 64)) as [Hs | Hbig]; [lia |].
      exfalso.
      assert (Hmod : (amount o + money) mod 2 ^ 64 = amount o + money - 2 ^ 64).
      { symmetry. apply (Z.mod_unique_pos _ _ 1); lia. }
      lia. }
    rewrite (u64_small _ Hsmall) in Hc |- *.
    destruct (IH (money + amount o) Hsmall Ho' Hc) as [Hf Hr].
    rewrite Hf. split; [lia |].
    replace (money + (amount o + fold_right Z.add 0 (map amount outs)))
      with (money + amount o + fold_right Z.add 0 (map amount outs)) by lia.
    exact Hr.
Qed.

Lemma prevalidate_overflow (b : Block) (h : Z) :
  prevalidate_miner_transaction b h = true ->
  check_outs_overflow (baseTransaction b) = true.
Proof.
  unfold prevalidate_miner_transaction. intros Hp.
  destruct (inputs (baseTransaction b)) as [| in0 [| ? ?]]; try discriminate.
  destruct (signatures (baseTransaction b)); try discriminate.
  destruct in0; try discriminate.
  destruct (negb (blockIndex i =? h)); try discriminate.
  destruct (negb (unlockTime (baseTransaction b) =? _)); try discriminate.
  destruct (check_outs_overflow (baseTransaction b)); [reflexivity | discriminate].
Qed.

(** What the overflow check of the prevalidation buys: the output amounts
    add up below 2^64. *)
Lemma prevalidate_no_overflow (b : Block) (h : Z) :
  prevalidate_miner_transaction b h = true ->
  Forall (fun o => is_u64 (amount o)) (outputs (baseTransaction b)) ->
  output_sum (baseTransaction b) < 2 ^ 64.
Proof.
  intros Hp Ho. apply prevalidate_overflow in Hp.
  destruct (check_outs_overflow_from_sum _ 0 ltac:(unfold is_u64; lia) Ho Hp)
    as [_ Hr].
  unfold output_sum, is_u64 in *. lia.
Qed.

Lemma fold_left_u64_sum (outs : list TransactionOutput) :
  forall money,
    0 <= money ->
    Forall (fun o => is_u64 (amount o)) outs ->
    money + fold_right Z.add 0 (map amount outs) < 2 ^ 64 ->
    fold_left (fun acc o => u64 (acc + amount o)) outs money
    = money + fold_right Z.add 0 (map amount outs).
Proof.
  induction outs as [| o outs IH]; intros money Hm Ho Hsum; simpl in *.
  - lia.
  - inversion Ho as [| ? ? Ha Ho']; subst.
    assert (Hnn : 0 <= fold_right Z.add 0 (map amount outs)).
    { clear -Ho'. induction Ho' as [| o' outs' Ho1 _ IH']; simpl; [lia |].
      unfold is_u64 in Ho1. lia. }
    unfold is_u64 in Ha.
    rewrite u64_small by (unfold is_u64; lia).
    rewrite IH; [lia | lia | exact Ho' | lia].
Qed.

Lemma minerReward_exact (t : Transaction) :
  Forall (fun o => is_u64 (amount o)) (outputs t) ->
  output_sum t < 2 ^ 64 ->
  minerReward_of (outputs t) = output_sum t.
Proof.
  intros Ho Hsum. unfold minerReward_of, output_sum in *.
  rewrite fold_left_u64_sum; [lia | lia | exact Ho | lia].
Qed.

(** C5. For a block whose coinbase outputs add up below 2^64 (what the
    overflow check of the prevalidation, run on every block pushed outside
    the checkpoint zone, ensures), the reward check succeeds exactly when
    the currency computes an allowed reward from the median of the last
    [RewardWindow] block sizes, the block size, the coins generated so far
    and the fees, and the sum of the coinbase output amounts equals that
    reward; a sum one unit above or below it, or differing from it by any
    amount, is rejected. *)
Theorem validate_miner_transaction_exact (b : Block)
    (height_ cumulativeBlockSize alreadyGeneratedCoins fee : Z) (s : Blockchain) :
  Forall (fun o => is_u64 (amount o)) (outputs (baseTransaction b)) ->
  output_sum (baseTransaction b) < 2 ^ 64 ->
  let median :=
    Common.medianValue (snd (get_last_n_blocks_sizes [] rewardBlocksWindow s)) in
  let allowed :=
    getBlockReward (getBlockMajorVersionForHeight height_) median
      cumulativeBlockSize alreadyGeneratedCoins fee in
  let result :=
    validate_miner_transaction b height_ cumulativeBlockSize
      alreadyGeneratedCoins fee s in
  (forall reward emissionChange,
      result = Some (reward, emissionChange)
      <-> allowed = Some (reward, emissionChange)
          /\ output_sum (baseTransaction b) = reward)
  /\ (forall reward emissionChange,
         allowed = Some (reward, emissionChange) ->
         output_sum (baseTransaction b) <> reward -> result = None)
  /\ (forall reward emissionChange,
         allowed = Some (reward, emissionChange) ->
         (output_sum (baseTransaction b) = reward + 1 -> result = None)
         /\ (output_sum (baseTransaction b) = reward - 1 -> result = None))
  /\ (allowed = None -> result = None).
Proof.
  intros Ho Hsum median allowed result.
  assert (Hres : result =
                 match allowed with
                 | None => None
                 | Some (reward, emissionChange) =>
                     if reward <? output_sum (baseTransaction b) then None
                     else if output_sum (baseTransaction b) <? reward then None
                     else Some (reward, emissionChange)
                 end).
  { unfold result, validate_miner_transaction.
    rewrite (minerReward_exact _ Ho Hsum). reflexivity. }
  assert (Hne : forall reward emissionChange,
             allowed = Some (reward, emissionChange) ->
             output_sum (baseTransaction b) <> reward -> result = None).
  { intros r e Ha Hd. rewrite Hres, Ha.
    destruct (Z.ltb_spec r (output_sum (baseTransaction b))); [reflexivity |].
    destruct (Z.ltb_spec (output_sum (baseTransaction b)) r); [reflexivity | lia]. }
  split.
  { intros r e. rewrite Hres. split.
    - destruct allowed as [[r' e'] |]; [| discriminate].
      destruct (Z.ltb_spec r' (output_sum (baseTransaction b))); [discriminate |].
      destruct (Z.ltb_spec (output_sum (baseTransaction b)) r'); [discriminate |].
      intros [= <- <-]. split; [reflexivity | lia].
    - intros [-> Hsum'].
      destruct (Z.ltb_spec r (output_sum (baseTransaction b))); [lia |].
      destruct (Z.ltb_spec (output_sum (baseTransaction b)) r); [lia | reflexivity]. }
  split; [exact Hne |].
  split.
  { intros r e Ha. split; intros Hs; apply (Hne r e Ha); lia. }
  intros Ha. rewrite Hres, Ha. reflexivity.
Qed.

(** The difficulty of an alternative block is computed from the state
    without changing it. *)
Lemma get_next_difficulty_for_alternative_chain_reads alt_chain bei s :
  match get_next_difficulty_for_alternative_chain alt_chain bei s with
  | Ret _ s' => s' = s
  | Throw _ s' => s' = s
  | Spin => False
  end.
Proof.
  unfold get_next_difficulty_for_alternative_chain, bind, get_state, ret, throw.
  destruct (_ <? _).
  - destruct (negb _); reflexivity.
  - destruct alt_chain; [reflexivity |]. destruct (_ =? 0); reflexivity.
Qed.

(** The walk towards the main chain keeps what it was given and adds the
    entry it starts from. *)
Lemma build_alt_chain_nonempty (a : list (Hash * BlockEntry)) :
  forall (fuel : nat) (alt_it : option (Hash * BlockEntry))
         (alt_chain : list (Hash * BlockEntry)) (timestamps : list Z) c t,
    build_alt_chain fuel a alt_it alt_chain timestamps = Some (c, t) ->
    (length alt_chain <= length c)%nat
    /\ (is_Some alt_it -> (length alt_chain < length c)%nat).
Proof.
  induction fuel as [| fuel IH]; intros alt_it alt_chain timestamps c t Hb.
  - destruct alt_it as [it |]; [discriminate |].
    injection Hb as <- <-. split; [lia | intros [? [=]]].
  - destruct alt_it as [it |]; simpl in Hb.
    + apply IH in Hb. destruct Hb as [Hle _]. simpl in Hle. split; [lia | intros _; lia].
    + injection Hb as <- <-. split; [lia | intros [? [=]]].
Qed.

Lemma alt_height_of_chain (b : Block) (s : Blockchain) (fuel : nat) c t :
  build_alt_chain fuel (m_alternative_chains s)
    (find (fun e => fst e =? previousBlockHash b) (m_alternative_chains s)) [] []
  = Some (c, t) ->
  u32 (match find (fun e => fst e =? previousBlockHash b) (m_alternative_chains s), c with
       | Some p, _ :: _ => height (snd p) + 1
       | _, _ => default 0 (getBlockHeight (previousBlockHash b) s) + 1
       end)
  = alternative_block_height b s.
Proof.
  intros Hb. unfold alternative_block_height.
  apply build_alt_chain_nonempty in Hb. destruct Hb as [_ Hne].
  destruct (find (fun e => fst e =? previousBlockHash b) (m_alternative_chains s))
    as [p |]; [| reflexivity].
  destruct c; [| reflexivity].
  specialize (Hne ltac:(eauto)). simpl in Hne. lia.
Qed.

(** C8 (amended). [prevalidate_miner_transaction] accepts a coinbase
    exactly when it has one input, a [BaseInput] whose [blockIndex] is the
    height, no signatures, an unlock time of the height plus the window of
    the block's version (one window below version 5, another from version
    5 on) and outputs that pass the overflow check. Outside the checkpoint
    zone [pushBlock] returns false, leaving the state as it found it, for
    every block whose coinbase fails this test at the current height; the
    only other way out is a timestamp loop that does not end.
    [handle_alternative_block] makes the test at the height it gives the
    block, one more than the height of its parent: a block whose coinbase
    fails it there is neither stored nor switched to, the state is the
    one the call started from whichever way it ends, and the call returns
    false, unless the parent is unknown: such a block is reported as an
    orphan before its coinbase is looked at. *)
Theorem prevalidate_miner_transaction_spec (fuel : nat) (b : Block) (height_ : Z)
    (transactions_ : list Transaction) (blockHash : Hash)
    (bvc : block_verification_context) (s : Blockchain) :
  (prevalidate_miner_transaction b height_ = true
   <-> (exists bi, inputs (baseTransaction b) = [InBase bi]
                   /\ blockIndex bi = height_)
       /\ signatures (baseTransaction b) = []
       /\ unlockTime (baseTransaction b)
          = u64 (height_ + (if majorVersion b <? BLOCK_MAJOR_VERSION_5
                            then minedMoneyUnlockWindow
                            else minedMoneyUnlockWindow_v1))
       /\ check_outs_overflow (baseTransaction b) = true)
  /\ (is_in_checkpoint_zone (m_height s) = false ->
      prevalidate_miner_transaction b (m_height s) = false ->
      match pushBlock_transactions fuel b transactions_ blockHash bvc s with
      | Ret (ok, _) s' => ok = false /\ s' = s
      | Throw _ _ => False
      | Spin => check_block_timestamp_main fuel b s = None
      end)
  /\ (prevalidate_miner_transaction b (alternative_block_height b s) = false ->
      forall switch_to_alternative_blockchain_ sendNewAlternativeBlockMessage,
        match handle_alternative_block_body switch_to_alternative_blockchain_
                fuel b blockHash bvc sendNewAlternativeBlockMessage s with
        | Ret (ok, bvc') s' =>
            s' = s
            /\ m_added_to_main_chain bvc' = m_added_to_main_chain bvc
            /\ m_switched_to_alt_chain bvc' = m_switched_to_alt_chain bvc
            /\ (ok = true ->
                bvc' = set_marked_as_orphaned bvc
                /\ getBlockHeight (previousBlockHash b) s = None
                /\ alt_find (previousBlockHash b) (m_alternative_chains s) = None)
        | Throw _ s' => s' = s
        | Spin => True
        end).
Proof.
  split.
  { unfold prevalidate_miner_transaction. split.
    - intros Hp.
      destruct (inputs (baseTransaction b)) as [| in0 [| ? ?]]; try discriminate.
      destruct (signatures (baseTransaction b)); try discriminate.
      destruct in0 as [bi | |]; try discriminate.
      destruct (Z.eqb_spec (blockIndex bi) height_); try discriminate.
      destruct (Z.eqb_spec (unlockTime (baseTransaction b))
                  (u64 (height_ + (if majorVersion b <? BLOCK_MAJOR_VERSION_5
                                   then minedMoneyUnlockWindow
                                   else minedMoneyUnlockWindow_v1))));
        try discriminate.
      destruct (check_outs_overflow (baseTransaction b)); try discriminate.
      repeat split; eauto.
    - intros [(bi & -> & Hbi) (-> & -> & ->)].
      rewrite <- Hbi, !Z.eqb_refl. reflexivity. }
  split.
  { intros Hzone Hpre.
    unfold pushBlock_transactions, bind, ret, get_state.
    destruct (negb (checkBlockVersion b)); [split; reflexivity |].
    destruct ((BLOCK_MAJOR_VERSION_5 <=? majorVersion b)
              && getMergeMiningTagFromExtra (extra (baseTransaction b)));
      [split; reflexivity |].
    destruct (negb (previousBlockHash b =? getTailId s)); [split; reflexivity |].
    unfold getCurrentBlockchainHeight. rewrite Hzone. simpl negb. cbv iota.
    unfold lift_option.
    destruct (check_block_timestamp_main fuel b s) as [[|] |]; simpl;
      [| split; reflexivity | reflexivity].
    destruct (getDifficultyForNextBlock s =? 0); [split; reflexivity |].
    destruct (negb (checkProofOfWork b (getDifficultyForNextBlock s)));
      [split; reflexivity |].
    rewrite Hpre. simpl. split; reflexivity. }
  intros Hpre sw send.
  assert (Hfalse : forall c : block_verification_context,
             m_added_to_main_chain c = m_added_to_main_chain bvc ->
             m_switched_to_alt_chain c = m_switched_to_alt_chain bvc ->
             s = s
             /\ m_added_to_main_chain c = m_added_to_main_chain bvc
             /\ m_switched_to_alt_chain c = m_switched_to_alt_chain bvc
             /\ (false = true ->
                 c = set_marked_as_orphaned bvc
                 /\ getBlockHeight (previousBlockHash b) s = None
                 /\ alt_find (previousBlockHash b) (m_alternative_chains s) = None)).
  { intros c Ha Hs. split; [reflexivity |]. split; [exact Ha |].
    split; [exact Hs | discriminate]. }
  unfold handle_alternative_block_body.
  destruct (get_block_height b =? 0); [unfold ret; cbv beta iota; apply Hfalse; reflexivity |].
  unfold bind at 1. unfold get_state at 1. cbv beta iota.
  destruct (negb (is_alternative_block_allowed _ _)); [unfold ret; cbv beta iota; apply Hfalse; reflexivity |].
  destruct (negb (checkBlockVersion b)); [unfold ret; cbv beta iota; apply Hfalse; reflexivity |].
  destruct (negb (checkCumulativeBlockSize _ _)); [unfold ret; cbv beta iota; apply Hfalse; reflexivity |].
  destruct (negb (bool_decide _ || bool_decide _)) eqn:Horphan.
  { cbn. split; [reflexivity |]. split; [reflexivity |]. split; [reflexivity |].
    intros _. split; [reflexivity |].
    apply negb_true_iff, orb_false_iff in Horphan. destruct Horphan as [Ha Hm].
    apply bool_decide_eq_false in Ha. apply bool_decide_eq_false in Hm.
    split.
    - destruct (getBlockHeight (previousBlockHash b) s); [| reflexivity].
      exfalso. apply Hm. eauto.
    - unfold alt_find.
      destruct (find (fun e => fst e =? previousBlockHash b) (m_alternative_chains s));
        [| reflexivity].
      exfalso. apply Ha. eauto. }
  clear Horphan.
  unfold bind at 1. unfold lift_option.
  destruct (build_alt_chain _ _ _ _ _) as [[alt_chain timestamps0] |] eqn:Hbuild;
    [| exact I].
  cbv beta iota.
  pose proof (alt_height_of_chain b s fuel alt_chain timestamps0 Hbuild) as Hheight.
  unfold bind at 1.
  lazymatch goal with
  | |- context [match ?m s with Ret _ _ => _ | Throw _ _ => _ | Spin => Spin end] =>
      assert (Hc : exists c, m s = Ret c s)
  end.
  { destruct alt_chain as [| front rest].
    - destruct (negb _); eexists; reflexivity.
    - destruct (negb _); [eexists; reflexivity |].
      destruct (DB.get _ _); [| eexists; reflexivity].
      destruct (negb _); eexists; reflexivity. }
  destruct Hc as [connected ->].
  destruct connected as [timestamps |]; [| cbn; apply Hfalse; reflexivity].
  destruct (negb (check_block_timestamp _ _)); [unfold ret; cbv beta iota; apply Hfalse; reflexivity |].
  cbn [height new_alt_entry]. rewrite Hheight.
  destruct (check_block _ _) as [checkpoint_ok is_a_checkpoint].
  destruct (negb checkpoint_ok); [unfold ret; cbv beta iota; apply Hfalse; reflexivity |].
  destruct (_ && _); [unfold ret; cbv beta iota; apply Hfalse; reflexivity |].
  unfold bind at 1.
  lazymatch goal with
  | |- context [get_next_difficulty_for_alternative_chain ?a ?e s] =>
      pose proof (get_next_difficulty_for_alternative_chain_reads a e s) as Hd;
      destruct (get_next_difficulty_for_alternative_chain a e s)
        as [current_diff sd | e' sd |]; [subst sd | exact Hd | exact I]
  end.
  destruct (current_diff =? 0); [unfold ret; cbv beta iota; apply Hfalse; reflexivity |].
  destruct (negb (checkProofOfWork _ _)); [unfold ret; cbv beta iota; apply Hfalse; reflexivity |].
  rewrite Hpre. cbn [negb]. unfold ret. cbv beta iota. apply Hfalse; reflexivity.
Qed.

End Coinbase.

Lemma validate_miner_transaction_exact_witness :
  Forall (fun o => is_u64 (amount o)) (outputs (baseTransaction Example.block1))
  /\ output_sum (baseTransaction Example.block1) = 50
  /\ @validate_miner_transaction Example.currency (Example.format_utils 0)
       Example.pool Example.block1 1 100 50 0 (Example.chain1 0) = Some (50, 50).
Proof.
  assert (Ho : Forall (fun o => is_u64 (amount o))
                 (outputs (baseTransaction Example.block1)))
    by (repeat constructor; unfold is_u64; simpl; lia).
  split; [exact Ho |].
  split; [reflexivity |].
  apply (@validate_miner_transaction_exact Example.currency
           (Example.format_utils 0) Example.pool Example.block1 1 100 50 0
           (Example.chain1 0) Ho).
  - vm_compute. reflexivity.
  - split; reflexivity.
Defined.

Lemma prevalidate_miner_transaction_spec_witness :
  match @pushBlock_transactions Example.currency Example.no_checkpoints
          (Example.format_utils 0) Example.input_checks Example.pool 10
          Example.odd_block [] (Example.block_hash Example.odd_block) bvc_init
          (Example.chain1 0) with
  | Ret (ok, _) s' => ok = false /\ s' = Example.chain1 0
  | Throw _ _ => False
  | Spin => True
  end
  /\ @alternative_block_height Example.pool Example.odd_block (Example.chain2 0) = 1
  /\ (forall sw send,
        match @handle_alternative_block_body Example.currency
                Example.no_checkpoints (Example.format_utils 0) Example.pool
                sw 10 Example.odd_block (Example.block_hash Example.odd_block)
                bvc_init send (Example.chain2 0) with
        | Ret (ok, _) s' => ok = false /\ s' = Example.chain2 0
        | Throw _ s' => s' = Example.chain2 0
        | Spin => True
        end).
Proof.
  destruct (@prevalidate_miner_transaction_spec Example.currency
              Example.no_checkpoints (Example.format_utils 0)
              Example.input_checks Example.pool 10 Example.odd_block 1 []
              (Example.block_hash Example.odd_block) bvc_init
              (Example.chain1 0)) as [_ [Hmain _]].
  destruct (@prevalidate_miner_transaction_spec Example.currency
              Example.no_checkpoints (Example.format_utils 0)
              Example.input_checks Example.pool 10 Example.odd_block 1 []
              (Example.block_hash Example.odd_block) bvc_init
              (Example.chain2 0)) as [_ [_ Halt]].
  split; [| split].
  - specialize (Hmain eq_refl eq_refl).
    destruct (pushBlock_transactions _ _ _ _ _ _) as [[ok c] s' | e s' |];
      [exact Hmain | exact Hmain | exact I].
  - vm_compute. reflexivity.
  - intros sw send.
    specialize (Halt ltac:(vm_compute; reflexivity) sw send).
    destruct (handle_alternative_block_body _ _ _ _ _ _ _) as [[r c] s' | e s' |];
      [| exact Halt | exact I].
    destruct Halt as (Hs & _ & _ & Hok). split; [| exact Hs].
    destruct r; [| reflexivity].
    destruct (Hok eq_refl) as (_ & Hmain' & _).
    apply (f_equal (fun o => match o with Some _ => true | None => false end)) in Hmain'.
    vm_compute in Hmain'. discriminate Hmain'.
Defined.

(** C8, as stated, inside the checkpoint zone: the block is added to the
    main chain although its coinbase has two inputs and a signature and
    unlocks at once. *)
Lemma prevalidate_checkpoint_zone_counterexample :
  @prevalidate_miner_transaction Example.currency Example.odd_block 1 = false
  /\ (exists s',
        Example.ingest_in_zone Example.odd_block Example.zone1
        = Ret (true, set_added_to_main_chain true bvc_init) s'
        /\ DB.get (DB.BLOCK_INDEX_PREFIX, 1) (m_db s')
           = Some (DB.VHash (Example.block_hash Example.odd_block))).
Proof.
  split; [reflexivity |].
  eexists. split; [vm_compute; reflexivity | vm_compute; reflexivity].
Qed.

(** ** The store *)

Lemma rank_inj p q : DB.rank p = DB.rank q -> p = q.
Proof. destruct p, q; simpl; intros Hr; try reflexivity; discriminate. Qed.

Lemma key_eqb_eq (a b : DB.Key) : DB.key_eqb a b = true <-> a = b.
Proof.
  destruct a as [p x], b as [q y]. unfold DB.key_eqb. simpl.
  rewrite andb_true_iff, !Z.eqb_eq. split.
  - intros [Hr ->]. apply rank_inj in Hr. congruence.
  - intros [= -> ->]. split; reflexivity.
Qed.

Lemma key_eqb_refl (a : DB.Key) : DB.key_eqb a a = true.
Proof. apply key_eqb_eq. reflexivity. Qed.

Lemma key_eqb_neq (a b : DB.Key) : a <> b -> DB.key_eqb a b = false.
Proof.
  intros Hne. destruct (DB.key_eqb a b) eqn:He; [| reflexivity].
  apply key_eqb_eq in He. contradiction.
Qed.

Lemma key_ltb_irrefl_eq (a b : DB.Key) : DB.key_ltb a b = true -> a <> b.
Proof.
  destruct a as [p x], b as [q y]. unfold DB.key_ltb. simpl.
  intros Hl [= -> ->].
  rewrite Z.ltb_irrefl, Z.eqb_refl, Z.ltb_irrefl in Hl. discriminate.
Qed.

Lemma get_insert_eq k v db : DB.get k (DB.insert k v db) = Some v.
Proof.
  induction db as [| [k' v'] db IH]; simpl.
  - rewrite key_eqb_refl. reflexivity.
  - destruct (DB.key_ltb k k') eqn:Hl; simpl.
    + rewrite key_eqb_refl. reflexivity.
    + destruct (DB.key_eqb k k') eqn:He; simpl.
      * rewrite key_eqb_refl. reflexivity.
      * rewrite He. exact IH.
Qed.

Lemma get_insert_ne k0 k v db : k0 <> k -> DB.get k0 (DB.insert k v db) = DB.get k0 db.
Proof.
  intros Hne. induction db as [| [k' v'] db IH]; simpl.
  - rewrite (key_eqb_neq _ _ Hne). reflexivity.
  - destruct (DB.key_ltb k k') eqn:Hl; simpl.
    + rewrite (key_eqb_neq _ _ Hne). reflexivity.
    + destruct (DB.key_eqb k k') eqn:He; simpl.
      * apply key_eqb_eq in He. subst k'.
        rewrite !(key_eqb_neq _ _ Hne). reflexivity.
      * destruct (DB.key_eqb k0 k'); [reflexivity | exact IH].
Qed.

Lemma get_remove_ne k0 k db : k0 <> k -> DB.get k0 (DB.remove k db) = DB.get k0 db.
Proof.
  intros Hne. induction db as [| [k' v'] db IH]; simpl; [reflexivity |].
  destruct (DB.key_eqb k k') eqn:He; simpl.
  - apply key_eqb_eq in He. subst k'. rewrite (key_eqb_neq _ _ Hne). exact IH.
  - destruct (DB.key_eqb k0 k'); [reflexivity | exact IH].
Qed.

Lemma get_remove_eq k db : DB.get k (DB.remove k db) = None.
Proof.
  induction db as [| [k' v'] db IH]; simpl; [reflexivity |].
  destruct (DB.key_eqb k k') eqn:He; simpl; [exact IH |].
  rewrite He. exact IH.
Qed.

Lemma put_get_ne k0 k v b db db' :
  DB.put k v b db = Some db' -> k0 <> k -> DB.get k0 db' = DB.get k0 db.
Proof.
  unfold DB.put. intros Hp Hne.
  destruct (DB.get k db); [destruct b; [discriminate |] |];
    injection Hp as <-; apply get_insert_ne; exact Hne.
Qed.

Lemma del_get_ne k0 k b db db' :
  DB.del k b db = Some db' -> k0 <> k -> DB.get k0 db' = DB.get k0 db.
Proof.
  unfold DB.del. intros Hd Hne.
  destruct (DB.get k db).
  - injection Hd as <-. apply get_remove_ne. exact Hne.
  - destruct b; [discriminate |]. injection Hd as <-. reflexivity.
Qed.

(** A creation-only [put] on a key that is present throws and writes
    nothing. *)
Lemma put_nooverwrite_present k v db w :
  DB.get k db = Some w -> DB.put k v true db = None.
Proof. unfold DB.put. intros ->. reflexivity. Qed.

(** ** Composition rules *)

Section Rules.
Context {S : Type}.

Lemma keeps_ret {A B} (f : S -> B) (a : A) : keeps f (ret a).
Proof. intros s. reflexivity. Qed.

Lemma keeps_throw {A B} (f : S -> B) (e : exn) : keeps f (@throw S A e).
Proof. intros s. reflexivity. Qed.

Lemma keeps_get_state {B} (f : S -> B) : keeps f get_state.
Proof. intros s. reflexivity. Qed.

Lemma keeps_bind {A A' B} (f : S -> B) (m : M S A) (k : A -> M S A') :
  keeps f m -> (forall a, keeps f (k a)) -> keeps f (bind m k).
Proof.
  intros Hm Hk s. unfold bind. specialize (Hm s).
  destruct (m s) as [a s' | e s' |]; [| exact Hm | exact Hm].
  specialize (Hk a s'). destruct (k a s'); congruence.
Qed.

Lemma keeps_try_catch {A B} (f : S -> B) (m h : M S A) :
  keeps f m -> keeps f h -> keeps f (try_catch_runtime_error m h).
Proof.
  intros Hm Hh s. unfold try_catch_runtime_error. specialize (Hm s).
  destruct (m s) as [a s' | e s' |]; [exact Hm | | exact Hm].
  destruct e; try exact Hm.
  specialize (Hh s'). destruct (h s'); congruence.
Qed.

Lemma keeps_modify {B} (f : S -> B) (g : S -> S) :
  (forall s, f (g s) = f s) -> keeps f (modify g).
Proof. intros Hg s. simpl. apply Hg. Qed.

Lemma invariant_ret {A} (P : S -> Prop) (a : A) : invariant P (ret a).
Proof. intros s Hs. exact Hs. Qed.

Lemma invariant_throw {A} (P : S -> Prop) (e : exn) : invariant P (@throw S A e).
Proof. intros s Hs. exact Hs. Qed.

Lemma invariant_bind {A A'} (P : S -> Prop) (m : M S A) (k : A -> M S A') :
  invariant P m -> (forall a, invariant P (k a)) -> invariant P (bind m k).
Proof.
  intros Hm Hk s Hs. unfold bind. specialize (Hm s Hs).
  destruct (m s) as [a s' | e s' |]; [| exact Hm | exact I].
  exact (Hk a s' Hm).
Qed.

Lemma invariant_try_catch {A} (P : S -> Prop) (m h : M S A) :
  invariant P m -> invariant P h -> invariant P (try_catch_runtime_error m h).
Proof.
  intros Hm Hh s Hs. unfold try_catch_runtime_error. specialize (Hm s Hs).
  destruct (m s) as [a s' | e s' |]; [exact Hm | | exact I].
  destruct e; try exact Hm. exact (Hh s' Hm).
Qed.

Lemma invariant_modify (P : S -> Prop) (g : S -> S) :
  (forall s, P s -> P (g s)) -> invariant P (modify g).
Proof. intros Hg s Hs. simpl. apply Hg, Hs. Qed.

Lemma triple_bind {A A'} (P : S -> Prop) (m : M S A) (k : A -> M S A')
    (Q : A -> S -> Prop) (R : A' -> S -> Prop) (X : S -> Prop) :
  triple P m Q X -> (forall a, triple (Q a) (k a) R X) -> triple P (bind m k) R X.
Proof.
  intros Hm Hk s Hs. unfold bind. specialize (Hm s Hs).
  destruct (m s) as [a s' | e s' |]; [| exact Hm | exact I].
  exact (Hk a s' Hm).
Qed.

Lemma invariant_triple {A} (P : S -> Prop) (m : M S A) :
  invariant P m <-> triple P m (fun _ => P) P.
Proof. reflexivity. Qed.

End Rules.

(** ** Popping a block *)

Section Pop.
Context `{Currency, Checkpoints, FormatUtils, InputChecks, TxPool}.

Lemma keeps_db_get {B} (f : Blockchain -> B) k : keeps f (db_get k).
Proof. intros s. reflexivity. Qed.

Lemma keeps_db_put_any {B} (f : Blockchain -> B) k v b :
  (forall db s, f (with_db db s) = f s) -> keeps f (db_put k v b).
Proof.
  intros Hf s. unfold db_put. destruct (DB.put k v b (m_db s)); [apply Hf | reflexivity].
Qed.

Lemma keeps_db_del_any {B} (f : Blockchain -> B) k b :
  (forall db s, f (with_db db s) = f s) -> keeps f (db_del k b).
Proof.
  intros Hf s. unfold db_del. destruct (DB.del k b (m_db s)); [apply Hf | reflexivity].
Qed.

Lemma keeps_db_put_other k0 k v b :
  k0 <> k -> keeps (fun s => DB.get k0 (m_db s)) (db_put k v b).
Proof.
  intros Hne s. unfold db_put.
  destruct (DB.put k v b (m_db s)) as [db' |] eqn:Hp; [| reflexivity].
  simpl. eapply put_get_ne; eauto.
Qed.

Lemma keeps_db_del_other k0 k b :
  k0 <> k -> keeps (fun s => DB.get k0 (m_db s)) (db_del k b).
Proof.
  intros Hne s. unfold db_del.
  destruct (DB.del k b (m_db s)) as [db' |] eqn:Hp; [| reflexivity].
  simpl. eapply del_get_ne; eauto.
Qed.

Lemma frame_m_height : frame m_height.
Proof.
  repeat split; intros.
  - apply keeps_db_put_any. reflexivity.
  - apply keeps_db_del_any. reflexivity.
Qed.

Lemma frame_height_index (h : Z) :
  frame (fun s => DB.get (DB.BLOCK_INDEX_PREFIX, h) (m_db s)).
Proof.
  repeat split; intros.
  - apply keeps_db_put_other. intros Heq. subst k. simpl in *. congruence.
  - apply keeps_db_del_other. intros Heq. subst k. simpl in *. congruence.
Qed.

Ltac keeps_step :=
  first
    [ apply keeps_ret
    | apply keeps_throw
    | apply keeps_get_state
    | apply keeps_db_get
    | apply keeps_try_catch
    | apply keeps_bind; [| intros ?]
    | match goal with
      | Hf : frame ?f |- keeps ?f (db_put _ _ _) =>
          apply (proj1 Hf); simpl; discriminate
      | Hf : frame ?f |- keeps ?f (db_del _ _) =>
          apply (proj1 (proj2 Hf)); simpl; discriminate
      | |- keeps _ (match ?x with _ => _ end) => destruct x
      | |- keeps _ (if ?c then _ else _) => destruct c
      end ].

Lemma keeps_getTransactionIndex {B} (f : Blockchain -> B) h :
  keeps f (getTransactionIndex h).
Proof. unfold getTransactionIndex. repeat keeps_step. Qed.

Lemma keeps_pop_outputs {B} (f : Blockchain -> B) ti outs :
  frame f -> forall pos, keeps f (pop_outputs ti pos outs).
Proof.
  intros Hf. induction outs as [| o outs IH]; intros pos; simpl.
  - apply keeps_ret.
  - pose proof (IH (pos - 1)) as IH'.
    repeat (first [exact IH' | keeps_step]).
Qed.

Lemma keeps_pop_inputs {B} (f : Blockchain -> B) ins :
  frame f -> keeps f (pop_inputs ins).
Proof.
  intros Hf. induction ins as [| i ins IH]; simpl.
  - apply keeps_ret.
  - repeat (first [exact IH | keeps_step]).
Qed.

Lemma keeps_popTransaction {B} (f : Blockchain -> B) t h :
  frame f -> keeps f (popTransaction t h).
Proof.
  intros Hf. unfold popTransaction.
  repeat (first [ apply keeps_getTransactionIndex
                | apply keeps_pop_outputs; exact Hf
                | apply keeps_pop_inputs; exact Hf
                | keeps_step ]).
Qed.

Lemma keeps_pop_block_transactions {B} (f : Blockchain -> B) b :
  frame f -> forall k, keeps f (pop_block_transactions k b).
Proof.
  intros Hf. induction k as [| k IH]; simpl.
  - apply keeps_ret.
  - repeat (first [exact IH | apply keeps_popTransaction; exact Hf | keeps_step]).
Qed.

Lemma keeps_popTransactions {B} (f : Blockchain -> B) b h :
  frame f -> keeps f (popTransactions b h).
Proof.
  intros Hf. unfold popTransactions.
  repeat (first [ apply keeps_pop_block_transactions; exact Hf
                | apply keeps_popTransaction; exact Hf
                | keeps_step ]).
Qed.

Lemma keeps_integer_cast_u32 {B} (f : Blockchain -> B) x :
  keeps f (integer_cast_u32 x).
Proof.
  intros s. unfold integer_cast_u32. destruct (x <=? 2 ^ 32 - 1); reflexivity.
Qed.

Lemma keeps_m_height_removeLastBlock : keeps m_height removeLastBlock.
Proof.
  pose proof frame_m_height as Hf.
  unfold removeLastBlock.
  apply keeps_bind; [apply keeps_get_state | intros s0].
  destruct (DB.cur_end _); [apply keeps_ret |].
  apply keeps_bind; [apply keeps_integer_cast_u32 | intros suffix].
  apply keeps_bind; [apply keeps_popTransactions; exact Hf | intros _].
  apply keeps_bind; [keeps_step | intros _].
  apply keeps_bind; [apply keeps_modify; intros; reflexivity | intros _].
  apply keeps_bind; [keeps_step | intros _].
  apply keeps_bind; [keeps_step | intros _].
  apply keeps_bind; [apply keeps_db_del_any; reflexivity | intros _].
  intros s. reflexivity.
Qed.

Lemma u32_succ_neq (h : Z) : u32 (h + 1) <> h.
Proof.
  unfold u32. intros Heq.
  pose proof (Z.mod_pos_bound (h + 1) (2 ^ 32) ltac:(lia)) as Hb.
  rewrite Heq in Hb.
  destruct (Z.eq_dec h (2 ^ 32 - 1)) as [-> | Hne].
  - vm_compute in Heq. discriminate.
  - rewrite Z.mod_small in Heq by lia. lia.
Qed.

(** The entry of the height index under which the tip is filed survives
    [removeLastBlock]: the deletion goes to the height above it. *)
Lemma keeps_height_index_removeLastBlock (s : Blockchain) :
  let h := DB.get_suffix (DB.rbegin DB.BLOCK_INDEX_PREFIX None (m_db s)) in
  match removeLastBlock s with
  | Ret _ s' => DB.get (DB.BLOCK_INDEX_PREFIX, h) (m_db s')
                = DB.get (DB.BLOCK_INDEX_PREFIX, h) (m_db s)
  | Throw _ s' => DB.get (DB.BLOCK_INDEX_PREFIX, h) (m_db s')
                  = DB.get (DB.BLOCK_INDEX_PREFIX, h) (m_db s)
  | Spin => False
  end.
Proof.
  intros h.
  pose proof (frame_height_index h) as Hf.
  unfold removeLastBlock. unfold bind at 1. unfold get_state at 1. cbv beta iota.
  destruct (DB.cur_end _); [reflexivity |].
  fold h.
  unfold bind at 1, integer_cast_u32.
  destruct (h <=? 2 ^ 32 - 1); [unfold ret at 1; cbv beta iota | reflexivity].
  lazymatch goal with
  | |- match ?m s with _ => _ end =>
      assert (Hk : keeps (fun s => DB.get (DB.BLOCK_INDEX_PREFIX, h) (m_db s)) m);
        [| exact (Hk s)]
  end.
  apply keeps_bind; [apply keeps_popTransactions; exact Hf | intros _].
  apply keeps_bind; [keeps_step | intros _].
  apply keeps_bind; [apply keeps_modify; intros; reflexivity | intros _].
  apply keeps_bind; [keeps_step | intros _].
  apply keeps_bind; [keeps_step | intros _].
  apply keeps_bind.
  - apply keeps_db_del_other. intros [= Heq]. symmetry in Heq.
    exact (u32_succ_neq h Heq).
  - intros _ s2. reflexivity.
Qed.

Lemma keeps_m_height_popBlock : keeps m_height popBlock.
Proof.
  unfold popBlock.
  apply keeps_bind; [apply keeps_get_state | intros s0].
  destruct (DB.cur_end _); [apply keeps_ret |].
  destruct (transactions _); [apply keeps_throw |].
  apply keeps_bind; [apply keeps_modify; intros; reflexivity | intros _].
  apply keeps_m_height_removeLastBlock.
Qed.

(** A loop that pops until the cached height reaches a target above
    which it starts never returns. *)
Lemma rollbackBlockchainTo_never_returns (target : Z) :
  forall (fuel : nat) (s : Blockchain),
    u32 (target + 1) < m_height s ->
    match rollbackBlockchainTo fuel target s with
    | Ret _ _ => False
    | Throw _ s' => m_height s' = m_height s
    | Spin => True
    end.
Proof.
  induction fuel as [| fuel IH]; intros s Hlt; simpl;
    unfold bind at 1; unfold get_state at 1; cbv beta iota;
    destruct (Z.ltb_spec (u32 (target + 1)) (m_height s)) as [_ | Hge];
    try (exfalso; lia).
  - exact I.
  - unfold bind. pose proof (keeps_m_height_removeLastBlock s) as Hk.
    destruct (removeLastBlock s) as [[] s' | e s' |]; [| exact Hk | exact I].
    assert (Hlt' : u32 (target + 1) < m_height s') by lia.
    specialize (IH s' Hlt').
    destruct (rollbackBlockchainTo fuel target s') as [[] s'' | e s'' |];
      [exact IH | lia | exact I].
Qed.

End Pop.

(** C3. Popping the tip leaves the reported height where it was:
    [removeLastBlock] stores [temp_height--], the value before the
    decrement, when it gets that far, and [popBlock] ends in it. A loop
    that pops until the height comes down to a target
    ([rollbackBlockchainTo]) therefore never returns. On the two-block
    chain of the example the pop ends in the exception of the store, the
    height still 2. *)
Theorem removeLastBlock_keeps_height :
  (forall `{Currency, Checkpoints, FormatUtils, InputChecks, TxPool}
          (s : Blockchain),
      match removeLastBlock s with
      | Ret _ s' => getCurrentBlockchainHeight s' = getCurrentBlockchainHeight s
      | Throw _ s' => getCurrentBlockchainHeight s' = getCurrentBlockchainHeight s
      | Spin => False
      end
      /\ match popBlock s with
         | Ret _ s' => getCurrentBlockchainHeight s' = getCurrentBlockchainHeight s
         | Throw _ s' => getCurrentBlockchainHeight s' = getCurrentBlockchainHeight s
         | Spin => False
         end
      /\ forall (fuel : nat) (target : Z),
           u32 (target + 1) < m_height s ->
           match rollbackBlockchainTo fuel target s with
           | Ret _ _ => False
           | Throw _ s' => m_height s' = m_height s
           | Spin => True
           end)
  /\ m_height (Example.chain2 0) = 2
  /\ (exists s',
        @popBlock (Example.format_utils 0) Example.pool (Example.chain2 0)
        = Throw runtime_error s'
        /\ m_height s' = 2)
  /\ (exists s',
        @rollbackBlockchainTo (Example.format_utils 0) Example.pool 5 0
          (Example.chain2 0)
        = Throw runtime_error s'
        /\ m_height s' = 2).
Proof.
  split.
  { intros C K F I P s. split; [| split].
    - exact (keeps_m_height_removeLastBlock s).
    - exact (keeps_m_height_popBlock s).
    - intros fuel target. apply rollbackBlockchainTo_never_returns. }
  split; [reflexivity |].
  split; eexists; split; vm_compute; reflexivity.
Qed.

(** C2. After [pushBlock] and the pop of that block the store is not what
    it was. In general the entry of the height index under which the tip
    is filed survives [removeLastBlock], whose deletion goes to the height
    above. On the example, pushing [block1] on genesis and popping it
    leaves "b/1" and "g/1", absent before, in the store, leaves the list
    under "o/50" one element longer, and ends in the exception that the
    deletion of "b/2" raises. *)
Theorem push_pop_not_restored :
  (forall `{Currency, Checkpoints, FormatUtils, InputChecks, TxPool}
          (s : Blockchain),
      let h := DB.get_suffix (DB.rbegin DB.BLOCK_INDEX_PREFIX None (m_db s)) in
      match removeLastBlock s with
      | Ret _ s' => DB.get (DB.BLOCK_INDEX_PREFIX, h) (m_db s')
                    = DB.get (DB.BLOCK_INDEX_PREFIX, h) (m_db s)
      | Throw _ s' => DB.get (DB.BLOCK_INDEX_PREFIX, h) (m_db s')
                      = DB.get (DB.BLOCK_INDEX_PREFIX, h) (m_db s)
      | Spin => False
      end)
  /\ (let before := Example.chain1 0 in
      let pushed := Example.ingest 0 Example.block1 before in
      let popped :=
        @popBlock (Example.format_utils 0) Example.pool (Example.after pushed) in
      (exists s1, pushed = Ret (true, set_added_to_main_chain true bvc_init) s1)
      /\ (exists s2, popped = Throw runtime_error s2)
      /\ DB.get (DB.BLOCK_INDEX_PREFIX, 1) (m_db before) = None
      /\ DB.get (DB.BLOCK_INDEX_PREFIX, 1) (m_db (Example.after popped))
         = Some (DB.VHash (Example.block_hash Example.block1))
      /\ DB.get (DB.GENERATED_TRANSACTIONS_INDEX_PREFIX, 1) (m_db before) = None
      /\ DB.get (DB.GENERATED_TRANSACTIONS_INDEX_PREFIX, 1)
           (m_db (Example.after popped)) = Some (DB.VVarint 1)
      /\ DB.get (DB.OUTPUTS_INDEX_PREFIX, 50) (m_db before)
         = Some (DB.VOutputsEntry [({| block := 0; transaction := 0 |}, 0)])
      /\ DB.get (DB.OUTPUTS_INDEX_PREFIX, 50) (m_db (Example.after popped))
         = Some (DB.VOutputsEntry [({| block := 0; transaction := 0 |}, 0);
                                   ({| block := 1; transaction := 0 |}, 0)])).
Proof.
  split.
  { intros C K F I P s. exact (keeps_height_index_removeLastBlock s). }
  cbv zeta.
  split; [eexists; vm_compute; reflexivity |].
  split; [eexists; vm_compute; reflexivity |].
  repeat split; vm_compute; reflexivity.
Qed.

(** ** Ingesting a known block *)

Section Ingest.
Context `{Currency, Checkpoints, FormatUtils, InputChecks, TxPool}.

Lemma haveBlock_iff (id : Hash) (s : Blockchain) :
  haveBlock id s = true
  <-> is_Some (DB.get (DB.BLOCK_PREFIX, id) (m_db s))
      \/ is_Some (alt_find id (m_alternative_chains s)).
Proof.
  unfold haveBlock.
  destruct (DB.get (DB.BLOCK_PREFIX, id) (m_db s)) as [v |].
  - split; [intros _; left; eauto | reflexivity].
  - destruct (alt_find id (m_alternative_chains s)) as [e |].
    + split; [intros _; right; eauto | reflexivity].
    + split; [discriminate | intros [[? Hx] | [? Hx]]; discriminate].
Qed.

(** C7. When the hash of the block is that of a block record of the main
    chain or of an entry of the alternative-chain map, [addNewBlock]
    returns false with only the already-exists flag raised (not added, not
    failed, not orphaned) and the whole state (store, alternative chains,
    height, pool, messages, notifications) is the one it started from. *)
Theorem addNewBlock_already_exists (fuel : nat) (b : Block) (id : Hash)
    (bvc : block_verification_context) (s : Blockchain) :
  get_block_hash b = Some id ->
  is_Some (DB.get (DB.BLOCK_PREFIX, id) (m_db s))
  \/ is_Some (alt_find id (m_alternative_chains s)) ->
  addNewBlock fuel b bvc s = Ret (false, set_already_exists bvc) s
  /\ set_already_exists bvc_init
     = {| m_added_to_main_chain := false; m_verification_failed := false;
          m_marked_as_orphaned := false; m_already_exists := true;
          m_switched_to_alt_chain := false |}.
Proof.
  intros Hid Hhave. apply haveBlock_iff in Hhave.
  split; [| reflexivity].
  unfold addNewBlock. rewrite Hid.
  unfold bind, get_state, ret. rewrite Hhave. reflexivity.
Qed.

End Ingest.

Lemma addNewBlock_already_exists_witness :
  Example.ingest 0 Example.genesis (Example.chain1 0)
  = Ret (false, set_already_exists bvc_init) (Example.chain1 0).
Proof.
  apply (@addNewBlock_already_exists Example.currency Example.no_checkpoints
           (Example.format_utils 0) Example.input_checks Example.pool
           10 Example.genesis (Example.block_hash Example.genesis)
           bvc_init (Example.chain1 0)).
  - reflexivity.
  - left. vm_compute. eexists. reflexivity.
Defined.

(** ** Arbitration between the main chain and an alternative *)

(** C4. The value an alternative's cumulative difficulty is compared with
    is not the main tip's: the tip's entry of the height index, a hash, is
    deserialised as a block entry, which fails and leaves the local as it
    was. On the example the main tip has cumulative difficulty 2. When the
    unassigned local reads 0, the alternative block [alt1], cumulative
    difficulty 2 as well, starts a reorganisation (the tip's block record
    is gone when the pop fails). When it reads 2^64-1, the alternative
    [alt2] of cumulative difficulty 3 is kept as an alternative and the
    main chain stays. *)
Theorem alternative_arbitration_ignores_main_tip :
  (cumulative_difficulty
     <$> @getBlockEntryByHeight Example.pool 1 (Example.chain2 0)) = Some 2
  /\ (exists s',
        Example.ingest 0 Example.alt1 (Example.chain2 0) = Throw runtime_error s'
        /\ (cumulative_difficulty
              <$> alt_find (Example.block_hash Example.alt1)
                    (m_alternative_chains s')) = Some 2
        /\ DB.get (DB.BLOCK_PREFIX, Example.block_hash Example.block1) (m_db s')
           = None)
  /\ (let g := 2 ^ 64 - 1 in
      let s1 := Example.after (Example.ingest g Example.alt1 (Example.chain2 g)) in
      exists s',
        Example.ingest g Example.alt2 s1 = Ret (true, bvc_init) s'
        /\ (cumulative_difficulty
              <$> alt_find (Example.block_hash Example.alt2)
                    (m_alternative_chains s')) = Some 3
        /\ (cumulative_difficulty
              <$> @getBlockEntryByHeight Example.pool 1 s') = Some 2
        /\ m_db s' = m_db (Example.chain2 g)
        /\ m_messages s'
           = NewAlternativeBlockMessage (Example.block_hash Example.alt2)
               :: m_messages s1).
Proof.
  split; [vm_compute; reflexivity |].
  split.
  - eexists. split; [vm_compute; reflexivity |].
    split; vm_compute; reflexivity.
  - cbv zeta. eexists. split; [vm_compute; reflexivity |].
    repeat split; vm_compute; reflexivity.
Qed.

(** ** Key images *)

Section KeyImages.
Context `{Currency, Checkpoints, FormatUtils, InputChecks, TxPool}.
Variable K : KeyImage.

Local Abbreviation P := (spent_outside_zone K).
Local Open Scope engine_scope.

Lemma checkIfSpent_with_db (db : DB.t) (s : Blockchain) :
  checkIfSpent K (with_db db s)
  = match DB.get (DB.SPENT_KEY_IMAGES_INDEX_PREFIX, K) db with
    | Some _ => true
    | None => false
    end.
Proof. reflexivity. Qed.

Lemma invariant_db_get k : invariant P (db_get k).
Proof. intros s Hs. exact Hs. Qed.

(** No [put] takes a key image out of the index. *)
Lemma invariant_db_put k v b : invariant P (db_put k v b).
Proof.
  intros s [Hspent Hzone]. unfold db_put.
  destruct (DB.put k v b (m_db s)) as [db' |] eqn:Hput; [| split; assumption].
  split; [| exact Hzone].
  rewrite checkIfSpent_with_db.
  destruct (DB.key_eqb (DB.SPENT_KEY_IMAGES_INDEX_PREFIX, K) k) eqn:He;
    [apply key_eqb_eq in He; subst k
    | assert (Hne : (DB.SPENT_KEY_IMAGES_INDEX_PREFIX, K) <> k)
        by (intros Heq; apply key_eqb_eq in Heq; congruence)].
  - unfold DB.put in Hput.
    destruct (DB.get _ (m_db s)); [destruct b; [discriminate |] |];
      injection Hput as <-; rewrite get_insert_eq; reflexivity.
  - rewrite (put_get_ne _ _ _ _ _ _ Hput Hne). exact Hspent.
Qed.

Lemma invariant_db_del k b :
  k <> (DB.SPENT_KEY_IMAGES_INDEX_PREFIX, K) -> invariant P (db_del k b).
Proof.
  intros Hne s [Hspent Hzone]. unfold db_del.
  destruct (DB.del k b (m_db s)) as [db' |] eqn:Hdel; [| split; assumption].
  split; [| exact Hzone].
  rewrite checkIfSpent_with_db.
  rewrite (del_get_ne _ _ _ _ _ Hdel (not_eq_sym Hne)). exact Hspent.
Qed.

Ltac inv_step :=
  first
    [ apply invariant_ret
    | apply invariant_throw
    | apply invariant_db_get
    | apply invariant_db_put
    | apply invariant_db_del; discriminate
    | apply invariant_try_catch
    | apply invariant_bind; [| intros ?]
    | match goal with
      | |- invariant _ (match ?x with _ => _ end) => destruct x
      | |- invariant _ (if ?c then _ else _) => destruct c
      | |- invariant _ (fun _ => Spin) => intros ? ?; exact I
      end ].

Lemma invariant_erase_key_images (prev : list TransactionInput) :
  (forall k, In (InKey k) prev -> keyImage k <> K) ->
  invariant P (erase_key_images prev).
Proof.
  induction prev as [| i prev IH]; intros Hprev; simpl.
  - apply invariant_ret.
  - destruct i as [bi | k | mi]; try apply invariant_throw.
    apply invariant_bind.
    + apply invariant_db_del. intros [= Heq].
      exact (Hprev k (or_introl eq_refl) Heq).
    + intros _. apply IH. intros k' Hin. apply Hprev. right. exact Hin.
Qed.

(** A creation-only insertion of a key image that went through was not
    that of [K], which is already there. *)
Lemma triple_put_key_image (k : KeyInput) (v : DB.Value) (handler : E bool) :
  triple P handler (fun ok s => P s /\ ok = false) P ->
  triple P
    (try_catch_runtime_error
       (db_put (DB.SPENT_KEY_IMAGES_INDEX_PREFIX, keyImage k) v true ;; ret true)
       handler)
    (fun ok s => P s /\ (ok = true -> keyImage k <> K)) P.
Proof.
  intros Hh s Hs. unfold try_catch_runtime_error, bind, db_put, ret.
  destruct (DB.put _ v true (m_db s)) as [db' |] eqn:Hput.
  - pose proof (invariant_db_put (DB.SPENT_KEY_IMAGES_INDEX_PREFIX, keyImage k)
                  v true s Hs) as Hinv.
    unfold db_put in Hinv. rewrite Hput in Hinv.
    split; [exact Hinv |]. intros _ Heq.
    destruct Hs as [Hspent _]. unfold checkIfSpent in Hspent.
    rewrite Heq in Hput.
    destruct (DB.get (DB.SPENT_KEY_IMAGES_INDEX_PREFIX, K) (m_db s)) as [w |] eqn:Hg;
      [| discriminate].
    rewrite (put_nooverwrite_present _ _ _ _ Hg) in Hput. discriminate.
  - specialize (Hh s Hs). destruct (handler s) as [ok s' | e s' |]; [| exact Hh | exact I].
    destruct Hh as [HP ->]. split; [exact HP | discriminate].
Qed.

Lemma invariant_push_key_images (h : Z) (tkey : DB.Key) :
  tkey <> (DB.SPENT_KEY_IMAGES_INDEX_PREFIX, K) ->
  forall (ins prev : list TransactionInput),
    (forall k, In (InKey k) prev -> keyImage k <> K) ->
    invariant P (push_key_images h tkey prev ins).
Proof.
  intros Htkey. induction ins as [| i ins IH]; intros prev Hprev; simpl.
  - apply invariant_ret.
  - destruct i as [bi | k | mi].
    + apply IH. intros k [Hk | Hk]; [discriminate | exact (Hprev k Hk)].
    + apply invariant_triple.
      eapply triple_bind.
      * apply triple_put_key_image.
        eapply triple_bind;
          [apply invariant_triple, invariant_erase_key_images, Hprev | intros ?].
        eapply triple_bind;
          [apply invariant_triple, invariant_db_del, Htkey | intros ?].
        intros s Hs. split; [exact Hs | reflexivity].
      * intros [|]; intros s [Hs Hk].
        -- apply IH; [| exact Hs].
           intros k' [[= <-] | Hin]; [apply Hk; reflexivity | exact (Hprev k' Hin)].
        -- exact Hs.
    + apply IH. intros k [Hk | Hk]; [discriminate | exact (Hprev k Hk)].
Qed.

Lemma invariant_push_multisignature_inputs (ins : list TransactionInput) :
  invariant P (push_multisignature_inputs ins).
Proof.
  induction ins as [| i ins IH]; simpl; [apply invariant_ret |].
  repeat (first [exact IH | inv_step]).
Qed.

Lemma invariant_push_outputs (ti : TransactionIndex) (outs : list TransactionOutput) :
  forall (output : Z) (t : TransactionEntry), invariant P (push_outputs ti output outs t).
Proof.
  induction outs as [| o outs IH]; intros output t; simpl; [apply invariant_ret |].
  repeat (first [apply IH | inv_step]).
Qed.

Lemma invariant_pushTransaction (b : BlockEntry) (h : Hash) (ti : TransactionIndex) :
  invariant P (pushTransaction b h ti).
Proof.
  unfold pushTransaction.
  repeat (first [ apply invariant_push_key_images; [discriminate | intros ? []]
                | apply invariant_push_multisignature_inputs
                | apply invariant_push_outputs
                | inv_step ]).
Qed.

(** The handler of a failed key-image insertion returns false. *)
Lemma key_image_handler_false (prev : list TransactionInput) (tkey : DB.Key) s :
  match (erase_key_images prev ;; db_del tkey true ;; ret false) s with
  | Ret ok _ => ok = false
  | Throw _ _ => True
  | Spin => True
  end.
Proof.
  unfold bind. destruct (erase_key_images prev s) as [[] s1 | e s1 |]; [| exact I | exact I].
  destruct (db_del tkey true s1) as [[] s2 | e s2 |]; [reflexivity | exact I | exact I].
Qed.

(** Once [K] is in the index, a first loop that returns true has left it
    there. *)
Lemma push_key_images_keeps_spent (h : Z) (tkey : DB.Key) :
  forall (ins prev : list TransactionInput) (s : Blockchain),
    P s ->
    match push_key_images h tkey prev ins s with
    | Ret ok s' => ok = true -> P s'
    | Throw _ _ => True
    | Spin => True
    end.
Proof.
  induction ins as [| i ins IH]; intros prev s Hs; simpl.
  - intros _. exact Hs.
  - destruct i as [bi | k | mi]; try (apply IH; exact Hs).
    unfold bind at 1. unfold try_catch_runtime_error.
    pose proof (invariant_db_put (DB.SPENT_KEY_IMAGES_INDEX_PREFIX, keyImage k)
                  (DB.VVarint h) true s Hs) as Hput.
    unfold bind at 1.
    destruct (db_put _ _ true s) as [[] s1 | e s1 |]; [| | exact I].
    + cbn. apply IH. exact Hput.
    + destruct e; try exact I.
      pose proof (key_image_handler_false prev tkey s1) as Hh.
      destruct ((erase_key_images prev ;; db_del tkey true ;; ret false) s1)
        as [ok s2 | e s2 |]; [| exact I | exact I].
      subst ok. cbn. discriminate.
Qed.

(** A first loop that returns true has put every key image of the inputs
    in the index. *)
Lemma push_key_images_records (h : Z) (tkey : DB.Key) :
  forall (ins prev : list TransactionInput) (s : Blockchain),
    is_in_checkpoint_zone (m_height s) = false ->
    spends K ins ->
    match push_key_images h tkey prev ins s with
    | Ret ok s' => ok = true -> P s'
    | Throw _ _ => True
    | Spin => True
    end.
Proof.
  induction ins as [| i ins IH]; intros prev s Hzone (k0 & Hin & HK).
  - destruct Hin.
  - assert (Hrest : i <> InKey k0 -> spends K ins).
    { intros Hne. destruct Hin as [-> | Hin]; [congruence |]. exists k0. auto. }
    simpl.
    destruct i as [bi | k | mi];
      try (apply IH; [exact Hzone | apply Hrest; discriminate]).
    unfold bind at 1. unfold try_catch_runtime_error.
    unfold bind at 1. unfold db_put at 1.
    destruct (DB.put _ _ true (m_db s)) as [db' |] eqn:Hput.
    + cbn.
      destruct (Z.eq_dec (keyImage k) K) as [Hk | Hk].
      * apply push_key_images_keeps_spent. split; [| exact Hzone].
        rewrite checkIfSpent_with_db, <- Hk.
        unfold DB.put in Hput.
        destruct (DB.get _ (m_db s)); [discriminate |].
        injection Hput as <-. rewrite get_insert_eq. reflexivity.
      * apply IH; [exact Hzone |]. apply Hrest. congruence.
    + pose proof (key_image_handler_false prev tkey s) as Hh.
      destruct ((erase_key_images prev ;; db_del tkey true ;; ret false) s)
        as [ok s2 | e s2 |]; [| exact I | exact I].
      subst ok. cbn. discriminate.
Qed.

(** A transaction that [pushTransaction] accepted outside the checkpoint
    zone has its key images in the index. *)
Lemma pushTransaction_records (b : BlockEntry) (h : Hash) (ti : TransactionIndex)
    (t : TransactionEntry) (s : Blockchain) :
  is_in_checkpoint_zone (m_height s) = false ->
  transactions b !! Z.to_nat (transaction ti) = Some t ->
  spends K (inputs (tx t)) ->
  match pushTransaction b h ti s with
  | Ret (ok, _) s' => ok = true -> P s'
  | Throw _ _ => True
  | Spin => True
  end.
Proof.
  intros Hzone Ht Hsp. unfold pushTransaction.
  unfold bind at 1. unfold try_catch_runtime_error.
  unfold bind at 1. unfold db_put at 1.
  destruct (DB.put _ _ true (m_db s)) as [db' |]; [| cbn; discriminate].
  cbn [ret negb]. cbv iota. rewrite Ht.
  destruct (negb (checkMultisignatureInputsDiff (tx t))).
  { unfold bind, ret. destruct (db_del _ true _) as [[] s1 | e s1 |];
      [discriminate | exact I | exact I]. }
  unfold bind at 1.
  pose proof (push_key_images_records (height b)
                (DB.TRANSACTIONS_INDEX_PREFIX, h) (inputs (tx t)) []
                (with_db db' s) Hzone Hsp) as Hrec.
  destruct (push_key_images _ _ [] _ _) as [ok s1 | e s1 |]; [| exact I | exact I].
  destruct ok; cbn [negb]; cbv iota; [| cbn; discriminate].
  specialize (Hrec eq_refl).
  lazymatch goal with
  | |- match ?m s1 with _ => _ end =>
      assert (Hinv : invariant P m); [| specialize (Hinv s1 Hrec)]
  end.
  { repeat (first [ apply invariant_push_multisignature_inputs
                  | apply invariant_push_outputs
                  | inv_step ]). }
  lazymatch goal with
  | |- match ?m s1 with _ => _ end =>
      destruct (m s1) as [[ok b'] s2 | e s2 |];
        [intros _; exact Hinv | exact I | exact I]
  end.
Qed.

(** [checkTransactionInputs] only reads. *)
Lemma check_inputs_from_reads (t : Transaction) (ph th : Hash) :
  forall (ins : list TransactionInput) (idx : nat),
    keeps (fun s => s) (check_inputs_from idx ins t ph th).
Proof.
  induction ins as [| i ins IH]; intros idx; simpl; [apply keeps_ret |].
  destruct i as [bi | k | mi].
  - apply keeps_ret.
  - apply keeps_bind; [apply keeps_get_state | intros s0].
    repeat (first [apply IH | apply keeps_ret | apply keeps_throw
                  | match goal with
                    | |- keeps _ (match ?x with _ => _ end) => destruct x
                    | |- keeps _ (if ?c then _ else _) => destruct c
                    end]).
  - apply keeps_bind; [apply keeps_get_state | intros s0].
    repeat (first [apply IH | apply keeps_ret | apply keeps_throw
                  | match goal with
                    | |- keeps _ (match ?x with _ => _ end) => destruct x
                    | |- keeps _ (if ?c then _ else _) => destruct c
                    end]).
Qed.

(** A transaction one of whose key images is in the index fails the check
    of its inputs. *)
Lemma check_inputs_from_spent (t : Transaction) (ph th : Hash) :
  forall (ins : list TransactionInput) (idx : nat) (s : Blockchain),
    spends K ins -> checkIfSpent K s = true ->
    match check_inputs_from idx ins t ph th s with
    | Ret r _ => r = false
    | Throw _ _ => True
    | Spin => True
    end.
Proof.
  induction ins as [| i ins IH]; intros idx s (k & Hin & Hk) Hspent.
  - destruct Hin.
  - assert (Htail : In (InKey k) ins -> spends K ins) by (intros; exists k; auto).
    simpl. destruct i as [bi | k' | mi].
    + reflexivity.
    + unfold bind at 1. unfold get_state at 1. cbv beta iota.
      destruct (outputIndexes k'); [reflexivity |].
      unfold have_tx_keyimg_as_spent.
      destruct (checkIfSpent (keyImage k') s) eqn:Hsp; [reflexivity |].
      destruct Hin as [[= ->] | Hin]; [congruence |].
      destruct (negb _).
      * destruct (signatures t !! idx); [| exact I].
        destruct (negb _); [reflexivity |]. apply IH; auto.
      * apply IH; auto.
    + destruct Hin as [? | Hin]; [discriminate |].
      unfold bind at 1. unfold get_state at 1. cbv beta iota.
      destruct (negb _).
      * destruct (signatures t !! idx); [| exact I].
        destruct (negb _); [reflexivity |]. apply IH; auto.
      * apply IH; auto.
Qed.

(** The transaction loop of [pushBlock], entered with [K] spent and
    outside the checkpoint zone over a list in which some transaction
    spends [K], does not complete: it leaves by the branch that sets the
    verification-failed flag, unless an exception ends it first. *)
Lemma push_block_transactions_spent (mh : Hash) :
  forall (txs : list Transaction) (hashes : list Hash) (st : push_loop_state)
         (s : Blockchain),
    P s ->
    (exists t, In t txs /\ spends K (inputs t)) ->
    match push_block_transactions txs hashes mh st s with
    | Ret r _ => r = None
    | Throw _ _ => True
    | Spin => True
    end.
Proof.
  induction txs as [| t0 txs IH]; intros hashes st s Hs (t & Hin & Hsp).
  - destruct Hin.
  - simpl. destruct hashes as [| tx_id hashes]; [exact I |].
    unfold bind at 1. unfold get_state at 1. cbv beta iota.
    destruct Hs as [Hspent Hzone].
    unfold getCurrentBlockchainHeight. rewrite Hzone. simpl negb. cbv iota.
    unfold bind at 1.
    pose proof (check_inputs_from_reads t0 (getPrefixHash t0) (getObjectHash t0)
                  (inputs t0) 0%nat s) as Hread.
    pose proof (check_inputs_from_spent t0 (getPrefixHash t0) (getObjectHash t0)
                  (inputs t0) 0%nat s) as Hfalse.
    unfold checkTransactionInputs.
    destruct (check_inputs_from 0 (inputs t0) t0 (getPrefixHash t0)
                (getObjectHash t0) s) as [r s' | e s' |]; [| exact I | exact I].
    simpl in Hread. subst s'.
    destruct r; cbn [negb]; cbv iota.
    + assert (Hin' : In t txs).
      { destruct Hin as [<- | Hin]; [| exact Hin].
        specialize (Hfalse Hsp Hspent). discriminate. }
      unfold bind at 1.
      pose proof (invariant_pushTransaction
                    (push_back_transaction t0 (pl_block st)) tx_id
                    {| block := block (pl_transactionIndex st);
                       transaction :=
                         (transaction (pl_transactionIndex st) + 1) mod 2 ^ 16 |}
                    s (conj Hspent Hzone)) as Hinv.
      destruct (pushTransaction _ tx_id _ s) as [[ok block2] s2 | e s2 |];
        [| exact I | exact I].
      apply IH; [exact Hinv | exists t; split; assumption].
    + unfold bind, ret.
      destruct (popTransactions _ mh s) as [[] s2 | e s2 |]; [reflexivity | exact I | exact I].
Qed.

End KeyImages.

(* ================================================================== *)
(** * Further properties *)

(** ** [Common/Math.h] *)

Lemma static_cast_in_range t x :
  0 < Cast.bits t -> Cast.in_range t x -> Cast.static_cast t x = x.
Proof.
  unfold Cast.in_range. destruct t as [w | w]; simpl; intros Hw Hx.
  - apply Z.mod_small. lia.
  - assert (Hp : 2 ^ w = 2 * 2 ^ (w - 1)).
    { replace w with (Z.succ (w - 1)) at 1 by lia. apply Z.pow_succ_r. lia. }
    rewrite Z.mod_small; lia.
Qed.

(** X1. [integer_cast] from an integral source is exact: for a value of
    the source type it returns that value when the target type can hold
    it, and throws [std::out_of_range] otherwise, whatever the signedness
    and the widths of the two types. *)
Theorem integer_cast_exact (target source : Cast.int_type) (arg : Z) :
  0 < Cast.bits target -> 0 < Cast.bits source ->
  Cast.in_range source arg ->
  (Cast.in_range target arg -> Cast.integer_cast target source arg = Some arg)
  /\ (~ Cast.in_range target arg -> Cast.integer_cast target source arg = None).
Proof.
  intros Ht Hs Harg.
  assert (Hc : forall t, 0 < Cast.bits t -> Cast.in_range t arg ->
                         Cast.static_cast t arg = arg)
    by (intros; apply static_cast_in_range; assumption).
  destruct target as [wt | wt], source as [ws | ws];
    unfold Cast.integer_cast; simpl in Ht, Hs.
  - split; intros Hr.
    + destruct (Z.ltb_spec (Cast.numeric_limits_max (Cast.Unsigned wt)) arg) as [Hlt | _];
        [unfold Cast.in_range in Hr; lia | rewrite Hc; auto].
    + destruct (Z.ltb_spec (Cast.numeric_limits_max (Cast.Unsigned wt)) arg) as [_ | Hge];
        [reflexivity |].
      exfalso. apply Hr. unfold Cast.in_range in *. simpl in *. lia.
  - assert (Hu : Cast.static_cast (Cast.make_unsigned (Cast.Signed ws)) arg = arg
                 \/ arg < 0).
    { destruct (Z.lt_ge_cases arg 0) as [Hneg | Hpos]; [right; exact Hneg | left].
      simpl. apply Z.mod_small. unfold Cast.in_range in Harg. simpl in Harg.
      assert (2 ^ (ws - 1) <= 2 ^ ws) by (apply Z.pow_le_mono_r; lia). lia. }
    split; intros Hr.
    + destruct (Z.ltb_spec arg 0) as [Hneg | Hpos];
        [unfold Cast.in_range in Hr; simpl in Hr; lia |].
      destruct Hu as [-> | Hneg]; [| lia].
      destruct (Z.ltb_spec (Cast.numeric_limits_max (Cast.Unsigned wt)) arg) as [Hlt | _];
        [unfold Cast.in_range in Hr; lia | rewrite Hc; auto].
    + destruct (Z.ltb_spec arg 0) as [Hneg | Hpos]; [reflexivity |].
      destruct Hu as [-> | Hneg]; [| lia].
      destruct (Z.ltb_spec (Cast.numeric_limits_max (Cast.Unsigned wt)) arg) as [_ | Hge];
        [reflexivity |].
      exfalso. apply Hr. unfold Cast.in_range. simpl in *. lia.
  - assert (Hm : Cast.static_cast (Cast.make_unsigned (Cast.Signed wt))
                   (Cast.numeric_limits_max (Cast.Signed wt))
                 = Cast.numeric_limits_max (Cast.Signed wt)).
    { simpl. apply Z.mod_small.
      assert (0 < 2 ^ (wt - 1)) by (apply Z.pow_pos_nonneg; lia).
      assert (2 ^ (wt - 1) <= 2 ^ wt) by (apply Z.pow_le_mono_r; lia). lia. }
    rewrite Hm.
    split; intros Hr.
    + destruct (Z.ltb_spec (Cast.numeric_limits_max (Cast.Signed wt)) arg) as [Hlt | _];
        [unfold Cast.in_range in Hr; lia | rewrite Hc; auto].
    + destruct (Z.ltb_spec (Cast.numeric_limits_max (Cast.Signed wt)) arg) as [_ | Hge];
        [reflexivity |].
      exfalso. apply Hr. unfold Cast.in_range in *. simpl in *.
      assert (0 < 2 ^ (wt - 1)) by (apply Z.pow_pos_nonneg; lia). lia.
  - split; intros Hr.
    + destruct (Z.ltb_spec (Cast.numeric_limits_max (Cast.Signed wt)) arg) as [Hlt | _];
        [unfold Cast.in_range in Hr; lia |].
      destruct (Z.ltb_spec arg (Cast.numeric_limits_min (Cast.Signed wt))) as [Hlt | _];
        [unfold Cast.in_range in Hr; lia | rewrite Hc; auto].
    + destruct (Z.ltb_spec (Cast.numeric_limits_max (Cast.Signed wt)) arg) as [_ | Hge];
        [reflexivity |].
      destruct (Z.ltb_spec arg (Cast.numeric_limits_min (Cast.Signed wt))) as [_ | Hle];
        [reflexivity |].
      exfalso. apply Hr. unfold Cast.in_range. lia.
Qed.

Lemma integer_cast_exact_witness :
  Cast.integer_cast (Cast.Unsigned 32) (Cast.Unsigned 64) 4294967295 = Some 4294967295
  /\ Cast.integer_cast (Cast.Unsigned 32) (Cast.Unsigned 64) 4294967296 = None
  /\ Cast.integer_cast (Cast.Unsigned 8) (Cast.Signed 32) (-1) = None.
Proof.
  split; [| split].
  - apply (integer_cast_exact (Cast.Unsigned 32) (Cast.Unsigned 64) 4294967295);
      unfold Cast.in_range; simpl; lia.
  - apply (integer_cast_exact (Cast.Unsigned 32) (Cast.Unsigned 64) 4294967296);
      unfold Cast.in_range; simpl; lia.
  - apply (integer_cast_exact (Cast.Unsigned 8) (Cast.Signed 32) (-1));
      unfold Cast.in_range; simpl; lia.
Defined.

Lemma medianValue_std_sort v :
  Common.medianValue v =
  match v with
  | [] => 0
  | [x] => x
  | _ => if Nat.odd (length v) then Common.at_ (Common.std_sort v) (length v / 2)
         else u64 (Common.at_ (Common.std_sort v) (length v / 2 - 1)
                   + Common.at_ (Common.std_sort v) (length v / 2)) / 2
  end.
Proof. destruct v as [| x [| y v']]; reflexivity. Qed.

(** X2. [medianValue] does not depend on the order of the vector it is
    given: two vectors with the same elements have the same median. *)
Theorem medianValue_Permutation (v v' : list Z) :
  v ≡ₚ v' -> Common.medianValue v = Common.medianValue v'.
Proof.
  intros Hp.
  assert (Hs : Common.std_sort v = Common.std_sort v').
  { apply std_sort_unique; [apply std_sort_Sorted |].
    rewrite std_sort_Permutation. symmetry. exact Hp. }
  pose proof (Permutation_length Hp) as Hl.
  rewrite !medianValue_std_sort.
  destruct v as [| x [| y w]].
  - apply Permutation_nil_l in Hp. subst v'. reflexivity.
  - apply Permutation_singleton_l in Hp. subst v'. reflexivity.
  - destruct v' as [| x' [| y' w']]; try discriminate Hl.
    rewrite Hs, Hl. reflexivity.
Qed.

Lemma medianValue_Permutation_witness :
  Common.medianValue [30; 10; 40; 20] = Common.medianValue [10; 20; 30; 40].
Proof.
  apply (medianValue_Permutation [30; 10; 40; 20] [10; 20; 30; 40]).
  apply (Permutation_trans (l' := [10; 30; 40; 20])).
  - apply perm_swap.
  - apply perm_skip.
    apply (Permutation_trans (l' := [30; 20; 40])).
    + apply perm_skip, perm_swap.
    + apply (Permutation_trans (l' := [20; 30; 40])); [apply perm_swap |].
      apply Permutation_refl.
Defined.

Lemma at_in_range (P : Z -> Prop) v i :
  (i < length v)%nat -> Forall P v -> P (Common.at_ (Common.std_sort v) i).
Proof.
  intros Hi Hv. unfold Common.at_.
  assert (Hs : Forall P (Common.std_sort v)) by (apply std_sort_Forall; exact Hv).
  rewrite List.Forall_forall in Hs. apply Hs. apply nth_In.
  rewrite std_sort_length. exact Hi.
Qed.

(** X3. The median of a non-empty vector lies between any two bounds of
    its elements, as long as the upper bound is below 2^63 (so that the
    sum of the two middle elements of an even-sized vector cannot wrap). *)
Theorem medianValue_between (lo hi : Z) (v : list Z) :
  v <> [] -> 0 <= lo -> hi < 2 ^ 63 ->
  Forall (fun x => lo <= x <= hi) v ->
  lo <= Common.medianValue v <= hi.
Proof.
  intros Hne Hlo Hhi Hv. rewrite medianValue_std_sort.
  destruct v as [| x [| y w]]; [congruence | |].
  - inversion Hv; subst. assumption.
  - set (l := x :: y :: w) in *.
    assert (Hlen : (2 <= length l)%nat) by (simpl; lia).
    assert (Hdiv : (length l / 2 < length l)%nat)
      by (apply Nat.div_lt; lia).
    assert (Hpos : (1 <= length l / 2)%nat).
    { change 1%nat with (2 / 2)%nat. apply Nat.Div0.div_le_mono. exact Hlen. }
    pose proof (at_in_range _ l (length l / 2) Hdiv Hv) as H2.
    pose proof (at_in_range _ l (length l / 2 - 1) ltac:(lia) Hv) as H1.
    cbv beta in H1, H2.
    destruct (Nat.odd (length l)); [exact H2 |].
    unfold u64. rewrite Z.mod_small by lia.
    split.
    + apply Z.div_le_lower_bound; lia.
    + apply Z.div_le_upper_bound; lia.
Qed.

Lemma medianValue_between_witness :
  10 <= Common.medianValue [30; 10; 40; 20] <= 40.
Proof.
  apply (medianValue_between 10 40 [30; 10; 40; 20]);
    [discriminate | lia | lia | repeat constructor; lia].
Defined.

(** ** Random outputs and spent key images *)

Section Outputs.
Context `{Currency, Checkpoints, FormatUtils, InputChecks, TxPool}.

Lemma find_end_of_allowed_index_snoc outs o s :
  find_end_of_allowed_index (outs ++ [o]) s
  = if old_enough o s then Z.of_nat (length outs) + 1
    else find_end_of_allowed_index outs s.
Proof.
  unfold find_end_of_allowed_index. rewrite rev_app_distr. simpl.
  rewrite length_app. simpl. unfold old_enough.
  replace (Z.of_nat (length outs + 1)) with (Z.of_nat (length outs) + 1) by lia.
  destruct (_ <=? _); [reflexivity |].
  f_equal. lia.
Qed.

(** X4. [find_end_of_allowed_index] returns a position [r] between 0 and
    the number of outputs such that no output at position [r] or later is
    old enough to be spent and, unless [r] is 0, the output before [r]
    is: outputs from [r] on are never offered. *)
Theorem find_end_of_allowed_index_spec (amount_outs : list (TransactionIndex * Z))
    (s : Blockchain) :
  let r := find_end_of_allowed_index amount_outs s in
  0 <= r <= Z.of_nat (length amount_outs)
  /\ (forall i o, amount_outs !! i = Some o -> r <= Z.of_nat i ->
                  old_enough o s = false)
  /\ (0 < r -> exists o, amount_outs !! Z.to_nat (r - 1) = Some o
                         /\ old_enough o s = true).
Proof.
  induction amount_outs as [| o outs IH] using rev_ind.
  - unfold find_end_of_allowed_index. simpl.
    split; [lia |]. split; [intros i o Hi; discriminate | lia].
  - cbv zeta in *. rewrite find_end_of_allowed_index_snoc, length_app. simpl.
    destruct IH as (Hrange & Hlocked & Hlast).
    destruct (old_enough o s) eqn:Ho.
    + split; [lia |]. split.
      * intros i o' Hi Hle. apply lookup_lt_Some in Hi.
        rewrite length_app in Hi. simpl in Hi. lia.
      * intros _. exists o. split; [| exact Ho].
        replace (Z.to_nat (Z.of_nat (length outs) + 1 - 1)) with (length outs) by lia.
        apply list_lookup_middle. reflexivity.
    + split; [lia |]. split.
      * intros i o' Hi Hle.
        destruct (decide (i < length outs)%nat) as [Hlt | Hge].
        -- rewrite lookup_app_l in Hi by exact Hlt. eapply Hlocked; eauto.
        -- pose proof (lookup_lt_Some _ _ _ Hi) as Hb.
           rewrite length_app in Hb. simpl in Hb.
           assert (i = length outs) as -> by lia.
           rewrite list_lookup_middle in Hi by reflexivity.
           injection Hi as <-. exact Ho.
      * intros Hr. destruct (Hlast Hr) as (o' & Ho' & Hold).
        exists o'. split; [| exact Hold].
        apply lookup_app_l_Some. exact Ho'.
Qed.

Lemma haveTransactionKeyImagesAsSpent_from_iff ins s :
  haveTransactionKeyImagesAsSpent_from ins s = true
  <-> exists K, spends K ins /\ checkIfSpent K s = true.
Proof.
  induction ins as [| i ins IH]; simpl.
  - split; [discriminate | intros (K & (k & [] & _) & _)].
  - assert (Hskip : (forall k, i <> InKey k) ->
                    (haveTransactionKeyImagesAsSpent_from ins s = true
                     <-> exists K, spends K (i :: ins) /\ checkIfSpent K s = true)).
    { intros Hi. rewrite IH. split.
      - intros (K & (k & Hin & HK) & Hs). exists K. split; [| exact Hs].
        exists k. split; [right; exact Hin | exact HK].
      - intros (K & (k & [Hin | Hin] & HK) & Hs); [exfalso; exact (Hi k Hin) |].
        exists K. split; [| exact Hs]. exists k. split; assumption. }
    destruct i as [bi | k | mi]; try (apply Hskip; intros k; discriminate).
    unfold have_tx_keyimg_as_spent.
    destruct (checkIfSpent (keyImage k) s) eqn:Hk.
    + split; [intros _ | reflexivity].
      exists (keyImage k). split; [| exact Hk].
      exists k. split; [left; reflexivity | reflexivity].
    + rewrite IH. split.
      * intros (K & (k' & Hin & HK) & Hs). exists K. split; [| exact Hs].
        exists k'. split; [right; exact Hin | exact HK].
      * intros (K & (k' & [Hin | Hin] & HK) & Hs).
        -- injection Hin as <-. congruence.
        -- exists K. split; [| exact Hs]. exists k'. split; assumption.
Qed.

End Outputs.

(** ** Block queries *)

Section BlockQueries.
Context `{Currency, Checkpoints, FormatUtils, InputChecks, TxPool}.

Lemma getBlockIds_loop_take (maxCount : Z) :
  0 <= maxCount < 2 ^ 32 - 1 ->
  forall (cur : DB.Cursor) (count : Z),
    0 <= count <= maxCount + 1 ->
    getBlockIds_loop cur count maxCount
    = take (Z.to_nat (maxCount + 2 - count)) (map (fun e => as_Hash (snd e)) cur).
Proof.
  intros Hmax. induction cur as [| [k v] cur IH]; intros count Hc; simpl.
  - rewrite take_nil. reflexivity.
  - replace (Z.to_nat (maxCount + 2 - count))
      with (S (Z.to_nat (maxCount + 1 - count))) by lia.
    simpl. f_equal.
    destruct (Z.ltb_spec maxCount count) as [Hgt | Hle].
    + assert (count = maxCount + 1) as -> by lia.
      replace (maxCount + 1 - (maxCount + 1)) with 0 by lia. reflexivity.
    + unfold u32. rewrite Z.mod_small by lia.
      rewrite IH by lia. f_equal. lia.
Qed.

Lemma getBlocks_loop_length (db : DB.t) (count : Z) :
  0 <= count < 2 ^ 32 - 1 ->
  forall (cur : DB.Cursor) (cnt : Z),
    0 <= cnt <= count + 1 ->
    length (getBlocks_loop db cur cnt count)
    = Nat.min (length cur) (Z.to_nat (count + 2 - cnt)).
Proof.
  intros Hmax. induction cur as [| [k v] cur IH]; intros cnt Hc.
  - reflexivity.
  - cbn [getBlocks_loop length].
    replace (Z.to_nat (count + 2 - cnt))
      with (S (Z.to_nat (count + 1 - cnt))) by lia.
    cbn [Nat.min]. f_equal.
    destruct (Z.ltb_spec count cnt) as [Hgt | Hle].
    + assert (cnt = count + 1) as -> by lia.
      replace (count + 1 - (count + 1)) with 0 by lia. simpl. lia.
    + unfold u32. rewrite Z.mod_small by lia.
      rewrite IH by lia. f_equal. lia.
Qed.

(** X5. For [0 <= count < 2^32 - 1], [getBlockIds(start, count)] returns
    the first [count + 2] hashes of the height index from [start] on (all
    of them when there are fewer): two more than [count]. [getBlocks]
    returns false and leaves [blocks] alone when [start] is not below the
    cached height; otherwise it returns true and appends as many blocks,
    [min(entries from start, count + 2)]. *)
Theorem getBlockIds_getBlocks_count (start count : Z) (blocks : list Block)
    (s : Blockchain) :
  0 <= count < 2 ^ 32 - 1 ->
  let cur := DB.begin DB.BLOCK_INDEX_PREFIX (Some start) (m_db s) in
  getBlockIds start count s
  = take (Z.to_nat (count + 2)) (map (fun e => as_Hash (snd e)) cur)
  /\ (m_height s <= start -> getBlocks start count blocks s = (false, blocks))
  /\ (start < m_height s ->
      exists found,
        getBlocks start count blocks s = (true, blocks ++ found)
        /\ length found = Nat.min (length cur) (Z.to_nat (count + 2))).
Proof.
  intros Hc cur. split; [| split].
  - unfold getBlockIds. fold cur.
    rewrite getBlockIds_loop_take by lia. f_equal. lia.
  - intros Hge. unfold getBlocks.
    destruct (Z.leb_spec (m_height s) start); [reflexivity | lia].
  - intros Hlt. unfold getBlocks.
    destruct (Z.leb_spec (m_height s) start); [lia |].
    eexists. split; [reflexivity |].
    fold cur. rewrite getBlocks_loop_length by lia. f_equal. lia.
Qed.

End BlockQueries.

Section SparseChain.
Context `{Currency, Checkpoints, FormatUtils, InputChecks, TxPool}.

Lemma build_sparse_chain_loop_spec (sparseChainEnd : Z) (s : Blockchain) :
  0 <= sparseChainEnd < 2 ^ 32 ->
  forall (fuel : nat) (i : Z) (result : list Hash),
    1 <= i ->
    sparseChainEnd < i * 2 ^ Z.of_nat fuel ->
    match build_sparse_chain_loop fuel i sparseChainEnd result s with
    | Ret r s' =>
        s' = s
        /\ exists added,
             r = result ++ added
             /\ (length added <= fuel)%nat
             /\ (i <= sparseChainEnd ->
                 head added = getBlockIdByHeight_hash (sparseChainEnd - i) s /\ added <> [])
             /\ Forall (fun id => exists j, 0 <= j < sparseChainEnd
                                          /\ getBlockIdByHeight_hash j s = Some id) added
    | Throw e s' =>
        s' = s /\ e = runtime_error
        /\ exists j, 0 <= j < sparseChainEnd /\ getBlockIdByHeight_hash j s = None
    | Spin => False
    end.
Proof.
  intros Hend. induction fuel as [| fuel IH]; intros i result Hi Hfuel.
  - simpl in *. destruct (Z.leb_spec i sparseChainEnd) as [Hle | Hgt]; [lia |].
    split; [reflexivity |]. exists []. rewrite app_nil_r.
    split; [reflexivity |]. split; [simpl; lia |].
    split; [intros; lia | constructor].
  - cbn [build_sparse_chain_loop].
    destruct (Z.leb_spec i sparseChainEnd) as [Hle | Hgt].
    + unfold bind at 1. unfold db_get at 1. cbv beta iota.
      destruct (DB.get (DB.BLOCK_INDEX_PREFIX, sparseChainEnd - i) (m_db s))
        as [v |] eqn:Hv.
      * assert (Hu : u64 (i * 2) = i * 2) by (unfold u64; apply Z.mod_small; lia).
        rewrite Hu.
        specialize (IH (i * 2) (result ++ [as_Hash v]) ltac:(lia)).
        assert (Hf : sparseChainEnd < i * 2 * 2 ^ Z.of_nat fuel).
        { rewrite Nat2Z.inj_succ, Z.pow_succ_r in Hfuel by lia. lia. }
        specialize (IH Hf).
        destruct (build_sparse_chain_loop fuel (i * 2) sparseChainEnd
                    (result ++ [as_Hash v]) s) as [r s' | e s' |];
          [| exact IH | exact IH].
        destruct IH as (-> & added & -> & Hlen & _ & Hall).
        split; [reflexivity |].
        exists (as_Hash v :: added). rewrite <- app_assoc. simpl.
        split; [reflexivity |]. split; [lia |]. split.
        -- intros _. split; [| discriminate].
           unfold getBlockIdByHeight_hash. rewrite Hv. reflexivity.
        -- constructor; [| exact Hall].
           exists (sparseChainEnd - i). split; [lia |].
           unfold getBlockIdByHeight_hash. rewrite Hv. reflexivity.
      * split; [reflexivity |]. split; [reflexivity |].
        exists (sparseChainEnd - i). split; [lia |].
        unfold getBlockIdByHeight_hash. rewrite Hv. reflexivity.
    + split; [reflexivity |]. exists []. rewrite app_nil_r.
      split; [reflexivity |]. split; [simpl; lia |].
      split; [intros; lia | constructor].
Qed.

(** X6. [build_sparse_chain] throws [std::runtime_error], with the state
    as it was, when the start block is not in the main chain. For a start
    block at height [h < 2^32 - 1] it stops (33 rounds are enough); when it
    returns, the state is unchanged, the result starts with the hash filed
    under height [h], ends with the first hash of the height index, and
    holds only that hash and hashes filed under heights up to [h]; when
    it throws instead, a height up to [h] is missing from the index. *)
Theorem build_sparse_chain_spec (fuel : nat) (startBlockId : Hash) (s : Blockchain) :
  let z := as_Hash (DB.get_value_array
                      (DB.begin DB.BLOCK_INDEX_PREFIX None (m_db s))) in
  (getBlockHeight startBlockId s = None ->
   build_sparse_chain fuel startBlockId s = Throw runtime_error s)
  /\ (forall h,
         getBlockHeight startBlockId s = Some h ->
         0 <= h < 2 ^ 32 - 1 -> (33 <= fuel)%nat ->
         match build_sparse_chain fuel startBlockId s with
         | Ret r s' =>
             s' = s
             /\ head r = getBlockIdByHeight_hash h s
             /\ list.last r = Some z
             /\ (length r <= fuel + 1)%nat
             /\ Forall (fun id => id = z
                                  \/ exists j, 0 <= j <= h /\ getBlockIdByHeight_hash j s = Some id) r
         | Throw e s' =>
             s' = s /\ e = runtime_error
             /\ exists j, 0 <= j <= h /\ getBlockIdByHeight_hash j s = None
         | Spin => False
         end).
Proof.
  intros z. split.
  - intros Hh. unfold build_sparse_chain, bind, get_state. rewrite Hh. reflexivity.
  - intros h Hh Hr Hfuel.
    unfold build_sparse_chain. unfold bind at 1. unfold get_state at 1.
    cbv beta iota. rewrite Hh.
    assert (Hu : u32 (h + 1) = h + 1) by (unfold u32; apply Z.mod_small; lia).
    rewrite Hu. unfold bind at 1.
    assert (Hpow : h + 1 < 1 * 2 ^ Z.of_nat fuel).
    { assert (2 ^ 32 <= 2 ^ Z.of_nat fuel) by (apply Z.pow_le_mono_r; lia). lia. }
    pose proof (build_sparse_chain_loop_spec (h + 1) s ltac:(lia) fuel 1 []
                  ltac:(lia) Hpow) as Hloop.
    destruct (build_sparse_chain_loop fuel 1 (h + 1) [] s) as [r s' | e s' |];
      [| | exact Hloop].
    + destruct Hloop as (-> & added & -> & Hlen & Hhead & Hall).
      destruct (Hhead ltac:(lia)) as [Hhd Hne]. cbn [app].
      replace (h + 1 - 1) with h in Hhd by lia.
      assert (Hall' : Forall (fun id => id = z
                               \/ exists j, 0 <= j <= h /\ getBlockIdByHeight_hash j s = Some id) added).
      { eapply List.Forall_impl; [| exact Hall].
        intros id (j & Hj & Hid). right. exists j. split; [lia | exact Hid]. }
      destruct (list.last added) as [back |] eqn:Hlast;
        [| apply last_None in Hlast; congruence].
      fold z. destruct (Z.eqb_spec back z) as [-> | Hneq]; cbn [negb]; unfold ret.
      * split; [reflexivity |]. split; [exact Hhd |].
        split; [exact Hlast |]. split; [lia | exact Hall'].
      * split; [reflexivity |].
        split; [destruct added; [congruence | exact Hhd] |].
        split; [apply last_snoc |].
        split; [rewrite length_app; simpl; lia |].
        apply Forall_app. split; [exact Hall' |].
        constructor; [left; reflexivity | constructor].
    + destruct Hloop as (-> & -> & j & Hj & Hnone).
      split; [reflexivity |]. split; [reflexivity |].
      exists j. split; [lia | exact Hnone].
Qed.

End SparseChain.

Lemma build_sparse_chain_spec_witness :
  let s := Example.chain2 0 in
  match @build_sparse_chain Example.pool 40 (Example.block_hash Example.block1) s with
  | Ret r s' =>
      s' = s
      /\ head r = Some (Example.block_hash Example.block1)
      /\ list.last r = Some (Example.block_hash Example.genesis)
  | Throw _ _ => False
  | Spin => False
  end.
Proof.
  intros s.
  pose proof (@build_sparse_chain_spec Example.pool 40
                (Example.block_hash Example.block1) s) as Hspec.
  cbv zeta in Hspec. destruct Hspec as [_ Hspec].
  specialize (Hspec 1 eq_refl ltac:(lia) ltac:(lia)).
  destruct (build_sparse_chain 40 (Example.block_hash Example.block1) s)
    as [r s' | e s' |].
  - destruct Hspec as (Hs & Hhd & Hlast & _).
    split; [exact Hs |]. split; [rewrite Hhd | rewrite Hlast]; reflexivity.
  - destruct Hspec as (_ & _ & j & Hj & Hnone).
    assert (j = 0 \/ j = 1) as [-> | ->] by lia;
      vm_compute in Hnone; discriminate Hnone.
  - exact Hspec.
Defined.

Lemma getBlockIds_getBlocks_count_witness :
  @getBlockIds Example.pool 0 0 (Example.chain2 0)
  = [Example.block_hash Example.genesis; Example.block_hash Example.block1].
Proof.
  pose proof (@getBlockIds_getBlocks_count (Example.format_utils 0) Example.pool 0 0 [] (Example.chain2 0)
                ltac:(lia)) as [Hids _].
  rewrite Hids. vm_compute. reflexivity.
Defined.

(** ** Checking the inputs of a transaction *)

Section InputChecking.
Context `{Currency, Checkpoints, FormatUtils, InputChecks, TxPool}.

Lemma check_inputs_from_true (t : Transaction) (ph th : Hash) (s : Blockchain) :
  ph = getPrefixHash t -> th = getObjectHash t ->
  forall (ins : list TransactionInput) (idx : nat),
    match check_inputs_from idx ins t ph th s with
    | Ret r s' =>
        s' = s
        /\ (r = true ->
            forall j i, ins !! j = Some i -> input_checked t s (idx + j) i)
    | Throw _ s' => s' = s
    | Spin => False
    end.
Proof.
  intros -> ->. induction ins as [| i ins IH]; intros idx.
  - simpl. split; [reflexivity |]. intros _ j i Hj. discriminate.
  - assert (Hstep :
      input_checked t s idx i ->
      match check_inputs_from (S idx) ins t (getPrefixHash t) (getObjectHash t) s with
      | Ret r s' =>
          s' = s
          /\ (r = true ->
              forall j i', (i :: ins) !! j = Some i' ->
                           input_checked t s (idx + j) i')
      | Throw _ s' => s' = s
      | Spin => False
      end).
    { intros Hi. specialize (IH (S idx)).
      destruct (check_inputs_from (S idx) ins t _ _ s) as [r s' | e s' |];
        [| exact IH | exact IH].
      destruct IH as [-> IH]. split; [reflexivity |].
      intros Hr [| j] i' Hj.
      - injection Hj as <-. rewrite Nat.add_0_r. exact Hi.
      - replace (idx + S j)%nat with (S idx + j)%nat by lia.
        apply IH; assumption. }
    cbn [check_inputs_from].
    destruct i as [bi | k | m].
    + cbn. split; [reflexivity | intros Hr; discriminate Hr].
    + unfold bind at 1. unfold get_state at 1. cbv beta iota.
      destruct (outputIndexes k) as [| o os] eqn:Hoi;
        [cbn; split; [reflexivity | intros Hr; discriminate Hr] |].
      unfold have_tx_keyimg_as_spent.
      destruct (checkIfSpent (keyImage k) s) eqn:Hspent;
        [cbn; split; [reflexivity | intros Hr; discriminate Hr] |].
      unfold isInCheckpointZone, getCurrentBlockchainHeight.
      destruct (is_in_checkpoint_zone (m_height s)) eqn:Hzone; cbn [negb]; cbv iota.
      * apply Hstep. cbn. rewrite Hoi.
        split; [discriminate |]. split; [exact Hspent | intros Hz; congruence].
      * destruct (signatures t !! idx) as [sig |] eqn:Hsig; [| reflexivity].
        destruct (check_tx_input (m_db s) (m_height s) k (getPrefixHash t) sig)
          eqn:Hcheck; cbn [negb]; cbv iota;
          [| cbn; split; [reflexivity | intros Hr; discriminate Hr]].
        apply Hstep. cbn. rewrite Hoi.
        split; [discriminate |]. split; [exact Hspent |].
        intros _. exists sig. split; [exact Hsig | exact Hcheck].
    + unfold bind at 1. unfold get_state at 1. cbv beta iota.
      unfold isInCheckpointZone, getCurrentBlockchainHeight.
      destruct (is_in_checkpoint_zone (m_height s)) eqn:Hzone; cbn [negb]; cbv iota.
      * apply Hstep. cbn. intros Hz. congruence.
      * destruct (signatures t !! idx) as [sig |] eqn:Hsig; [| reflexivity].
        destruct (validateInput (m_db s) (m_height s) m (getObjectHash t)
                    (getPrefixHash t) sig) eqn:Hcheck; cbn [negb]; cbv iota;
          [| cbn; split; [reflexivity | intros Hr; discriminate Hr]].
        apply Hstep. cbn. intros _. exists sig. split; [exact Hsig | exact Hcheck].
Qed.

(** X7. [checkTransactionInputs] changes nothing and stops. When it
    returns true, every input is a key input with at least one output
    index and an unspent key image, or a multisignature input; outside the
    checkpoint zone each has its signatures and passes its signature
    check; and [haveTransactionKeyImagesAsSpent] is false of the
    transaction. *)
Theorem checkTransactionInputs_true (t : Transaction) (s : Blockchain) :
  match checkTransactionInputs t s with
  | Ret r s' =>
      s' = s
      /\ (r = true ->
          (forall j i, inputs t !! j = Some i -> input_checked t s j i)
          /\ haveTransactionKeyImagesAsSpent t s = false)
  | Throw _ s' => s' = s
  | Spin => False
  end.
Proof.
  unfold checkTransactionInputs.
  pose proof (check_inputs_from_true t _ _ s eq_refl eq_refl (inputs t) 0) as Hc.
  destruct (check_inputs_from 0 (inputs t) t _ _ s) as [r s' | e s' |];
    [| exact Hc | exact Hc].
  destruct Hc as [-> Hc]. split; [reflexivity |].
  intros Hr. specialize (Hc Hr). split; [exact Hc |].
  destruct (haveTransactionKeyImagesAsSpent t s) eqn:Hh; [| reflexivity].
  apply haveTransactionKeyImagesAsSpent_from_iff in Hh.
  destruct Hh as (K & (k & Hin & HK) & Hs).
  apply list_elem_of_In, list_elem_of_lookup in Hin. destruct Hin as [j Hj].
  specialize (Hc j _ Hj). cbn in Hc. destruct Hc as (_ & Hns & _).
  congruence.
Qed.

End InputChecking.

(** ** Writing and removing a transaction *)

Section Rollback.
Context `{Currency, Checkpoints, FormatUtils, InputChecks, TxPool}.
Local Open Scope engine_scope.

Lemma put_nooverwrite_absent k v db db' :
  DB.put k v true db = Some db' -> DB.get k db = None /\ db' = DB.insert k v db.
Proof.
  unfold DB.put. destruct (DB.get k db); [discriminate |].
  intros [= <-]. split; reflexivity.
Qed.

Lemma del_get_eq k b db db' : DB.del k b db = Some db' -> DB.get k db' = None.
Proof.
  unfold DB.del. destruct (DB.get k db) eqn:Hg.
  - intros [= <-]. apply get_remove_eq.
  - destruct b; [discriminate |]. intros [= <-]. exact Hg.
Qed.

Lemma key_eqb_spec (a b : DB.Key) : reflect (a = b) (DB.key_eqb a b).
Proof.
  destruct (DB.key_eqb a b) eqn:He; constructor.
  - apply key_eqb_eq. exact He.
  - intros Heq. apply key_eqb_eq in Heq. congruence.
Qed.

Lemma erase_key_images_get (prev : list TransactionInput) :
  forall s,
    match erase_key_images prev s with
    | Ret _ s' =>
        (forall key, DB.get key (m_db s')
                     = if key_image_key prev key then None else DB.get key (m_db s))
        /\ with_db DB.empty s' = with_db DB.empty s
    | Throw _ _ => True
    | Spin => True
    end.
Proof.
  induction prev as [| i prev IH]; intros s.
  - simpl. split; reflexivity.
  - destruct i as [bi | k | mi]; simpl; try exact I.
    unfold bind at 1. unfold db_del at 1.
    destruct (DB.del _ true (m_db s)) as [db' |] eqn:Hdel; [| exact I].
    specialize (IH (with_db db' s)).
    destruct (erase_key_images prev (with_db db' s)) as [[] s' | e s' |];
      [| exact I | exact I].
    destruct IH as (Hget & Hrest).
    split; [| exact Hrest].
    intros key. rewrite Hget.
    destruct (key_image_key prev key); [rewrite orb_true_r; reflexivity |].
    rewrite orb_false_r. simpl.
    destruct (key_eqb_spec key (DB.SPENT_KEY_IMAGES_INDEX_PREFIX, keyImage k))
      as [-> | Hne].
    + eapply del_get_eq. exact Hdel.
    + eapply del_get_ne; [exact Hdel | exact Hne].
Qed.

Lemma push_key_images_rollback (db0 : DB.t) (h : Z) (tkey : DB.Key) :
  forall (ins prev : list TransactionInput) (s : Blockchain),
    rollback_inv db0 tkey prev s ->
    match push_key_images h tkey prev ins s with
    | Ret ok s' =>
        with_db DB.empty s' = with_db DB.empty s
        /\ (ok = false -> forall key, DB.get key (m_db s') = DB.get key db0)
    | Throw _ _ => True
    | Spin => True
    end.
Proof.
  induction ins as [| i ins IH]; intros prev s Hinv.
  - simpl. split; [reflexivity | discriminate].
  - assert (Hskip : (forall k, i <> InKey k) ->
                    rollback_inv db0 tkey (i :: prev) s).
    { intros Hi key. specialize (Hinv key). simpl.
      destruct i as [bi | k | mi]; [exact Hinv | exfalso; exact (Hi k eq_refl) | exact Hinv]. }
    destruct i as [bi | k | mi]; cbn [push_key_images];
      try (apply IH; apply Hskip; intros k; discriminate).
    unfold bind at 1. unfold try_catch_runtime_error.
    unfold bind at 1. unfold db_put at 1.
    destruct (DB.put _ _ true (m_db s)) as [db' |] eqn:Hput.
    + cbn [ret]. cbv beta iota.
      apply put_nooverwrite_absent in Hput. destruct Hput as [Habs ->].
      assert (Hinv' : rollback_inv db0 tkey (InKey k :: prev)
                        (with_db (DB.insert (DB.SPENT_KEY_IMAGES_INDEX_PREFIX, keyImage k)
                                    (DB.VVarint h) (m_db s)) s)).
      { intros key. specialize (Hinv key). cbn [key_image_key existsb].
        fold (key_image_key prev key).
        destruct (DB.key_eqb key tkey || key_image_key prev key) eqn:Hw.
        - replace (DB.key_eqb key tkey
                   || (DB.key_eqb key (DB.SPENT_KEY_IMAGES_INDEX_PREFIX, keyImage k)
                       || key_image_key prev key)) with true; [exact Hinv |].
          apply orb_true_iff in Hw. destruct Hw as [-> | ->];
            [reflexivity | rewrite !orb_true_r; reflexivity].
        - apply orb_false_iff in Hw. destruct Hw as [-> ->]. rewrite orb_false_r.
          cbn [orb].
          destruct (key_eqb_spec key (DB.SPENT_KEY_IMAGES_INDEX_PREFIX, keyImage k))
            as [-> | Hne].
          + rewrite <- Hinv. exact Habs.
          + cbn [m_db with_db]. rewrite get_insert_ne by exact Hne. exact Hinv. }
      specialize (IH (InKey k :: prev) _ Hinv').
      destruct (push_key_images h tkey (InKey k :: prev) ins _) as [ok s' | e s' |];
        [| exact I | exact I].
      exact IH.
    + unfold bind.
      pose proof (erase_key_images_get prev s) as Herase.
      destruct (erase_key_images prev s) as [[] s1 | e s1 |]; [| exact I | exact I].
      destruct Herase as (Hget & Hrest).
      unfold db_del.
      destruct (DB.del tkey true (m_db s1)) as [db2 |] eqn:Hdel; [| exact I].
      cbn [ret]. split; [exact Hrest |]. intros _ key. cbn [m_db with_db].
      specialize (Hinv key).
      destruct (key_eqb_spec key tkey) as [Heq | Hne].
      * cbn [orb] in Hinv. rewrite Hinv, Heq. eapply del_get_eq. exact Hdel.
      * rewrite (del_get_ne _ _ _ _ _ Hdel Hne), Hget. cbn [orb] in Hinv.
        destruct (key_image_key prev key); [symmetry |]; exact Hinv.
Qed.

(** Once the key images are in, [pushTransaction] does not return false. *)
Lemma push_multisignature_inputs_rest ins s :
  match push_multisignature_inputs ins s with
  | Ret _ s' => with_db DB.empty s' = with_db DB.empty s
  | Throw _ _ => True
  | Spin => True
  end.
Proof.
  revert s. induction ins as [| i ins IH]; intros s; [reflexivity |].
  destruct i as [bi | k | mi]; simpl; try apply IH.
  unfold bind at 1, db_get at 1.
  destruct (DB.get _ (m_db s)) as [[| | | | | me | | |] |]; try exact I.
  destruct (me !! _); [| exact I].
  unfold bind, db_put.
  destruct (DB.put _ _ false (m_db s)) as [db' |]; [| exact I].
  specialize (IH (with_db db' s)).
  destruct (push_multisignature_inputs ins _); [exact IH | exact I | exact I].
Qed.

Lemma push_outputs_rest ti outs :
  forall output t s,
    match push_outputs ti output outs t s with
    | Ret _ s' => with_db DB.empty s' = with_db DB.empty s
    | Throw _ _ => True
    | Spin => True
    end.
Proof.
  induction outs as [| o outs IH]; intros output t s; [reflexivity |].
  simpl. destruct (target o).
  - unfold bind at 1, db_get at 1.
    destruct (DB.get _ (m_db s)) as [[| | | | oe | | | |] |]; try exact I.
    + unfold bind, db_put.
      destruct (DB.put _ _ false (m_db s)) as [db' |]; [| exact I].
      specialize (IH (output + 1) (set_global_output_index output (Z.of_nat (length oe)) t)
                    (with_db db' s)).
      destruct (push_outputs ti _ outs _ _); [exact IH | exact I | exact I].
    + unfold bind, db_put.
      destruct (DB.put _ _ true (m_db s)) as [db' |]; [| exact I].
      specialize (IH (output + 1) (set_global_output_index output 0 t) (with_db db' s)).
      destruct (push_outputs ti _ outs _ _); [exact IH | exact I | exact I].
  - unfold bind at 1, db_get at 1.
    destruct (DB.get _ (m_db s)) as [[| | | | | me | | |] |]; try exact I.
    + unfold bind, db_put.
      destruct (DB.put _ _ false (m_db s)) as [db' |]; [| exact I].
      specialize (IH (output + 1) t (with_db db' s)).
      destruct (push_outputs ti _ outs _ _); [exact IH | exact I | exact I].
    + unfold bind, db_put.
      destruct (DB.put _ _ true (m_db s)) as [db' |]; [| exact I].
      specialize (IH (output + 1) t (with_db db' s)).
      destruct (push_outputs ti _ outs _ _); [exact IH | exact I | exact I].
Qed.

(** X8. [pushTransaction] writes to the store only; and when it returns
    false (the transaction hash is already indexed, the multisignature
    inputs are not distinct, or a key image is already spent) the block
    entry is untouched and every key of the store reads as before the
    call: what it had written is taken back. *)
Theorem pushTransaction_false_restores (b : BlockEntry) (h : Hash)
    (ti : TransactionIndex) (s : Blockchain) :
  match pushTransaction b h ti s with
  | Ret (ok, b') s' =>
      with_db DB.empty s' = with_db DB.empty s
      /\ (ok = false -> b' = b /\ same_store s s')
  | Throw _ _ => True
  | Spin => True
  end.
Proof.
  unfold pushTransaction.
  unfold bind at 1. unfold try_catch_runtime_error.
  unfold bind at 1. unfold db_put at 1.
  destruct (DB.put _ _ true (m_db s)) as [db1 |] eqn:Hput;
    [| cbn; split; [reflexivity |]; intros _; split; [reflexivity |];
       split; reflexivity].
  cbn [ret negb]. cbv beta iota.
  apply put_nooverwrite_absent in Hput. destruct Hput as [Habs ->].
  set (tkey := (DB.TRANSACTIONS_INDEX_PREFIX, h)) in *.
  set (s1 := with_db (DB.insert tkey (DB.VTransactionIndex ti) (m_db s)) s).
  destruct (transactions b !! Z.to_nat (transaction ti)) as [t |]; [| exact I].
  destruct (negb (checkMultisignatureInputsDiff (tx t))).
  { unfold bind, db_del.
    destruct (DB.del tkey true (m_db s1)) as [db2 |] eqn:Hdel; [| exact I].
    cbn [ret]. split; [reflexivity |]. intros _. split; [reflexivity |].
    split; [| reflexivity]. intros key. cbn [m_db with_db].
    destruct (key_eqb_spec key tkey) as [-> | Hne].
    - rewrite Habs. eapply del_get_eq. exact Hdel.
    - rewrite (del_get_ne _ _ _ _ _ Hdel Hne). subst s1. cbn [m_db with_db].
      apply get_insert_ne. exact Hne. }
  unfold bind at 1.
  assert (Hinv : rollback_inv (m_db s) tkey [] s1).
  { intros key. cbn [key_image_key existsb]. rewrite orb_false_r.
    destruct (key_eqb_spec key tkey) as [-> | Hne]; [exact Habs |].
    subst s1. cbn [m_db with_db]. apply get_insert_ne. exact Hne. }
  pose proof (push_key_images_rollback (m_db s) (height b) tkey (inputs (tx t)) []
                s1 Hinv) as Hkeys.
  destruct (push_key_images (height b) tkey [] (inputs (tx t)) s1)
    as [ok s2 | e s2 |]; [| exact I | exact I].
  destruct Hkeys as [Hrest2 Hfalse].
  destruct ok; cbn [negb]; cbv iota.
  2:{ cbn [ret]. split; [exact Hrest2 |]. intros _. split; [reflexivity |].
      split; [exact (Hfalse eq_refl) | exact Hrest2]. }
  unfold bind at 1.
  pose proof (push_multisignature_inputs_rest (inputs (tx t)) s2) as Hm.
  destruct (push_multisignature_inputs (inputs (tx t)) s2) as [[] s3 | e s3 |];
    [| exact I | exact I].
  destruct (65535 <? Z.of_nat (length (outputs (tx t)))); [exact I |].
  unfold bind at 1.
  lazymatch goal with
  | |- context [push_outputs ti 0 ?outs ?te s3] =>
      pose proof (push_outputs_rest ti outs 0 te s3) as Ho;
      destruct (push_outputs ti 0 outs te s3) as [t' s4 | e s4 |];
        [| exact I | exact I]
  end.
  assert (Hrest4 : with_db DB.empty s4 = with_db DB.empty s)
    by (rewrite Ho, Hm; exact Hrest2).
  destruct (getPaymentId (tx t)) as [paymentId |];
    [| cbn [ret]; split; [exact Hrest4 | discriminate]].
  unfold bind at 1, db_get at 1. cbv beta iota.
  destruct (DB.get (DB.PAYMENT_ID_INDEX_PREFIX, paymentId) (m_db s4))
    as [[| | | | | | pe | |] |] eqn:Hp; try exact I.
  - unfold try_catch_runtime_error, bind, db_put, DB.put. rewrite Hp.
    cbn [ret]. split; [rewrite <- Hrest4; reflexivity | discriminate].
  - unfold try_catch_runtime_error, bind, db_put, DB.put. rewrite Hp.
    cbn [ret]. split; [rewrite <- Hrest4; reflexivity | discriminate].
Qed.

End Rollback.

Section Frames.
Context `{Currency, Checkpoints, FormatUtils, InputChecks, TxPool}.
Local Open Scope engine_scope.

Lemma keeps_invariant {A B} (f : Blockchain -> B) (c : B) (m : E A) :
  keeps f m -> invariant (fun s => f s = c) m.
Proof.
  intros Hk s Hs. specialize (Hk s).
  destruct (m s) as [a s' | e s' |]; [congruence | congruence | exact I].
Qed.

Lemma frame_of_get (W : DB.Prefix -> bool) (key : DB.Key) :
  W (fst key) = false ->
  frame_of W (fun s => (DB.get key (m_db s), other_members s)).
Proof.
  intros Hk. split.
  - intros k v b Hw s. unfold db_put.
    destruct (DB.put k v b (m_db s)) as [db' |] eqn:Hp; [| reflexivity].
    cbn [m_db with_db]. f_equal.
    eapply put_get_ne; [exact Hp | intros ->; congruence].
  - intros k b Hw s. unfold db_del.
    destruct (DB.del k b (m_db s)) as [db' |] eqn:Hp; [| reflexivity].
    cbn [m_db with_db]. f_equal.
    eapply del_get_ne; [exact Hp | intros ->; congruence].
Qed.

Section WithFrame.
Context (W : DB.Prefix -> bool) {B : Type} (f : Blockchain -> B) (c : B).
Hypothesis Hf : frame_of W f.

Ltac frame_step :=
  first
    [ apply invariant_ret
    | apply invariant_throw
    | apply keeps_invariant, keeps_db_get
    | apply keeps_invariant, (proj1 Hf); assumption
    | apply keeps_invariant, (proj2 Hf); assumption
    | apply invariant_try_catch
    | apply invariant_bind; [| intros ?]
    | match goal with
      | |- invariant _ (match ?x with _ => _ end) => destruct x
      | |- invariant _ (if ?c then _ else _) => destruct c
      | |- invariant _ (fun _ => Spin) => intros ? ?; exact I
      end ].

Lemma frame_push_multisignature_inputs (ins : list TransactionInput) :
  W DB.MULTUSIGNATURE_OUTPUTS_INDEX_PREFIX = true ->
  invariant (fun s => f s = c) (push_multisignature_inputs ins).
Proof.
  intros Hm. induction ins as [| i ins IH]; simpl; [apply invariant_ret |].
  repeat (first [exact IH | frame_step]).
Qed.

Lemma frame_push_outputs (ti : TransactionIndex) (outs : list TransactionOutput) :
  W DB.MULTUSIGNATURE_OUTPUTS_INDEX_PREFIX = true ->
  W DB.OUTPUTS_INDEX_PREFIX = true ->
  forall (output : Z) (t : TransactionEntry),
    invariant (fun s => f s = c) (push_outputs ti output outs t).
Proof.
  intros Hm Ho. induction outs as [| o outs IH]; intros output t; simpl;
    [apply invariant_ret |].
  repeat (first [apply IH | frame_step]).
Qed.

Lemma frame_erase_key_images (prev : list TransactionInput) :
  W DB.SPENT_KEY_IMAGES_INDEX_PREFIX = true ->
  invariant (fun s => f s = c) (erase_key_images prev).
Proof.
  intros Hk. induction prev as [| i prev IH]; simpl; [apply invariant_ret |].
  repeat (first [exact IH | frame_step]).
Qed.

Lemma frame_push_key_images (h : Z) (tkey : DB.Key) :
  W DB.SPENT_KEY_IMAGES_INDEX_PREFIX = true -> W (fst tkey) = true ->
  forall (ins prev : list TransactionInput),
    invariant (fun s => f s = c) (push_key_images h tkey prev ins).
Proof.
  intros Hk Ht. induction ins as [| i ins IH]; intros prev; simpl;
    [apply invariant_ret |].
  repeat (first [apply IH | apply frame_erase_key_images; exact Hk | frame_step]).
Qed.

Lemma frame_pushTransaction (b : BlockEntry) (h : Hash) (ti : TransactionIndex) :
  (forall p, transaction_index p = true -> W p = true) ->
  invariant (fun s => f s = c) (pushTransaction b h ti).
Proof.
  intros HW.
  pose proof (HW DB.TRANSACTIONS_INDEX_PREFIX eq_refl) as Ht.
  pose proof (HW DB.SPENT_KEY_IMAGES_INDEX_PREFIX eq_refl) as Hk.
  pose proof (HW DB.MULTUSIGNATURE_OUTPUTS_INDEX_PREFIX eq_refl) as Hm.
  pose proof (HW DB.OUTPUTS_INDEX_PREFIX eq_refl) as Ho.
  pose proof (HW DB.PAYMENT_ID_INDEX_PREFIX eq_refl) as Hp.
  unfold pushTransaction.
  repeat (first [ apply frame_push_key_images; assumption
                | apply frame_push_multisignature_inputs; assumption
                | apply frame_push_outputs; assumption
                | frame_step ]).
Qed.

Ltac keeps_frame_step :=
  first
    [ apply keeps_ret
    | apply keeps_throw
    | apply keeps_get_state
    | apply keeps_db_get
    | apply (proj1 Hf); assumption
    | apply (proj2 Hf); assumption
    | apply keeps_try_catch
    | apply keeps_bind; [| intros ?]
    | match goal with
      | |- keeps _ (match ?x with _ => _ end) => destruct x
      | |- keeps _ (if ?c then _ else _) => destruct c
      end ].

Lemma frame_pop_outputs (ti : TransactionIndex) (outs : list TransactionOutput) :
  W DB.MULTUSIGNATURE_OUTPUTS_INDEX_PREFIX = true ->
  W DB.OUTPUTS_INDEX_PREFIX = true ->
  forall pos, keeps f (pop_outputs ti pos outs).
Proof.
  intros Hm Ho. induction outs as [| o outs IH]; intros pos; simpl.
  - apply keeps_ret.
  - pose proof (IH (pos - 1)) as IH'.
    repeat (first [exact IH' | keeps_frame_step]).
Qed.

Lemma frame_pop_inputs (ins : list TransactionInput) :
  W DB.SPENT_KEY_IMAGES_INDEX_PREFIX = true ->
  keeps f (pop_inputs ins).
Proof.
  intros Hk. induction ins as [| i ins IH]; simpl.
  - apply keeps_ret.
  - repeat (first [exact IH | keeps_frame_step]).
Qed.

Lemma frame_popTransaction (t : Transaction) (h : Hash) :
  (forall p, transaction_index p = true -> W p = true) ->
  keeps f (popTransaction t h).
Proof.
  intros HW.
  pose proof (HW DB.TRANSACTIONS_INDEX_PREFIX eq_refl) as Ht.
  pose proof (HW DB.SPENT_KEY_IMAGES_INDEX_PREFIX eq_refl) as Hk.
  pose proof (HW DB.MULTUSIGNATURE_OUTPUTS_INDEX_PREFIX eq_refl) as Hm.
  pose proof (HW DB.OUTPUTS_INDEX_PREFIX eq_refl) as Ho.
  pose proof (HW DB.PAYMENT_ID_INDEX_PREFIX eq_refl) as Hp.
  unfold popTransaction.
  repeat (first [ apply keeps_getTransactionIndex
                | apply frame_pop_outputs; assumption
                | apply frame_pop_inputs; assumption
                | keeps_frame_step ]).
Qed.

Lemma frame_popTransactions (b : BlockEntry) (h : Hash) :
  (forall p, transaction_index p = true -> W p = true) ->
  keeps f (popTransactions b h).
Proof.
  intros HW. unfold popTransactions.
  assert (Hloop : forall k, keeps f (pop_block_transactions k b)).
  { induction k as [| k IH]; simpl; [apply keeps_ret |].
    repeat (first [exact IH | apply frame_popTransaction; exact HW | keeps_frame_step]). }
  repeat (first [ apply Hloop | apply frame_popTransaction; exact HW
                | keeps_frame_step ]).
Qed.

End WithFrame.

(** X9. [pushTransaction], [popTransaction] and [popTransactions] write
    only to the transaction, key-image, output, multisignature and
    payment-id indices: a key of any other key space (blocks, heights,
    timestamps, generated transactions) reads the same afterwards, also
    when they throw, and no other member of the state changes. The two
    pop functions always stop. *)
Theorem transaction_writes_confined (key : DB.Key) (s : Blockchain) :
  transaction_index (fst key) = false ->
  (forall b h ti,
      match pushTransaction b h ti s with
      | Ret _ s' | Throw _ s' =>
          DB.get key (m_db s') = DB.get key (m_db s)
          /\ other_members s' = other_members s
      | Spin => True
      end)
  /\ (forall t h,
         match popTransaction t h s with
         | Ret _ s' | Throw _ s' =>
             DB.get key (m_db s') = DB.get key (m_db s)
             /\ other_members s' = other_members s
         | Spin => False
         end)
  /\ (forall b h,
         match popTransactions b h s with
         | Ret _ s' | Throw _ s' =>
             DB.get key (m_db s') = DB.get key (m_db s)
             /\ other_members s' = other_members s
         | Spin => False
         end).
Proof.
  intros Hkey.
  pose proof (frame_of_get transaction_index key Hkey) as Hf.
  split; [| split].
  - intros b h ti.
    pose proof (frame_pushTransaction transaction_index _
                  (DB.get key (m_db s), other_members s) Hf b h ti
                  ltac:(auto) s eq_refl) as Hp.
    destruct (pushTransaction b h ti s) as [r s' | e s' |];
      [| | exact I];
      (split; [exact (f_equal fst Hp) | exact (f_equal snd Hp)]).
  - intros t h.
    pose proof (frame_popTransaction transaction_index _ Hf t h ltac:(auto) s) as Hp.
    destruct (popTransaction t h s) as [r s' | e s' |];
      [| | exact Hp];
      (split; [exact (f_equal fst Hp) | exact (f_equal snd Hp)]).
  - intros b h.
    pose proof (frame_popTransactions transaction_index _ Hf b h ltac:(auto) s) as Hp.
    destruct (popTransactions b h s) as [r s' | e s' |];
      [| | exact Hp];
      (split; [exact (f_equal fst Hp) | exact (f_equal snd Hp)]).
Qed.

End Frames.

(** ** A block that spends a spent key image *)

Section Rejection.
Context `{Currency, Checkpoints, FormatUtils, InputChecks, TxPool}.
Local Open Scope engine_scope.

Lemma keeps_reads {A B} (f : Blockchain -> B) (m : E A) :
  keeps (fun s => s) m -> keeps f m.
Proof.
  intros Hk s. specialize (Hk s).
  destruct (m s) as [a s' | e s' |]; [congruence | congruence | exact Hk].
Qed.

Lemma other_members_with_height (s : Blockchain) :
  other_members (with_height (m_height s) s) = other_members s.
Proof. destruct s. reflexivity. Qed.

Section PushFrame.
Context (W : DB.Prefix -> bool) {B : Type} (f : Blockchain -> B) (c : B).
Hypothesis Hf : frame_of W f.
Hypothesis HW : forall p, transaction_index p = true -> W p = true.

Lemma frame_push_block_transactions (mh : Hash) :
  forall (txs : list Transaction) (hashes : list Hash) (st : push_loop_state),
    invariant (fun s => f s = c) (push_block_transactions txs hashes mh st).
Proof.
  induction txs as [| t txs IH]; intros hashes st; cbn [push_block_transactions].
  - apply invariant_ret.
  - destruct hashes as [| tx_id hashes]; [apply invariant_throw |].
    apply invariant_bind; [apply keeps_invariant, keeps_get_state | intros s0].
    apply invariant_bind.
    { destruct (negb _); [| apply invariant_ret].
      apply keeps_invariant, keeps_reads. unfold checkTransactionInputs.
      apply check_inputs_from_reads. }
    intros inputs_ok. destruct (negb inputs_ok).
    + apply invariant_bind; [| intros _; apply invariant_ret].
      apply keeps_invariant. apply (frame_popTransactions W f Hf). exact HW.
    + apply invariant_bind; [apply (frame_pushTransaction W f c Hf); exact HW |].
      intros [ok block2]. apply IH.
Qed.

End PushFrame.

(** The common part of the claim: with [K] spent and a transaction of the
    block spending it, outside the checkpoint zone. *)
Lemma pushBlock_transactions_spent {B} (f : Blockchain -> B)
    (fuel : nat) (b : Block) (txs : list Transaction) (blockHash : Hash)
    (bvc : block_verification_context) (s : Blockchain)
    (t : Transaction) (K : KeyImage) :
  frame_of transaction_index f ->
  f (with_height (m_height s) s) = f s ->
  is_in_checkpoint_zone (m_height s) = false ->
  m_height s
  = (if DB.cur_end (DB.rbegin DB.BLOCK_INDEX_PREFIX None (m_db s)) then 0
     else u32 (DB.get_suffix (DB.rbegin DB.BLOCK_INDEX_PREFIX None (m_db s)) + 1)) ->
  In t txs -> spends K (inputs t) ->
  have_tx_keyimg_as_spent K s = true ->
  match pushBlock_transactions fuel b txs blockHash bvc s with
  | Ret (ok, bvc') s' =>
      ok = false
      /\ (bvc' = set_verification_failed bvc
          \/ bvc' = bvc /\ turned_down_quietly b s)
      /\ f s' = f s
  | Throw _ s' => f s' = f s
  | Spin => True
  end.
Proof.
  intros Hf Hfh Hzone Hcons Hin Hsp Hspent.
  unfold pushBlock_transactions.
  destruct (negb (checkBlockVersion b)); [simpl; auto |].
  destruct ((BLOCK_MAJOR_VERSION_5 <=? majorVersion b)
            && getMergeMiningTagFromExtra (extra (baseTransaction b))) eqn:Hmm.
  { simpl. split; [reflexivity |]. split; [| reflexivity].
    right. split; [reflexivity |]. left. exact Hmm. }
  unfold bind at 1. unfold get_state at 1. cbv beta iota.
  destruct (negb (previousBlockHash b =? getTailId s)); [simpl; auto |].
  unfold getCurrentBlockchainHeight. rewrite Hzone. cbn [negb andb]. cbv iota.
  unfold bind at 1. unfold lift_option.
  destruct (check_block_timestamp_main fuel b s) as [[|] |];
    cbn [negb]; cbv iota; [| simpl; auto | exact I].
  destruct (Z.eqb_spec (getDifficultyForNextBlock s) 0) as [Hdiff | _].
  { simpl. split; [reflexivity |]. split; [| reflexivity].
    right. split; [reflexivity |]. right. exact Hdiff. }
  destruct (negb (checkProofOfWork b (getDifficultyForNextBlock s)));
    [simpl; auto |].
  destruct (negb (prevalidate_miner_transaction b (m_height s)));
    [simpl; auto |].
  unfold bind at 1.
  lazymatch goal with
  | |- context [match ?m s with Ret _ _ => _ | Throw _ _ => _ | Spin => Spin end] =>
      assert (Hnh : m s = Ret (m_height s) s \/ m s = Throw out_of_range s);
        [| destruct Hnh as [-> | ->]; [| reflexivity]]
  end.
  { rewrite Hcons. destruct (DB.cur_end _); [left; reflexivity |].
    unfold bind, integer_cast_u32.
    destruct (_ <=? 2 ^ 32 - 1); [left | right]; reflexivity. }
  unfold bind at 1. unfold modify at 1. cbv beta iota.
  unfold bind at 1. unfold get_state at 1. cbv beta iota.
  assert (Hs1 : spent_outside_zone K (with_height (m_height s) s)).
  { split; [exact Hspent | exact Hzone]. }
  unfold bind at 1.
  lazymatch goal with
  | |- context [pushTransaction ?blk ?h ?ti (with_height (m_height s) s)] =>
      pose proof (invariant_pushTransaction K blk h ti _ Hs1) as Hinv;
      pose proof (frame_pushTransaction transaction_index f (f s) Hf blk h ti
                    (fun p Hp => Hp) _ Hfh) as Hfr;
      destruct (pushTransaction blk h ti (with_height (m_height s) s))
        as [[ok block1] sa | e sa |]; [| exact Hfr | exact I]
  end.
  unfold bind at 1.
  lazymatch goal with
  | |- context [push_block_transactions txs ?hs ?mh ?st sa] =>
      pose proof (push_block_transactions_spent K mh txs hs st sa Hinv
                    (ex_intro _ t (conj Hin Hsp))) as Hloop;
      pose proof (frame_push_block_transactions transaction_index f (f s) Hf
                    (fun p Hp => Hp) mh txs hs st sa Hfr) as Hfr';
      destruct (push_block_transactions txs hs mh st sa) as [r sb | e sb |];
        [| exact Hfr' | exact I]
  end.
  subst r. simpl. auto.
Qed.

End Rejection.

(** C1 (amended). Outside the checkpoint zone, with the cached height in
    step with the height index, [pushBlock] never adds a block one of whose
    transactions has a [KeyInput] whose key image is in the spent-key-image
    index when the push starts (spent by an earlier block). When it
    returns, it returns false with the added-to-main-chain flag untouched;
    the verification-failed flag is set, except on the two exits that set
    no flag (the merge-mining tag from version 5 on, a next difficulty of
    zero), which return the context as they found it. Whichever way the
    call ends, every key of the store outside the indices that the
    transactions write reads as before, and so do the height, the
    alternative blocks and the other members of the state: the block is in
    the block store and in the height index only if it was. The same
    rejection holds inside the transaction loop from any point at which
    the key image is in the index; and a transaction that
    [pushTransaction] accepted has put its key images there, so that a
    later transaction of the same block spending one of them stops the
    loop. *)
Theorem pushBlock_rejects_spent_key_image
    `{Currency, Checkpoints, FormatUtils, InputChecks, TxPool}
    (fuel : nat) (b : Block) (txs : list Transaction) (blockHash : Hash)
    (bvc : block_verification_context) (s : Blockchain)
    (t : Transaction) (K : KeyImage) :
  is_in_checkpoint_zone (m_height s) = false ->
  m_height s
  = (if DB.cur_end (DB.rbegin DB.BLOCK_INDEX_PREFIX None (m_db s)) then 0
     else u32 (DB.get_suffix (DB.rbegin DB.BLOCK_INDEX_PREFIX None (m_db s)) + 1)) ->
  In t txs -> spends K (inputs t) ->
  have_tx_keyimg_as_spent K s = true ->
  match pushBlock_transactions fuel b txs blockHash bvc s with
  | Ret (ok, bvc') s' =>
      ok = false
      /\ m_added_to_main_chain bvc' = m_added_to_main_chain bvc
      /\ (bvc' = set_verification_failed bvc
          \/ bvc' = bvc /\ turned_down_quietly b s)
      /\ same_outside transaction_index s s'
      /\ haveBlock blockHash s' = haveBlock blockHash s
  | Throw _ s' =>
      same_outside transaction_index s s'
      /\ haveBlock blockHash s' = haveBlock blockHash s
  | Spin => True
  end
  /\ (forall hashes mh st s',
         spent_outside_zone K s' ->
         match push_block_transactions txs hashes mh st s' with
         | Ret r _ => r = None
         | Throw _ _ => True
         | Spin => True
         end)
  /\ (forall block_ h transactionIndex_ s',
         is_in_checkpoint_zone (m_height s') = false ->
         tx <$> transactions block_ !! Z.to_nat (transaction transactionIndex_)
         = Some t ->
         match pushTransaction block_ h transactionIndex_ s' with
         | Ret (ok, _) s'' => ok = true -> spent_outside_zone K s''
         | Throw _ _ => True
         | Spin => True
         end).
Proof.
  intros Hzone Hcons Hin Hsp Hspent.
  split;
    [| split;
       [ intros hashes mh st s' Hs';
         apply (push_block_transactions_spent K); [exact Hs' | eauto]
       | intros block_ h ti s' Hzone' Ht;
         destruct (transactions block_ !! Z.to_nat (transaction ti))
           as [te |] eqn:Hte; [| discriminate];
         injection Ht as <-;
         exact (pushTransaction_records K block_ h ti te s' Hzone' Hte Hsp) ]].
  assert (Hout : forall s',
             (forall key, transaction_index (fst key) = false ->
                          (DB.get key (m_db s'), other_members s')
                          = (DB.get key (m_db s), other_members s)) ->
             same_outside transaction_index s s'
             /\ haveBlock blockHash s' = haveBlock blockHash s).
  { intros s' Hs'.
    assert (Hso : same_outside transaction_index s s').
    { split.
      - intros key Hkey. exact (f_equal fst (Hs' key Hkey)).
      - exact (f_equal snd (Hs' (DB.BLOCK_PREFIX, 0) eq_refl)). }
    split; [exact Hso |]. destruct Hso as [Hget Hrest].
    unfold haveBlock. rewrite (Hget (DB.BLOCK_PREFIX, blockHash) eq_refl).
    replace (m_alternative_chains s') with (m_alternative_chains s);
      [reflexivity |].
    exact (eq_sym (f_equal m_alternative_chains Hrest)). }
  pose proof (fun key (Hkey : transaction_index (fst key) = false) =>
                pushBlock_transactions_spent
                  (fun x => (DB.get key (m_db x), other_members x))
                  fuel b txs blockHash bvc s t K
                  (frame_of_get transaction_index key Hkey)
                  (f_equal (pair _) (other_members_with_height s))
                  Hzone Hcons Hin Hsp Hspent) as Hrun.
  destruct (pushBlock_transactions fuel b txs blockHash bvc s)
    as [[ok bvc'] s' | e s' |]; [| | exact I].
  - destruct (Hrun (DB.BLOCK_PREFIX, 0) eq_refl) as (Hok & Hflag & _).
    split; [exact Hok |].
    split; [destruct Hflag as [-> | [-> _]]; reflexivity |].
    split; [exact Hflag |].
    apply Hout. intros key Hkey. exact (proj2 (proj2 (Hrun key Hkey))).
  - apply Hout. intros key Hkey. exact (Hrun key Hkey).
Qed.

Lemma pushBlock_rejects_spent_key_image_witness :
  let s := Example.after
             (Example.ingest 0 Example.block1_a
                (Example.after (Example.ingest 0 Example.genesis
                                  (Example.fresh Example.pool_ab)))) in
  @checkIfSpent Example.pool 9 s = true
  /\ match @pushBlock_transactions Example.currency Example.no_checkpoints
             (Example.format_utils 0) Example.input_checks Example.pool 10
             Example.block2_b [Example.spend_b]
             (Example.block_hash Example.block2_b) bvc_init s with
     | Ret (ok, bvc') s' =>
         ok = false
         /\ bvc' = set_verification_failed bvc_init
         /\ @haveBlock Example.pool (Example.block_hash Example.block2_b) s' = false
         /\ m_height s' = 2
     | Throw _ _ => False
     | Spin => False
     end.
Proof.
  intros s. split; [vm_compute; reflexivity |].
  pose proof (@pushBlock_rejects_spent_key_image Example.currency
                Example.no_checkpoints (Example.format_utils 0)
                Example.input_checks Example.pool 10 Example.block2_b
                [Example.spend_b] (Example.block_hash Example.block2_b) bvc_init
                s Example.spend_b 9
                ltac:(vm_compute; reflexivity) ltac:(vm_compute; reflexivity)
                ltac:(left; reflexivity)
                ltac:(exists {| ki_amount := 50; outputIndexes := [0]; keyImage := 9 |};
                      split; [left; reflexivity | reflexivity])
                ltac:(vm_compute; reflexivity)) as [Hpush _].
  destruct (pushBlock_transactions 10 Example.block2_b [Example.spend_b]
              (Example.block_hash Example.block2_b) bvc_init s)
    as [[ok bvc'] s' | e s' |] eqn:Hrun.
  - destruct Hpush as (Hok & _ & Hflag & [_ Hrest] & Hhave).
    split; [exact Hok |].
    split.
    + destruct Hflag as [Hf | [_ [Hq | Hq]]]; [exact Hf | |];
        vm_compute in Hq; discriminate Hq.
    + split.
      * rewrite Hhave. vm_compute. reflexivity.
      * change (m_height (other_members s') = 2). rewrite Hrest.
        vm_compute. reflexivity.
  - apply (f_equal (fun o => match o with Throw _ _ => true | _ => false end)) in Hrun.
    vm_compute in Hrun. discriminate Hrun.
  - apply (f_equal (fun o => match o with Spin => true | _ => false end)) in Hrun.
    vm_compute in Hrun. discriminate Hrun.
Defined.

(** C1, as stated, inside the checkpoint zone: [block2_b] carries a
    transaction spending key image 9, which [block1_a] spent and the index
    records; it is added to the main chain all the same. *)
Lemma spent_key_image_checkpoint_zone_counterexample :
  @checkIfSpent Example.pool 9 Example.zone2 = true
  /\ In (Example.tx_hash Example.spend_b) (transactionHashes Example.block2_b)
  /\ spends 9 (inputs Example.spend_b)
  /\ (exists s',
        Example.ingest_in_zone Example.block2_b Example.zone2
        = Ret (true, set_added_to_main_chain true bvc_init) s'
        /\ DB.get (DB.BLOCK_INDEX_PREFIX, 2) (m_db s')
           = Some (DB.VHash (Example.block_hash Example.block2_b))).
Proof.
  split; [reflexivity |].
  split; [left; reflexivity |].
  split.
  - eexists. split; [left; reflexivity | reflexivity].
  - eexists. split; vm_compute; reflexivity.
Qed.

Section Records.
Context `{Currency, Checkpoints, FormatUtils, InputChecks, TxPool}.
Local Open Scope engine_scope.

Lemma key_image_key_true (ins : list TransactionInput) (key : DB.Key) :
  key_image_key ins key = true
  <-> exists k, In (InKey k) ins
                /\ key = (DB.SPENT_KEY_IMAGES_INDEX_PREFIX, keyImage k).
Proof.
  unfold key_image_key. rewrite existsb_exists. split.
  - intros (i & Hin & Hi). destruct i as [bi | k | mi]; try discriminate.
    exists k. split; [exact Hin | apply key_eqb_eq; exact Hi].
  - intros (k & Hin & ->). exists (InKey k). split; [exact Hin | apply key_eqb_refl].
Qed.

Lemma key_image_key_prefix (ins : list TransactionInput) (key : DB.Key) :
  fst key <> DB.SPENT_KEY_IMAGES_INDEX_PREFIX -> key_image_key ins key = false.
Proof.
  intros Hp. destruct (key_image_key ins key) eqn:Hk; [| reflexivity].
  apply key_image_key_true in Hk. destruct Hk as (k & _ & ->). simpl in Hp. congruence.
Qed.

Lemma push_key_images_true (h : Z) (tkey : DB.Key) :
  forall (ins prev : list TransactionInput) (s : Blockchain),
    match push_key_images h tkey prev ins s with
    | Ret ok s' =>
        ok = true ->
        forall key,
          if key_image_key ins key
          then DB.get key (m_db s) = None
               /\ DB.get key (m_db s') = Some (DB.VVarint h)
          else DB.get key (m_db s') = DB.get key (m_db s)
    | Throw _ _ => True
    | Spin => True
    end.
Proof.
  induction ins as [| i ins IH]; intros prev s.
  - simpl. intros _ key. reflexivity.
  - destruct i as [bi | k | mi]; cbn [push_key_images key_image_key existsb orb];
      try apply IH.
    fold (key_image_key ins).
    unfold bind at 1. unfold try_catch_runtime_error.
    unfold bind at 1. unfold db_put at 1.
    destruct (DB.put _ _ true (m_db s)) as [db' |] eqn:Hput.
    + cbn [ret]. cbv beta iota.
      apply put_nooverwrite_absent in Hput. destruct Hput as [Habs ->].
      specialize (IH (InKey k :: prev)
                    (with_db (DB.insert (DB.SPENT_KEY_IMAGES_INDEX_PREFIX, keyImage k)
                                (DB.VVarint h) (m_db s)) s)).
      destruct (push_key_images h tkey (InKey k :: prev) ins _) as [ok s' | e s' |];
        [| exact I | exact I].
      intros Hok key. specialize (IH Hok key). cbn [m_db with_db] in IH.
      destruct (key_eqb_spec key (DB.SPENT_KEY_IMAGES_INDEX_PREFIX, keyImage k))
        as [-> | Hne]; cbn [orb].
      * destruct (key_image_key ins _).
        -- destruct IH as [Hnone _]. rewrite get_insert_eq in Hnone. discriminate.
        -- rewrite get_insert_eq in IH. split; [exact Habs | exact IH].
      * rewrite get_insert_ne in IH by exact Hne. exact IH.
    + pose proof (key_image_handler_false prev tkey s) as Hh.
      destruct ((erase_key_images prev ;; db_del tkey true ;; ret false) s)
        as [ok s2 | e s2 |]; [| exact I | exact I].
      subst ok. cbn. discriminate.
Qed.

(** X10. When [pushTransaction] returns true, the transaction hash was
    not indexed before and [getTransactionIndex] now returns the index
    given; each key image of the transaction was unspent before and is
    now recorded with the height of the block; and a payment id of the
    transaction lists the hash after those it listed before. *)
Theorem pushTransaction_records_indices (b : BlockEntry) (h : Hash)
    (ti : TransactionIndex) (s : Blockchain) :
  match pushTransaction b h ti s with
  | Ret (ok, _) s' =>
      ok = true ->
      haveTransaction h s = false
      /\ getTransactionIndex h s' = Ret (Some ti) s'
      /\ exists t,
           transactions b !! Z.to_nat (transaction ti) = Some t
           /\ (forall k, In (InKey k) (inputs (tx t)) ->
                         checkIfSpent (keyImage k) s = false
                         /\ DB.get (DB.SPENT_KEY_IMAGES_INDEX_PREFIX, keyImage k) (m_db s')
                            = Some (DB.VVarint (height b)))
           /\ (forall p, getPaymentId (tx t) = Some p ->
                         exists before,
                           getTransactionIdsByPaymentId p s = Ret before s
                           /\ getTransactionIdsByPaymentId p s'
                              = Ret (Some (default [] before ++ [h])) s')
  | Throw _ _ => True
  | Spin => True
  end.
Proof.
  unfold pushTransaction.
  unfold bind at 1. unfold try_catch_runtime_error.
  unfold bind at 1. unfold db_put at 1.
  destruct (DB.put _ _ true (m_db s)) as [db1 |] eqn:Hput; [| cbn; discriminate].
  cbn [ret negb]. cbv beta iota.
  apply put_nooverwrite_absent in Hput. destruct Hput as [Habs ->].
  set (tkey := (DB.TRANSACTIONS_INDEX_PREFIX, h)) in *.
  set (s1 := with_db (DB.insert tkey (DB.VTransactionIndex ti) (m_db s)) s).
  destruct (transactions b !! Z.to_nat (transaction ti)) as [t |]; [| exact I].
  destruct (negb (checkMultisignatureInputsDiff (tx t))).
  { unfold bind, db_del.
    destruct (DB.del tkey true (m_db s1)) as [db2 |]; [cbn; discriminate | exact I]. }
  unfold bind at 1.
  pose proof (push_key_images_true (height b) tkey (inputs (tx t)) [] s1) as Hkeys.
  destruct (push_key_images (height b) tkey [] (inputs (tx t)) s1)
    as [ok s2 | e s2 |]; [| exact I | exact I].
  destruct ok; cbn [negb]; cbv iota; [| cbn; discriminate].
  specialize (Hkeys eq_refl).
  (* the facts at [s2] *)
  assert (Ht2 : DB.get tkey (m_db s2) = Some (DB.VTransactionIndex ti)).
  { specialize (Hkeys tkey).
    rewrite key_image_key_prefix in Hkeys by (simpl; discriminate).
    rewrite Hkeys. subst s1. cbn [m_db with_db]. apply get_insert_eq. }
  assert (Hk2 : forall k, In (InKey k) (inputs (tx t)) ->
                          DB.get (DB.SPENT_KEY_IMAGES_INDEX_PREFIX, keyImage k) (m_db s) = None
                          /\ DB.get (DB.SPENT_KEY_IMAGES_INDEX_PREFIX, keyImage k) (m_db s2)
                             = Some (DB.VVarint (height b))).
  { intros k Hin.
    specialize (Hkeys (DB.SPENT_KEY_IMAGES_INDEX_PREFIX, keyImage k)).
    replace (key_image_key (inputs (tx t)) _) with true in Hkeys
      by (symmetry; apply key_image_key_true; exists k; split; [exact Hin | reflexivity]).
    destruct Hkeys as [Hnone Hsome]. split; [| exact Hsome].
    subst s1. cbn [m_db with_db] in Hnone.
    rewrite get_insert_ne in Hnone by discriminate. exact Hnone. }
  assert (Hp2 : forall p, DB.get (DB.PAYMENT_ID_INDEX_PREFIX, p) (m_db s2)
                          = DB.get (DB.PAYMENT_ID_INDEX_PREFIX, p) (m_db s)).
  { intros p. specialize (Hkeys (DB.PAYMENT_ID_INDEX_PREFIX, p)).
    rewrite key_image_key_prefix in Hkeys by (simpl; discriminate).
    rewrite Hkeys. subst s1. cbn [m_db with_db].
    apply get_insert_ne. discriminate. }
  clearbody s1. clear Hkeys.
  (* the two output loops write "m/" and "o/" only *)
  unfold bind at 1.
  destruct (push_multisignature_inputs (inputs (tx t)) s2) as [[] s3 | e s3 |] eqn:Hms;
    [| exact I | exact I].
  assert (H23 : forall key, output_index (fst key) = false ->
                            DB.get key (m_db s3) = DB.get key (m_db s2)).
  { intros key Hkey.
    pose proof (frame_push_multisignature_inputs output_index _
                  (DB.get key (m_db s2), other_members s2)
                  (frame_of_get output_index key Hkey) (inputs (tx t)) eq_refl
                  s2 eq_refl) as Hinv.
    rewrite Hms in Hinv. exact (f_equal fst Hinv). }
  destruct (65535 <? Z.of_nat (length (outputs (tx t)))); [exact I |].
  unfold bind at 1.
  lazymatch goal with
  | |- context [push_outputs ti 0 ?outs ?te s3] =>
      destruct (push_outputs ti 0 outs te s3) as [t' s4 | e s4 |] eqn:Hout;
        [| exact I | exact I];
      assert (H34 : forall key, output_index (fst key) = false ->
                                DB.get key (m_db s4) = DB.get key (m_db s3));
        [ intros key Hkey;
          pose proof (frame_push_outputs output_index _
                        (DB.get key (m_db s3), other_members s3)
                        (frame_of_get output_index key Hkey) ti outs eq_refl eq_refl
                        0 te s3 eq_refl) as Hinv;
          rewrite Hout in Hinv; exact (f_equal fst Hinv) |]
  end.
  assert (Ht4 : DB.get tkey (m_db s4) = Some (DB.VTransactionIndex ti))
    by (rewrite H34, H23 by reflexivity; exact Ht2).
  assert (Hk4 : forall k, In (InKey k) (inputs (tx t)) ->
                          checkIfSpent (keyImage k) s = false
                          /\ DB.get (DB.SPENT_KEY_IMAGES_INDEX_PREFIX, keyImage k) (m_db s4)
                             = Some (DB.VVarint (height b))).
  { intros k Hin. destruct (Hk2 k Hin) as [Hnone Hsome]. split.
    - unfold checkIfSpent. rewrite Hnone. reflexivity.
    - rewrite H34, H23 by reflexivity. exact Hsome. }
  assert (Hp4 : forall p, DB.get (DB.PAYMENT_ID_INDEX_PREFIX, p) (m_db s4)
                          = DB.get (DB.PAYMENT_ID_INDEX_PREFIX, p) (m_db s))
    by (intros p; rewrite H34, H23 by reflexivity; apply Hp2).
  assert (Hhave : haveTransaction h s = false)
    by (unfold haveTransaction; fold tkey; rewrite Habs; reflexivity).
  destruct (getPaymentId (tx t)) as [paymentId |] eqn:Hpid.
  2:{ cbn [ret]. intros _. split; [exact Hhave |]. split.
      - unfold getTransactionIndex, bind, db_get. fold tkey. rewrite Ht4. reflexivity.
      - exists t. split; [reflexivity |]. split; [exact Hk4 |].
        intros p Hp. rewrite Hpid in Hp. discriminate Hp. }
  unfold bind at 1, db_get at 1. cbv beta iota.
  set (pkey := (DB.PAYMENT_ID_INDEX_PREFIX, paymentId)) in *.
  assert (Hfinal : forall pe,
             default [] (match DB.get pkey (m_db s4) with
                         | Some (DB.VPaymentIdEntry l) => Some l
                         | _ => None
                         end) = pe ->
             (DB.get pkey (m_db s4) = None
              \/ DB.get pkey (m_db s4) = Some (DB.VPaymentIdEntry pe)) ->
             forall s5,
               s5 = with_db (DB.insert pkey (DB.VPaymentIdEntry (pe ++ [h])) (m_db s4)) s4 ->
               haveTransaction h s = false
               /\ getTransactionIndex h s5 = Ret (Some ti) s5
               /\ exists t0,
                    Some t = Some t0
                    /\ (forall k, In (InKey k) (inputs (tx t0)) ->
                                  checkIfSpent (keyImage k) s = false
                                  /\ DB.get (DB.SPENT_KEY_IMAGES_INDEX_PREFIX, keyImage k)
                                       (m_db s5) = Some (DB.VVarint (height b)))
                    /\ (forall p, getPaymentId (tx t0) = Some p ->
                                  exists before,
                                    getTransactionIdsByPaymentId p s = Ret before s
                                    /\ getTransactionIdsByPaymentId p s5
                                       = Ret (Some (default [] before ++ [h])) s5)).
  { intros pe Hpe Hcase s5 ->. split; [exact Hhave |]. split.
    - unfold getTransactionIndex, bind, db_get. cbn [m_db with_db]. fold tkey.
      rewrite get_insert_ne by discriminate. rewrite Ht4. reflexivity.
    - exists t. split; [reflexivity |]. split.
      + intros k Hin. destruct (Hk4 k Hin) as [Hfresh Hsome]. split; [exact Hfresh |].
        cbn [m_db with_db]. rewrite get_insert_ne by discriminate. exact Hsome.
      + intros p Hp. rewrite Hpid in Hp. injection Hp as <-. fold pkey.
        unfold getTransactionIdsByPaymentId, bind, db_get. fold pkey.
        cbn [m_db with_db]. rewrite get_insert_eq.
        pose proof (Hp4 paymentId) as Hp4'.
        change (DB.get pkey (m_db s4) = DB.get pkey (m_db s)) in Hp4'.
        rewrite <- Hp4'.
        destruct Hcase as [Hc | Hc]; rewrite Hc in *.
        * exists None. split; [reflexivity |]. subst pe. reflexivity.
        * exists (Some pe). split; reflexivity. }
  destruct (DB.get pkey (m_db s4)) as [[| | | | | | pe | |] |] eqn:Hp; try exact I.
  - unfold try_catch_runtime_error, bind, db_put, DB.put. rewrite Hp.
    cbn [ret]. intros _. eapply (Hfinal pe); [reflexivity | right; reflexivity | reflexivity].
  - unfold try_catch_runtime_error, bind, db_put, DB.put. rewrite Hp.
    cbn [ret]. intros _.
    eapply (Hfinal []); [reflexivity | left; reflexivity | reflexivity].
Qed.

End Records.

Section PopPush.
Context `{Currency, Checkpoints, FormatUtils, InputChecks, TxPool}.
Local Open Scope engine_scope.

Lemma del_none_iff k db : DB.del k true db = None <-> DB.get k db = None.
Proof. unfold DB.del. destruct (DB.get k db); split; congruence. Qed.

Lemma invariant_absent_db_del (key k : DB.Key) (b : bool) :
  invariant (fun s => DB.get key (m_db s) = None) (db_del k b).
Proof.
  intros s Hs. unfold db_del.
  destruct (DB.del k b (m_db s)) as [db' |] eqn:Hd; [| exact Hs].
  cbn [m_db with_db].
  destruct (key_eqb_spec key k) as [-> | Hne].
  - eapply del_get_eq. exact Hd.
  - rewrite (del_get_ne _ _ _ _ _ Hd Hne). exact Hs.
Qed.

Lemma invariant_absent_pop_inputs (key : DB.Key) (ins : list TransactionInput) :
  invariant (fun s => DB.get key (m_db s) = None) (pop_inputs ins).
Proof.
  induction ins as [| i ins IH]; simpl; [apply invariant_ret |].
  destruct i as [bi | k | mi].
  - exact IH.
  - apply invariant_bind; [apply invariant_absent_db_del | intros _; exact IH].
  - apply invariant_bind; [intros s Hs; exact Hs | intros ba].
    destruct ba as [[| | | | | me | | |] |]; try apply invariant_throw; [| exact IH].
    destruct (me !! _); [exact IH | apply invariant_throw].
Qed.

Lemma pop_inputs_removes (ins : list TransactionInput) :
  forall s,
    match pop_inputs ins s with
    | Ret _ s' =>
        forall k, In (InKey k) ins ->
                  DB.get (DB.SPENT_KEY_IMAGES_INDEX_PREFIX, keyImage k) (m_db s') = None
    | Throw _ _ => True
    | Spin => True
    end.
Proof.
  induction ins as [| i ins IH]; intros s; [intros k [] |].
  assert (Hskip : (forall k, i <> InKey k) ->
                  forall s1,
                    match pop_inputs ins s1 with
                    | Ret _ s' =>
                        forall k, In (InKey k) (i :: ins) ->
                          DB.get (DB.SPENT_KEY_IMAGES_INDEX_PREFIX, keyImage k) (m_db s')
                          = None
                    | Throw _ _ => True
                    | Spin => True
                    end).
  { intros Hi s1. specialize (IH s1).
    destruct (pop_inputs ins s1); [| exact I | exact I].
    intros k [Hk | Hk]; [exfalso; exact (Hi k Hk) | exact (IH k Hk)]. }
  destruct i as [bi | k | mi]; cbn [pop_inputs].
  - apply Hskip. discriminate.
  - unfold bind, db_del.
    destruct (DB.del _ true (m_db s)) as [db' |] eqn:Hd; [| exact I].
    specialize (IH (with_db db' s)).
    pose proof (invariant_absent_pop_inputs
                  (DB.SPENT_KEY_IMAGES_INDEX_PREFIX, keyImage k) ins (with_db db' s)
                  (del_get_eq _ _ _ _ Hd)) as Hk.
    destruct (pop_inputs ins (with_db db' s)); [| exact I | exact I].
    intros k' [[= <-] | Hin]; [exact Hk | exact (IH k' Hin)].
  - unfold bind at 1, db_get at 1. cbv beta iota.
    destruct (DB.get _ (m_db s)) as [[| | | | | me | | |] |]; try exact I.
    + destruct (me !! _); [| exact I]. apply Hskip. discriminate.
    + apply Hskip. discriminate.
Qed.

(** X11. [popTransaction] always stops. When it returns, the transaction
    hash is no longer indexed; if it was not indexed to begin with,
    nothing has changed; if it was, none of the key images of the
    transaction is spent any more. *)
Theorem popTransaction_removes (t : Transaction) (h : Hash) (s : Blockchain) :
  match popTransaction t h s with
  | Ret _ s' =>
      haveTransaction h s' = false
      /\ (haveTransaction h s = false -> s' = s)
      /\ (haveTransaction h s = true ->
          forall k, In (InKey k) (inputs t) -> checkIfSpent (keyImage k) s' = false)
  | Throw _ _ => True
  | Spin => False
  end.
Proof.
  pose proof (keeps_popTransaction m_height t h frame_m_height s) as Hspin.
  destruct (popTransaction t h s) as [[] s' | e s' |] eqn:Hrun;
    [clear Hspin | exact I | exact Hspin].
  revert Hrun. unfold popTransaction, haveTransaction.
  unfold bind at 1, getTransactionIndex at 1, bind at 1, db_get at 1.
  cbv beta iota.
  destruct (DB.get (DB.TRANSACTIONS_INDEX_PREFIX, h) (m_db s))
    as [[| | i | | | | | |] |] eqn:Hidx; try discriminate.
  2:{ cbn. intros [= <-]. rewrite Hidx. split; [reflexivity |].
      split; [reflexivity | discriminate]. }
  cbn [ret]. cbv beta iota.
  unfold bind at 1.
  destruct (pop_outputs i _ _ s) as [[] s1 | e1 s1 |]; try discriminate.
  unfold bind at 1.
  pose proof (pop_inputs_removes (inputs t) s1) as Hin.
  destruct (pop_inputs (inputs t) s1) as [[] s2 | e2 s2 |]; try discriminate.
  unfold bind at 1. cbv beta.
  assert (Hpay : forall (m : E unit) s3,
             (exists k b, m = db_del k b) \/ m = ret tt ->
             m s2 = Ret tt s3 ->
             forall key, DB.get key (m_db s2) = None -> DB.get key (m_db s3) = None).
  { intros m s3 [(k & b & ->) | ->] Hm key Hk.
    - pose proof (invariant_absent_db_del key k b s2 Hk) as Hi.
      rewrite Hm in Hi. exact Hi.
    - injection Hm as <-. exact Hk. }
  lazymatch goal with
  | |- match ?m with Ret _ _ => _ | Throw _ _ => _ | Spin => Spin end = _ -> _ =>
      destruct m as [[] s3 | e3 s3 |] eqn:Hp; try discriminate
  end.
  assert (H23 : forall key, DB.get key (m_db s2) = None -> DB.get key (m_db s3) = None).
  { destruct (getPaymentId t) as [pid |].
    - apply (Hpay (db_del (DB.PAYMENT_ID_INDEX_PREFIX, pid) false) s3); [| exact Hp].
      left. eauto.
    - apply (Hpay (ret tt) s3); [right; reflexivity | exact Hp]. }
  unfold try_catch_runtime_error, db_del.
  destruct (DB.del (DB.TRANSACTIONS_INDEX_PREFIX, h) true (m_db s3)) as [db4 |] eqn:Hd.
  - intros [= <-]. cbn [m_db with_db].
    rewrite (del_get_eq _ _ _ _ Hd). split; [reflexivity |].
    split; [discriminate |]. intros _ k Hk. unfold checkIfSpent. cbn [m_db with_db].
    rewrite (del_get_ne _ _ _ _ _ Hd) by discriminate.
    rewrite (H23 _ (Hin k Hk)). reflexivity.
  - cbn. intros [= <-]. apply del_none_iff in Hd. rewrite Hd.
    split; [reflexivity |]. split; [discriminate |].
    intros _ k Hk. unfold checkIfSpent. rewrite (H23 _ (Hin k Hk)). reflexivity.
Qed.

Lemma pushBlock_entry_post (block_ : BlockEntry) (blockHash : Hash) (s : Blockchain) :
  match pushBlock_entry block_ blockHash s with
  | Ret r s' =>
      r = true
      /\ DB.get (DB.BLOCK_PREFIX, blockHash) (m_db s) = None
      /\ DB.get (DB.BLOCK_INDEX_PREFIX, height block_) (m_db s) = None
      /\ haveBlock blockHash s' = true
      /\ getBlockByHash blockHash s' = Some (bl block_)
      /\ getBlockHeight blockHash s' = Some (height block_)
      /\ getBlockIdByHeight_hash (height block_) s' = Some blockHash
      /\ getBlockEntryByHeight (height block_) s' = Some block_
      /\ getCurrentBlockchainHeight s' = u32 (height block_ + 1)
  | Throw e _ => e = runtime_error
  | Spin => False
  end.
Proof.
  unfold pushBlock_entry.
  unfold bind at 1, db_put at 1.
  destruct (DB.put _ _ true (m_db s)) as [db1 |] eqn:Hp1; [| reflexivity].
  apply put_nooverwrite_absent in Hp1. destruct Hp1 as [Hfresh1 ->].
  unfold bind at 1, db_put at 1. cbn [m_db with_db].
  destruct (DB.put _ _ true _) as [db2 |] eqn:Hp2; [| reflexivity].
  apply put_nooverwrite_absent in Hp2. destruct Hp2 as [Hfresh2 ->].
  rewrite get_insert_ne in Hfresh2 by discriminate.
  set (db2 := DB.insert (DB.BLOCK_INDEX_PREFIX, height block_) (DB.VHash blockHash)
                (DB.insert (DB.BLOCK_PREFIX, blockHash) (DB.VBlockEntry block_) (m_db s))).
  assert (HB2 : DB.get (DB.BLOCK_PREFIX, blockHash) db2 = Some (DB.VBlockEntry block_)).
  { subst db2. rewrite get_insert_ne by discriminate. apply get_insert_eq. }
  assert (Hb2 : DB.get (DB.BLOCK_INDEX_PREFIX, height block_) db2 = Some (DB.VHash blockHash)).
  { subst db2. apply get_insert_eq. }
  clearbody db2.
  (* the rest writes "T/" and "g/" *)
  assert (Hend : forall db3 n,
             DB.get (DB.BLOCK_PREFIX, blockHash) db3 = Some (DB.VBlockEntry block_) ->
             DB.get (DB.BLOCK_INDEX_PREFIX, height block_) db3 = Some (DB.VHash blockHash) ->
             match
               ((if 0 <? height block_
                 then
                   s0 <- get_state ;;
                   modify (with_lastGeneratedTxNumber
                             (u64 (m_lastGeneratedTxNumber s0 +
                                   (Z.of_nat (length (transactionHashes (bl block_))) + 1)))) ;;
                   db_put (DB.GENERATED_TRANSACTIONS_INDEX_PREFIX, height block_)
                     (DB.VVarint
                        (u64 (m_lastGeneratedTxNumber s0 +
                              (Z.of_nat (length (transactionHashes (bl block_))) + 1))))
                     true
                 else ret tt) ;;
                modify (with_height (u32 (height block_ + 1))) ;; ret true)
                 (with_lastGeneratedTxNumber n (with_db db3 s))
             with
             | Ret r s' =>
                 r = true
                 /\ DB.get (DB.BLOCK_PREFIX, blockHash) (m_db s) = None
                 /\ DB.get (DB.BLOCK_INDEX_PREFIX, height block_) (m_db s) = None
                 /\ haveBlock blockHash s' = true
                 /\ getBlockByHash blockHash s' = Some (bl block_)
                 /\ getBlockHeight blockHash s' = Some (height block_)
                 /\ getBlockIdByHeight_hash (height block_) s' = Some blockHash
                 /\ getBlockEntryByHeight (height block_) s' = Some block_
                 /\ getCurrentBlockchainHeight s' = u32 (height block_ + 1)
             | Throw e _ => e = runtime_error
             | Spin => False
             end).
  { intros db3 n HB Hb.
    assert (Hfin : forall db4 n',
               DB.get (DB.BLOCK_PREFIX, blockHash) db4 = Some (DB.VBlockEntry block_) ->
               DB.get (DB.BLOCK_INDEX_PREFIX, height block_) db4 = Some (DB.VHash blockHash) ->
               let s' := with_height (u32 (height block_ + 1))
                           (with_db db4 (with_lastGeneratedTxNumber n' s)) in
               true = true
               /\ DB.get (DB.BLOCK_PREFIX, blockHash) (m_db s) = None
               /\ DB.get (DB.BLOCK_INDEX_PREFIX, height block_) (m_db s) = None
               /\ haveBlock blockHash s' = true
               /\ getBlockByHash blockHash s' = Some (bl block_)
               /\ getBlockHeight blockHash s' = Some (height block_)
               /\ getBlockIdByHeight_hash (height block_) s' = Some blockHash
               /\ getBlockEntryByHeight (height block_) s' = Some block_
               /\ getCurrentBlockchainHeight s' = u32 (height block_ + 1)).
    { intros db4 n' HB4 Hb4 s'.
      unfold haveBlock, getBlockByHash, getBlockHeight, getBlockIdByHeight_hash,
        getBlockEntryByHeight, getCurrentBlockchainHeight.
      subst s'. cbn [m_db m_height with_height with_db with_lastGeneratedTxNumber].
      rewrite HB4, Hb4. cbn. rewrite HB4. repeat split; assumption. }
    destruct (0 <? height block_).
    - unfold bind at 1. unfold bind at 1. unfold get_state at 1. cbv beta iota.
      unfold bind at 1. unfold modify at 1. cbv beta iota.
      unfold db_put. cbn [m_db with_db with_lastGeneratedTxNumber].
      destruct (DB.put _ _ true db3) as [db4 |] eqn:Hp4; [| reflexivity].
      cbn [bind modify ret]. unfold bind, modify, ret.
      apply (Hfin db4).
      + rewrite (put_get_ne _ _ _ _ _ _ Hp4) by discriminate. exact HB.
      + rewrite (put_get_ne _ _ _ _ _ _ Hp4) by discriminate. exact Hb.
    - unfold bind, modify, ret. apply (Hfin db3 n); assumption. }
  unfold bind at 1, db_get at 1. cbv beta iota. cbn [m_db with_db].
  destruct (DB.get (DB.TIMESTAMP_INDEX_PREFIX, timestamp (bl block_)) db2)
    as [[| | | | | | | tse |] |] eqn:HT; try reflexivity.
  - unfold bind at 1, db_put at 1. cbn [m_db with_db].
    destruct (DB.put _ _ false db2) as [db3 |] eqn:Hp3; [| reflexivity].
    apply (Hend db3 (m_lastGeneratedTxNumber s)).
    + rewrite (put_get_ne _ _ _ _ _ _ Hp3) by discriminate. exact HB2.
    + rewrite (put_get_ne _ _ _ _ _ _ Hp3) by discriminate. exact Hb2.
  - unfold bind at 1, db_put at 1. cbn [m_db with_db].
    destruct (DB.put _ _ false db2) as [db3 |] eqn:Hp3; [| reflexivity].
    apply (Hend db3 (m_lastGeneratedTxNumber s)).
    + rewrite (put_get_ne _ _ _ _ _ _ Hp3) by discriminate. exact HB2.
    + rewrite (put_get_ne _ _ _ _ _ _ Hp3) by discriminate. exact Hb2.
Qed.

(** X12. [pushBlock(BlockEntry&, hash)] throws [std::runtime_error] with
    the state as it was when the hash is already a block of the main
    chain. It always stops, and throws nothing else. When it returns, it
    returns true; the hash and the height of the entry were both free
    before; and now [haveBlock], [getBlockByHash], [getBlockHeight],
    [getBlockIdByHeight] and [getBlockEntryByHeight] find the block, its
    height, its hash and its entry, and the cached height is the height
    of the entry plus one (in 32 bits). *)
Theorem pushBlock_entry_lookup (block_ : BlockEntry) (blockHash : Hash) (s : Blockchain) :
  (DB.get (DB.BLOCK_PREFIX, blockHash) (m_db s) <> None ->
   pushBlock_entry block_ blockHash s = Throw runtime_error s)
  /\ match pushBlock_entry block_ blockHash s with
     | Ret r s' =>
         r = true
         /\ DB.get (DB.BLOCK_PREFIX, blockHash) (m_db s) = None
         /\ DB.get (DB.BLOCK_INDEX_PREFIX, height block_) (m_db s) = None
         /\ haveBlock blockHash s' = true
         /\ getBlockByHash blockHash s' = Some (bl block_)
         /\ getBlockHeight blockHash s' = Some (height block_)
         /\ getBlockIdByHeight_hash (height block_) s' = Some blockHash
         /\ getBlockEntryByHeight (height block_) s' = Some block_
         /\ getCurrentBlockchainHeight s' = u32 (height block_ + 1)
     | Throw e _ => e = runtime_error
     | Spin => False
     end.
Proof.
  split; [| apply pushBlock_entry_post].
  intros Hdup. unfold pushBlock_entry, bind, db_put, DB.put.
  destruct (DB.get (DB.BLOCK_PREFIX, blockHash) (m_db s)); [reflexivity | congruence].
Qed.

End PopPush.

(** ** Pushing a block *)

Section Monad.
Context {S : Type}.

Lemma bind_Ret_inv {A B} (m : M S A) (k : A -> M S B) s r s' :
  bind m k s = Ret r s' -> exists a s1, m s = Ret a s1 /\ k a s1 = Ret r s'.
Proof. unfold bind. destruct (m s); [eauto | discriminate | discriminate]. Qed.

End Monad.

Section Push.
Context `{Currency, Checkpoints, FormatUtils, InputChecks, TxPool}.
Local Open Scope engine_scope.

Lemma pushTransaction_height (b : BlockEntry) (h : Hash) (ti : TransactionIndex)
    (s : Blockchain) :
  match pushTransaction b h ti s with
  | Ret (_, b') _ => height b' = height b /\ bl b' = bl b
  | Throw _ _ => True
  | Spin => True
  end.
Proof.
  destruct (pushTransaction b h ti s) as [[ok b'] s' | |] eqn:Hrun; [| exact I | exact I].
  revert Hrun. unfold pushTransaction.
  intros Hrun. apply bind_Ret_inv in Hrun as (ok0 & s1 & _ & Hrun).
  destruct (negb ok0); [injection Hrun as _ <- _; auto |].
  destruct (transactions b !! _) as [te |]; [| discriminate].
  destruct (negb (checkMultisignatureInputsDiff (tx te))).
  { apply bind_Ret_inv in Hrun as (? & ? & _ & Hrun). injection Hrun as _ <- _; auto. }
  apply bind_Ret_inv in Hrun as (ok1 & s2 & _ & Hrun).
  destruct (negb ok1); [injection Hrun as _ <- _; auto |].
  apply bind_Ret_inv in Hrun as (? & s3 & _ & Hrun).
  destruct (65535 <? _); [discriminate |].
  apply bind_Ret_inv in Hrun as (t' & s4 & _ & Hrun).
  destruct (getPaymentId (tx te)) as [pid |]; [| injection Hrun as _ <- _; auto].
  apply bind_Ret_inv in Hrun as (ba & s5 & _ & Hrun).
  destruct ba as [[| | | | | | pe | |] |]; try discriminate.
  - unfold try_catch_runtime_error, bind, db_put in Hrun.
    destruct (DB.put _ _ false _); [injection Hrun as _ <- _; auto |].
    injection Hrun as _ <- _; auto.
  - unfold try_catch_runtime_error, bind, db_put in Hrun.
    destruct (DB.put _ _ true _); [injection Hrun as _ <- _; auto |].
    injection Hrun as _ <- _; auto.
Qed.

Lemma push_block_transactions_height (txs : list Transaction) :
  forall hashes mth st s,
    match push_block_transactions txs hashes mth st s with
    | Ret (Some st') _ =>
        height (pl_block st') = height (pl_block st)
        /\ bl (pl_block st') = bl (pl_block st)
    | _ => True
    end.
Proof.
  induction txs as [| t txs IH]; intros hashes mth st s.
  - cbn. auto.
  - destruct (push_block_transactions (t :: txs) hashes mth st s)
      as [[st' |] s' | |] eqn:Hrun; try exact I.
    cbn [push_block_transactions] in Hrun.
    destruct hashes as [| tx_id hashes]; [discriminate |].
    apply bind_Ret_inv in Hrun as (s0 & s0' & _ & Hrun).
    apply bind_Ret_inv in Hrun as (inputs_ok & s1 & _ & Hrun).
    destruct (negb inputs_ok).
    { apply bind_Ret_inv in Hrun as (? & ? & _ & Hrun). discriminate. }
    apply bind_Ret_inv in Hrun as ([ok b2] & s2 & Hpt & Hrun).
    pose proof (pushTransaction_height (push_back_transaction t (pl_block st)) tx_id
                  {| block := block (pl_transactionIndex st);
                     transaction := (transaction (pl_transactionIndex st) + 1) mod 2 ^ 16 |}
                  s1) as Hh.
    rewrite Hpt in Hh. destruct Hh as [Hh Hb].
    specialize (IH hashes mth
                  {| pl_block := b2;
                     pl_transactionIndex :=
                       {| block := block (pl_transactionIndex st);
                          transaction := (transaction (pl_transactionIndex st) + 1) mod 2 ^ 16 |};
                     pl_cumulative_block_size :=
                       u64 (pl_cumulative_block_size st + getObjectBinarySize t);
                     pl_fee_summary :=
                       u64 (pl_fee_summary st + u64 (getInputAmount t - getOutputAmount t)) |}
                  s2).
    rewrite Hrun in IH. cbn [pl_block] in IH. destruct IH as [IH1 IH2].
    split; [rewrite IH1, Hh | rewrite IH2, Hb]; reflexivity.
Qed.

Ltac rejected Hrun :=
  injection Hrun as <- <- _;
  split; [discriminate | intros _; auto].

Lemma pushBlock_transactions_post (fuel : nat) (b : Block) (txs : list Transaction)
    (id : Hash) (bvc bvc' : block_verification_context) (ok : bool)
    (s s' : Blockchain) :
  pushBlock_transactions fuel b txs id bvc s = Ret (ok, bvc') s' ->
  (ok = true ->
   bvc' = set_added_to_main_chain true bvc
   /\ previousBlockHash b = getTailId s
   /\ DB.get (DB.BLOCK_PREFIX, id) (m_db s') <> None
   /\ getBlockByHash id s' = Some b
   /\ exists h,
       getBlockHeight id s' = Some h
       /\ getBlockIdByHeight_hash h s' = Some id
       /\ getCurrentBlockchainHeight s' = u32 (h + 1))
  /\ (ok = false -> bvc' = bvc \/ bvc' = set_verification_failed bvc).
Proof.
  unfold pushBlock_transactions. intros Hrun.
  destruct (negb (checkBlockVersion b)); [rejected Hrun |].
  destruct (_ && _); [rejected Hrun |].
  apply bind_Ret_inv in Hrun as (s0 & s0' & [= <- <-] & Hrun).
  destruct (Z.eqb_spec (previousBlockHash b) (getTailId s)) as [Hprev | _];
    cbn [negb] in Hrun; [| rejected Hrun].
  apply bind_Ret_inv in Hrun as (tok & s1 & _ & Hrun).
  destruct (negb tok); [rejected Hrun |].
  destruct (getDifficultyForNextBlock s =? 0); [rejected Hrun |].
  match type of Hrun with (if ?c then _ else _) _ = _ => destruct c end; [rejected Hrun |].
  destruct (_ && _); [rejected Hrun |].
  apply bind_Ret_inv in Hrun as (nh & s2 & _ & Hrun).
  apply bind_Ret_inv in Hrun as (? & s3 & _ & Hrun).
  apply bind_Ret_inv in Hrun as (s3' & s3'' & _ & Hrun).
  apply bind_Ret_inv in Hrun as ([ok1 block1] & s4 & _ & Hrun).
  apply bind_Ret_inv in Hrun as (r & s5 & Hloop & Hrun).
  destruct r as [st |]; [| rejected Hrun].
  apply bind_Ret_inv in Hrun as (s5' & s5'' & [= <- <-] & Hrun).
  destruct (negb (checkCumulativeBlockSize _ _)); [rejected Hrun |].
  match type of Hrun with
  | match ?v with Some _ => _ | None => _ end _ = _ =>
      destruct v as [[reward emissionChange] |]
  end.
  2:{ apply bind_Ret_inv in Hrun as (? & ? & _ & Hrun). rejected Hrun. }
  apply bind_Ret_inv in Hrun as (r6 & s6 & Hpe & Hrun).
  apply bind_Ret_inv in Hrun as (r7 & s7 & Hup & Hrun).
  injection Hrun as <- <- <-.
  split; [intros _ | discriminate].
  match type of Hpe with pushBlock_entry ?e _ _ = _ =>
    pose proof (pushBlock_entry_post e id s5) as Hpost end.
  rewrite Hpe in Hpost. cbn [bl height] in Hpost.
  destruct Hpost as (_ & _ & _ & Hhave & Hby & Hh & Hid & _ & Hcur).
  assert (Hs7 : m_db s7 = m_db s6 /\ m_height s7 = m_height s6).
  { unfold update_next_cumulative_size_limit, bind, get_state, modify, ret in Hup.
    injection Hup as _ <-. split; reflexivity. }
  destruct Hs7 as [Hdb Hmh].
  split; [reflexivity |]. split; [exact Hprev |].
  unfold getBlockByHash, getBlockHeight, getBlockIdByHeight_hash,
    getCurrentBlockchainHeight in *.
  rewrite Hdb, Hmh.
  destruct (DB.get (DB.BLOCK_PREFIX, id) (m_db s6)) as [v |] eqn:Hg; [| discriminate Hh].
  split; [discriminate |].
  split; [exact Hby |].
  eexists. split; [exact Hh |]. split; [exact Hid | exact Hcur].
Qed.

Lemma keeps_restore_taken {B} (f : Blockchain -> B) (taken : list Transaction) :
  (forall p s, f (with_tx_pool p s) = f s) -> keeps f (restore_taken taken).
Proof.
  intros Hf. induction taken as [| t taken IH]; cbn [restore_taken]; [apply keeps_ret |].
  apply keeps_bind; [apply keeps_get_state | intros s0].
  destruct (add_tx t (m_tx_pool s0)) as [ok p]. destruct (negb ok); [apply keeps_throw |].
  apply keeps_bind; [apply keeps_modify; intros; apply Hf | intros _; exact IH].
Qed.

Lemma keeps_loadTransactions {B} (f : Blockchain -> B) (b : Block) :
  (forall p s, f (with_tx_pool p s) = f s) -> keeps f (loadTransactions b).
Proof.
  intros Hf. unfold loadTransactions. generalize (@nil Transaction).
  induction (transactionHashes b) as [| h hashes IH]; intros taken;
    cbn [loadTransactions_from]; [apply keeps_ret |].
  apply keeps_bind; [apply keeps_get_state | intros s0].
  destruct (take_tx h (m_tx_pool s0)) as [[t p] |].
  - apply keeps_bind; [apply keeps_modify; intros; apply Hf | intros _; apply IH].
  - apply keeps_bind; [apply keeps_restore_taken, Hf | intros _; apply keeps_ret].
Qed.

(** X13. What [pushBlock] reports. When it returns true, the
    added-to-main-chain flag is set and nothing else of the context is
    touched; the block extended the tip ([previousBlockHash] was
    [getTailId()]); and the block is stored under its hash: [haveBlock]
    and [getBlockByHash] find it, at a height whose entry in the height
    index is the hash and whose successor is the cached height. When it
    returns false, the context is as it was, except possibly for the
    verification-failed flag. *)
Theorem pushBlock_post (fuel : nat) (b : Block) (id : Hash)
    (bvc : block_verification_context) (s : Blockchain) :
  match pushBlock fuel b id bvc s with
  | Ret (ok, bvc') s' =>
      if ok then
        bvc' = set_added_to_main_chain true bvc
        /\ previousBlockHash b = getTailId s
        /\ haveBlock id s' = true
        /\ getBlockByHash id s' = Some b
        /\ exists h,
            getBlockHeight id s' = Some h
            /\ getBlockIdByHeight_hash h s' = Some id
            /\ getCurrentBlockchainHeight s' = u32 (h + 1)
      else bvc' = bvc \/ bvc' = set_verification_failed bvc
  | Throw _ _ => True
  | Spin => True
  end.
Proof.
  destruct (pushBlock fuel b id bvc s) as [[ok bvc'] s' | |] eqn:Hrun; [| exact I | exact I].
  unfold pushBlock in Hrun.
  apply bind_Ret_inv in Hrun as ([loaded txs] & s1 & Hload & Hrun).
  destruct (negb loaded); [injection Hrun as <- <- _; auto |].
  apply bind_Ret_inv in Hrun as ([ok2 bvc2] & s2 & Hpush & Hrun).
  apply pushBlock_transactions_post in Hpush. destruct Hpush as [Hok Hfail].
  pose proof (keeps_loadTransactions getTailId b (fun _ _ => eq_refl) s) as Htail.
  rewrite Hload in Htail. rewrite Htail in Hok.
  destruct ok2; cbn [negb] in Hrun.
  - injection Hrun as <- <- <-.
    destruct (Hok eq_refl) as (Hb & Hprev & Hhave & Hby & Hh).
    split; [exact Hb |]. split; [exact Hprev |].
    split; [| split; [exact Hby | exact Hh]].
    unfold haveBlock. destruct (DB.get (DB.BLOCK_PREFIX, id) (m_db s2)); congruence.
  - apply bind_Ret_inv in Hrun as (? & ? & _ & Hrun). injection Hrun as <- <- _.
    exact (Hfail eq_refl).
Qed.

End Push.

(** ** Windows over the main chain, and orphans *)

Section Windows.
Context `{Currency, Checkpoints, FormatUtils, InputChecks, TxPool}.
Local Open Scope engine_scope.

Lemma backward_sizes_length (n : nat) (db : DB.t) (cur : DB.Cursor) :
  length (backward_sizes n db cur) = n.
Proof. revert cur. induction n as [| n IH]; intros cur; simpl; [| rewrite IH]; reflexivity. Qed.

(** X14. [get_last_n_blocks_sizes(sz, count)] always returns true and
    appends exactly [min(m_height, count)] sizes to [sz], whatever the
    store holds. *)
Theorem get_last_n_blocks_sizes_length (sz : list Z) (count : Z) (s : Blockchain) :
  0 <= m_height s -> 0 <= count ->
  exists sizes,
    get_last_n_blocks_sizes sz count s = (true, sz ++ sizes)
    /\ Z.of_nat (length sizes) = Z.min (m_height s) count.
Proof.
  intros Hh Hc. unfold get_last_n_blocks_sizes.
  destruct (Z.eqb_spec (m_height s) 0) as [Hz | Hnz].
  - exists []. rewrite app_nil_r. split; [reflexivity |]. simpl. lia.
  - unfold getBackwardBlocksSize.
    destruct (Z.ltb_spec (m_height s - 1) (m_height s)) as [_ | Hge]; [| lia].
    cbn [negb]. eexists. split; [reflexivity |].
    rewrite backward_sizes_length. lia.
Qed.

Lemma timestamp_at_unfold (h : Z) (s : Blockchain) :
  timestamp_at h s =
  match DB.get (DB.BLOCK_INDEX_PREFIX, h) (m_db s) with
  | None => None
  | Some v =>
      (fun e => timestamp (bl e))
        <$> as_BlockEntry
              (DB.get (DB.BLOCK_PREFIX,
                       match v with DB.VHash h => h | _ => NULL_HASH end) (m_db s))
  end.
Proof.
  unfold timestamp_at, getBlockEntryByHeight.
  destruct (DB.get (DB.BLOCK_INDEX_PREFIX, h) (m_db s)) as [[] |]; reflexivity.
Qed.

Lemma complete_timestamps_loop_spec (s : Blockchain) (stop : Z) :
  0 <= stop ->
  forall (n : nat) (start : Z) (ts : list Z),
    0 <= start -> (stop < start \/ start = 0) -> (Z.to_nat start < n)%nat ->
    let k := if start =? 0 then 1%nat else Z.to_nat (start - stop) in
    match complete_timestamps_loop n start stop s ts with
    | (true, ts') =>
        exists stamps,
          ts' = ts ++ stamps
          /\ Forall2 (fun j t => timestamp_at (start - Z.of_nat j) s = Some t)
               (seq 0 k) stamps
    | (false, ts') =>
        exists stamps (j : nat),
          ts' = ts ++ stamps /\ (length stamps < k)%nat
          /\ length stamps = j
          /\ timestamp_at (start - Z.of_nat j) s = None
    end.
Proof.
  intros Hstop n. induction n as [| n IH]; intros start ts Hs Hrel Hn k; [lia |].
  cbn [complete_timestamps_loop].
  pose proof (timestamp_at_unfold start s) as Hat.
  destruct (DB.get (DB.BLOCK_INDEX_PREFIX, start) (m_db s)) as [v |].
  2:{ exists [], 0%nat. rewrite app_nil_r, Z.sub_0_r.
      split; [reflexivity |]. split; [| split; [reflexivity | exact Hat]].
      subst k. destruct (start =? 0) eqn:E; simpl; lia. }
  destruct (as_BlockEntry _) as [e |].
  2:{ exists [], 0%nat. rewrite app_nil_r, Z.sub_0_r.
      split; [reflexivity |]. split; [| split; [reflexivity | exact Hat]].
      subst k. destruct (start =? 0) eqn:E; simpl; lia. }
  cbn in Hat.
  destruct (Z.eqb_spec start 0) as [Hz0 | Hz0].
  { exists [timestamp (bl e)]. split; [reflexivity |]. subst k. cbn [seq].
    constructor; [| constructor]. rewrite Z.sub_0_r. exact Hat. }
  destruct (Z.eqb_spec (start - 1) stop) as [Hz1 | Hz1].
  { exists [timestamp (bl e)]. split; [reflexivity |]. subst k.
    replace (Z.to_nat (start - stop)) with 1%nat by lia. cbn [seq].
    constructor; [| constructor]. rewrite Z.sub_0_r. exact Hat. }
  assert (Hk : k = S (Z.to_nat (start - 1 - stop))) by (subst k; lia).
  specialize (IH (start - 1) (ts ++ [timestamp (bl e)]) ltac:(lia) ltac:(lia) ltac:(lia)).
  cbv zeta in IH.
  destruct (Z.eqb_spec (start - 1) 0) as [Hs1 | Hs1].
  - (* the block at height 0 is read when the walk reaches it *)
    assert (stop < 0 \/ stop = 0) as [| ->] by lia; [lia |]. lia.
  - destruct (complete_timestamps_loop n (start - 1) stop s (ts ++ [timestamp (bl e)]))
      as [[|] ts'].
    + destruct IH as (stamps & -> & Hall).
      exists (timestamp (bl e) :: stamps). rewrite <- app_assoc. split; [reflexivity |].
      rewrite Hk. cbn [seq]. constructor; [rewrite Z.sub_0_r; exact Hat |].
      rewrite <- seq_shift. apply Forall2_fmap_l.
      eapply List.Forall2_impl; [| exact Hall].
      intros j t Hj. cbn. rewrite <- Hj. f_equal. lia.
    + destruct IH as (stamps & j & -> & Hlt & Hlen & Hnone).
      exists (timestamp (bl e) :: stamps), (S j). rewrite <- app_assoc.
      split; [reflexivity |]. split; [simpl; lia |]. split; [simpl; lia |].
      rewrite <- Hnone. f_equal. lia.
Qed.

(** X15. [complete_timestamps_vector]: a vector that already has a full
    window of timestamps is returned as it is. Otherwise, when the
    function returns true, the start height is below the cached height and
    the timestamps of the blocks at heights [start], [start - 1], ... were
    appended in that order: one when [start] is 0, else
    [min(missing, start)] of them, so that the block at height 0 is only
    read when [start] is 0. When it returns false, either the start height
    is not below the cached height and the vector is as it was, or a
    block on the way could not be read and the timestamps appended before
    it stay in the vector. *)
Theorem complete_timestamps_vector_spec (blockMajorVersion start_top_height : Z)
    (timestamps : list Z) (s : Blockchain) :
  0 <= start_top_height ->
  let window := timestampCheckWindow blockMajorVersion in
  let need := window - Z.of_nat (length timestamps) in
  let k := if start_top_height =? 0 then 1%nat
           else Z.to_nat (Z.min need start_top_height) in
  (window <= Z.of_nat (length timestamps) ->
   complete_timestamps_vector blockMajorVersion start_top_height timestamps s
   = (true, timestamps))
  /\ (Z.of_nat (length timestamps) < window ->
      match complete_timestamps_vector blockMajorVersion start_top_height timestamps s with
      | (true, ts') =>
          start_top_height < m_height s
          /\ exists stamps,
              ts' = timestamps ++ stamps
              /\ Forall2 (fun j t =>
                            timestamp_at (start_top_height - Z.of_nat j) s = Some t)
                   (seq 0 k) stamps
      | (false, ts') =>
          (m_height s <= start_top_height /\ ts' = timestamps)
          \/ exists stamps,
               ts' = timestamps ++ stamps /\ (length stamps < k)%nat
               /\ timestamp_at (start_top_height - Z.of_nat (length stamps)) s = None
      end).
Proof.
  intros Hs window need k. unfold complete_timestamps_vector. fold window. split.
  - intros Hw. destruct (Z.leb_spec window (Z.of_nat (length timestamps))); [reflexivity | lia].
  - intros Hw. destruct (Z.leb_spec window (Z.of_nat (length timestamps))); [lia |].
    destruct (Z.ltb_spec start_top_height (m_height s)) as [Hlt | Hge]; cbn [negb].
    2:{ left. split; [lia | reflexivity]. }
    fold need.
    set (stop := if need <? start_top_height then start_top_height - need else 0).
    assert (Hstop : 0 <= stop /\ (stop < start_top_height \/ start_top_height = 0)
                    /\ (start_top_height <> 0 ->
                        Z.to_nat (start_top_height - stop) = k)).
    { subst stop k need.
      destruct (Z.ltb_spec (window - Z.of_nat (length timestamps)) start_top_height);
        destruct (Z.eqb_spec start_top_height 0); lia. }
    destruct Hstop as (Hst0 & Hrel & Hk).
    pose proof (complete_timestamps_loop_spec s stop Hst0 (S (Z.to_nat start_top_height))
                  start_top_height timestamps Hs Hrel ltac:(lia)) as Hloop.
    cbv zeta in Hloop.
    assert (Hkk : (if start_top_height =? 0 then 1%nat
                   else Z.to_nat (start_top_height - stop)) = k).
    { destruct (Z.eqb_spec start_top_height 0) as [E | E].
      - subst k. destruct (Z.eqb_spec start_top_height 0); [reflexivity | lia].
      - exact (Hk E). }
    rewrite Hkk in Hloop.
    destruct (complete_timestamps_loop _ _ _ _ _) as [[|] ts'].
    + split; [exact Hlt | exact Hloop].
    + right. destruct Hloop as (stamps & j & -> & Hl & <- & Hnone).
      exists stamps. split; [reflexivity |]. split; [exact Hl | exact Hnone].
Qed.

(** X16. An alternative block whose parent is neither a block of the
    main chain nor an alternative block is never stored:
    [handle_alternative_block] leaves the state as it was and either
    returns false with the verification-failed flag set (height 0, not
    allowed by the checkpoints, wrong version, too large) or returns true
    with the marked-as-orphaned flag set. *)
Theorem handle_alternative_block_orphan (fuel : nat) (b : Block) (id : Hash)
    (bvc : block_verification_context) (send : bool) (s : Blockchain) :
  getBlockHeight (previousBlockHash b) s = None ->
  alt_find (previousBlockHash b) (m_alternative_chains s) = None ->
  handle_alternative_block (S fuel) b id bvc send s
    = Ret (false, set_verification_failed bvc) s
  \/ handle_alternative_block (S fuel) b id bvc send s
    = Ret (true, set_marked_as_orphaned bvc) s.
Proof.
  intros Hmain Halt.
  assert (Hfind : find (fun e => fst e =? previousBlockHash b) (m_alternative_chains s)
                  = None).
  { unfold alt_find in Halt.
    destruct (find (fun e => fst e =? previousBlockHash b) (m_alternative_chains s));
      [discriminate Halt | reflexivity]. }
  assert (Hno : forall A, bool_decide (is_Some (@None A)) = false).
  { intros A. apply bool_decide_eq_false_2. intros [x Hx]. discriminate Hx. }
  remember (handle_alternative_block (S fuel) b id bvc send s) as r eqn:Hr.
  cbn [handle_alternative_block] in Hr. unfold handle_alternative_block_body in Hr.
  destruct (get_block_height b =? 0); [left; exact Hr |].
  unfold bind at 1, get_state at 1 in Hr. cbv beta iota in Hr.
  destruct (negb (is_alternative_block_allowed _ _)); [left; exact Hr |].
  destruct (negb (checkBlockVersion b)); [left; exact Hr |].
  destruct (negb (checkCumulativeBlockSize _ _)); [left; exact Hr |].
  rewrite Hmain, Hfind, !Hno in Hr. right. exact Hr.
Qed.

End Windows.

(** ** The properties above on the small network *)

Lemma transaction_writes_confined_witness :
  let s := Example.chain2 0 in
  let t := Example.coinbase 1 50 in
  match @popTransaction (Example.format_utils 0) Example.pool t (Example.tx_hash t) s with
  | Ret _ s' =>
      DB.get (DB.BLOCK_INDEX_PREFIX, 1) (m_db s')
      = Some (DB.VHash (Example.block_hash Example.block1))
  | Throw _ _ => False
  | Spin => False
  end.
Proof.
  intros s t.
  pose proof (@transaction_writes_confined (Example.format_utils 0) Example.pool
                (DB.BLOCK_INDEX_PREFIX, 1) s ltac:(reflexivity)) as (_ & Hpop & _).
  specialize (Hpop t (Example.tx_hash t)).
  destruct (popTransaction t (Example.tx_hash t) s) as [r s' | e s' |] eqn:Hrun.
  - destruct Hpop as [Hget _]. rewrite Hget. vm_compute. reflexivity.
  - apply (f_equal (fun o => match o with Throw _ _ => true | _ => false end)) in Hrun.
    vm_compute in Hrun. discriminate Hrun.
  - exact Hpop.
Defined.

Lemma get_last_n_blocks_sizes_length_witness :
  exists sizes,
    @get_last_n_blocks_sizes (Example.format_utils 0) Example.pool [] 5 (Example.chain2 0)
    = (true, sizes)
    /\ length sizes = 2%nat.
Proof.
  destruct (@get_last_n_blocks_sizes_length (Example.format_utils 0) Example.pool
              [] 5 (Example.chain2 0))
    as (sizes & Heq & Hlen); [vm_compute; discriminate | lia |].
  exists sizes. split; [exact Heq |].
  assert (Hmin : Z.min (m_height (Example.chain2 0)) 5 = 2) by (vm_compute; reflexivity).
  rewrite Hmin in Hlen. lia.
Defined.

Lemma complete_timestamps_vector_spec_witness :
  @complete_timestamps_vector Example.currency Example.pool 1 1 [] (Example.chain2 0)
  = (true, [20]).
Proof.
  pose proof (@complete_timestamps_vector_spec Example.currency Example.pool
                1 1 [] (Example.chain2 0) ltac:(lia)) as Hspec.
  cbv zeta in Hspec. destruct Hspec as [_ Hspec].
  specialize (Hspec ltac:(vm_compute; reflexivity)).
  destruct (complete_timestamps_vector 1 1 [] (Example.chain2 0)) as [[|] ts'] eqn:Hrun.
  - destruct Hspec as (_ & stamps & -> & Hall).
    change (Forall2 (fun j t => timestamp_at (1 - Z.of_nat j) (Example.chain2 0) = Some t)
              [0%nat] stamps) in Hall.
    apply Forall2_cons_inv_l in Hall as (t & rest & Ht & Hnil & ->).
    apply Forall2_nil_inv_l in Hnil as ->.
    vm_compute in Ht. injection Ht as <-. reflexivity.
  - vm_compute in Hrun. discriminate Hrun.
Defined.

Lemma handle_alternative_block_orphan_witness :
  let b := Example.block_with (Example.coinbase 5 50) 50 777 [] in
  @handle_alternative_block Example.currency Example.no_checkpoints
    (Example.format_utils 0) Example.input_checks Example.pool
    1 b (Example.block_hash b) bvc_init true (Example.chain2 0)
  = Ret (true, set_marked_as_orphaned bvc_init) (Example.chain2 0).
Proof.
  intros b.
  destruct (@handle_alternative_block_orphan Example.currency Example.no_checkpoints
              (Example.format_utils 0) Example.input_checks Example.pool
              0 b (Example.block_hash b) bvc_init true (Example.chain2 0)
              ltac:(vm_compute; reflexivity) ltac:(vm_compute; reflexivity))
    as [Hl | Hr]; [| exact Hr].
  apply (f_equal (fun o => match o with Ret (ok, _) _ => ok | _ => false end)) in Hl.
  vm_compute in Hl. discriminate Hl.
Defined.

(** ** Random outputs: the sampled index

    The index computed in double precision from a draw lies below the
    limit. The proof follows the computation: the conversions are exact
    below 2^53, the division by 2^53 changes the exponent only, the square
    root of a double below one is below one after rounding, and the
    product with the limit, rounded, stays below it. *)

Section Doubles.
Import SpecFloat.

Lemma pow2_succ k : 0 <= k -> 2 ^ (k + 1) = 2 * 2 ^ k.
Proof. intros Hk. rewrite Z.pow_add_r by lia. lia. Qed.

Lemma digits2_pos_spec p :
  2 ^ (Zpos (digits2_pos p) - 1) <= Zpos p < 2 ^ Zpos (digits2_pos p).
Proof.
  induction p as [p IH | p IH |]; cbn [digits2_pos].
  - rewrite Pos2Z.inj_succ. replace (Z.succ (Zpos (digits2_pos p)) - 1)
      with (Zpos (digits2_pos p) - 1 + 1) by lia.
    rewrite pow2_succ by lia.
    replace (Z.succ (Zpos (digits2_pos p))) with (Zpos (digits2_pos p) - 1 + 1 + 1) by lia.
    rewrite (pow2_succ (Zpos (digits2_pos p) - 1 + 1)) by lia.
    replace (Zpos (digits2_pos p) - 1 + 1) with (Zpos (digits2_pos p)) by lia.
    replace (2 ^ Zpos (digits2_pos p)) with (2 * 2 ^ (Zpos (digits2_pos p) - 1)) in *
      by (rewrite <- pow2_succ by lia; f_equal; lia).
    lia.
  - rewrite Pos2Z.inj_succ. replace (Z.succ (Zpos (digits2_pos p)) - 1)
      with (Zpos (digits2_pos p) - 1 + 1) by lia.
    rewrite pow2_succ by lia.
    replace (Z.succ (Zpos (digits2_pos p))) with (Zpos (digits2_pos p) - 1 + 1 + 1) by lia.
    rewrite (pow2_succ (Zpos (digits2_pos p) - 1 + 1)) by lia.
    replace (Zpos (digits2_pos p) - 1 + 1) with (Zpos (digits2_pos p)) by lia.
    replace (2 ^ Zpos (digits2_pos p)) with (2 * 2 ^ (Zpos (digits2_pos p) - 1)) in *
      by (rewrite <- pow2_succ by lia; f_equal; lia).
    lia.
  - simpl. lia.
Qed.

Lemma Zdigits2_unique (m d : Z) :
  2 ^ (d - 1) <= m < 2 ^ d -> 0 < m -> Zdigits2 m = d.
Proof.
  intros Hm Hpos. destruct m as [| p | p]; try lia. cbn [Zdigits2].
  pose proof (digits2_pos_spec p) as Hs.
  set (D := Zpos (digits2_pos p)) in *.
  destruct (Z.lt_trichotomy D d) as [Hlt | [Heq | Hgt]]; [| exact Heq |].
  - assert (2 ^ D <= 2 ^ (d - 1)) by (apply Z.pow_le_mono_r; lia). lia.
  - assert (0 <= d).
    { destruct (Z.lt_ge_cases d 0) as [Hneg | ?]; [| assumption].
      rewrite (Z.pow_neg_r 2 d) in Hm by assumption. lia. }
    assert (2 ^ d <= 2 ^ (D - 1)) by (apply Z.pow_le_mono_r; lia). lia.
Qed.

Lemma iter_pos_nat {A} (f : A -> A) (p : positive) (x : A) :
  SpecFloat.iter_pos f p x = Nat.iter (Pos.to_nat p) f x.
Proof.
  revert x. induction p as [p IH | p IH |]; intros x; cbn [iter_pos].
  - rewrite !IH, Pos2Nat.inj_xI.
    replace (S (2 * Pos.to_nat p)) with (Pos.to_nat p + S (Pos.to_nat p))%nat by lia.
    rewrite Nat.iter_add. f_equal. rewrite Nat.iter_succ_r. reflexivity.
  - rewrite !IH, Pos2Nat.inj_xO.
    replace (2 * Pos.to_nat p)%nat with (Pos.to_nat p + Pos.to_nat p)%nat by lia.
    rewrite Nat.iter_add. reflexivity.
  - reflexivity.
Qed.

Lemma shr_1_spec (mrs : shr_record) :
  0 <= shr_m mrs ->
  shr_m (shr_1 mrs) = shr_m mrs / 2 /\ shr_r (shr_1 mrs) = Z.odd (shr_m mrs).
Proof.
  destruct mrs as [m r s]. cbn [shr_m]. intros Hm.
  rewrite <- Z.div2_div.
  destruct m as [| [p | p |] | p]; try lia; split; reflexivity.
Qed.

Lemma shr_iter (m : Z) (r s : bool) (k : nat) :
  0 <= m ->
  let mrs := Nat.iter (S k) shr_1 (Build_shr_record m r s) in
  shr_m mrs = m / 2 ^ (Z.of_nat k + 1) /\ shr_r mrs = Z.odd (m / 2 ^ Z.of_nat k).
Proof.
  intros Hm. induction k as [| k IH].
  - cbv zeta. change (Nat.iter 1 shr_1 (Build_shr_record m r s)) with (shr_1 (Build_shr_record m r s)).
    destruct (shr_1_spec (Build_shr_record m r s) Hm) as [H1 H2].
    rewrite H1, H2. cbn [shr_m]. change (2 ^ (Z.of_nat 0 + 1)) with 2.
    change (2 ^ Z.of_nat 0) with 1. rewrite Z.div_1_r. split; reflexivity.
  - cbv zeta in *. destruct IH as [IHm IHr].
    change (Nat.iter (S (S k)) shr_1 (Build_shr_record m r s))
      with (shr_1 (Nat.iter (S k) shr_1 (Build_shr_record m r s))).
    assert (Hnn : 0 <= shr_m (Nat.iter (S k) shr_1 (Build_shr_record m r s))).
    { rewrite IHm. apply Z.div_pos; [lia | apply Z.pow_pos_nonneg; lia]. }
    destruct (shr_1_spec _ Hnn) as [H1 H2]. rewrite H1, H2, IHm.
    split.
    + rewrite Z.div_div by (try apply Z.pow_pos_nonneg; lia).
      f_equal. rewrite Nat2Z.inj_succ.
      replace (Z.succ (Z.of_nat k) + 1) with (Z.of_nat k + 1 + 1) by lia.
      rewrite (pow2_succ (Z.of_nat k + 1)) by lia. lia.
    + f_equal. f_equal. f_equal. lia.
Qed.

(** Shifting an exact mantissa of [53 + n] digits down to 53. *)
Lemma shr_fexp_exact (m e n : Z) :
  0 < m -> Zdigits2 m = 53 + n -> 0 <= n -> emin Double.prec Double.emax <= e + n ->
  exists mrs,
    shr_fexp Double.prec Double.emax m e loc_Exact = (mrs, e + n)
    /\ shr_m mrs = m / 2 ^ n
    /\ (n = 0 -> mrs = Build_shr_record m false false)
    /\ (0 < n -> shr_r mrs = Z.odd (m / 2 ^ (n - 1))).
Proof.
  intros Hm Hd Hn He. unfold shr_fexp. rewrite Hd. unfold fexp.
  replace (Z.max (53 + n + e - Double.prec) (emin Double.prec Double.emax) - e) with n
    by (unfold Double.prec in *; lia).
  cbn [shr_record_of_loc]. unfold shr.
  destruct n as [| p | p]; [| | lia].
  - eexists. split; [rewrite Z.add_0_r; reflexivity |].
    split; [rewrite Z.div_1_r; reflexivity |]. split; [reflexivity | lia].
  - rewrite iter_pos_nat.
    destruct (Pos.to_nat p) as [| k] eqn:Hk; [lia |].
    pose proof (shr_iter m false false k ltac:(lia)) as Hit. cbv zeta in Hit.
    destruct Hit as [H1 H2].
    eexists. split; [reflexivity |].
    assert (Hpk : Zpos p = Z.of_nat k + 1) by lia.
    split; [rewrite H1, Hpk; reflexivity |].
    split; [lia |]. intros _. rewrite H2. f_equal. f_equal. f_equal. lia.
Qed.

Lemma rne_bound (mrs : shr_record) :
  let m1 := round_nearest_even (shr_m mrs) (loc_of_shr_record mrs) in
  shr_m mrs <= m1 <= shr_m mrs + 1 /\ (m1 = shr_m mrs + 1 -> shr_r mrs = true).
Proof.
  destruct mrs as [m [|] [|]]; cbn; try (split; [lia | intros; lia || reflexivity]).
  destruct (Z.even m); split; try lia; intros; reflexivity.
Qed.

(** The end of [binary_round_aux]: a rounded mantissa between 2^52 and
    2^53, the latter renormalised. *)
Lemma round_tail (m1 e1 : Z) :
  2 ^ 52 <= m1 <= 2 ^ 53 -> emin Double.prec Double.emax <= e1 -> e1 + 1 <= Double.emax - Double.prec ->
  (let '(mrs'', e'') := shr_fexp Double.prec Double.emax m1 e1 loc_Exact in
   match shr_m mrs'' with
   | Z0 => S754_zero false
   | Zpos m => if e'' <=? Double.emax - Double.prec then S754_finite false m e''
               else S754_infinity false
   | Zneg _ => S754_nan
   end)
  = if m1 <? 2 ^ 53 then S754_finite false (Z.to_pos m1) e1
    else S754_finite false (Z.to_pos (2 ^ 52)) (e1 + 1).
Proof.
  intros Hm He Hmax.
  destruct (Z.ltb_spec m1 (2 ^ 53)) as [Hlt | Hge].
  - destruct (shr_fexp_exact m1 e1 0 ltac:(lia)
                (Zdigits2_unique m1 53 ltac:(change (53 - 1) with 52; lia) ltac:(lia))
                ltac:(lia) ltac:(lia)) as (mrs & Heq & _ & Hrec & _).
    rewrite Heq, (Hrec eq_refl). cbn [shr_m].
    destruct m1 as [| p | p]; try lia.
    rewrite Z.add_0_r.
    destruct (Z.leb_spec e1 (Double.emax - Double.prec)); [reflexivity | lia].
  - assert (m1 = 2 ^ 53) as -> by lia.
    destruct (shr_fexp_exact (2 ^ 53) e1 1 ltac:(lia) eq_refl ltac:(lia) ltac:(lia))
      as (mrs & Heq & Hq & _ & _).
    rewrite Heq, Hq.
    change (2 ^ 53 / 2 ^ 1) with (Zpos (Z.to_pos (2 ^ 52))).
    destruct (Z.leb_spec (e1 + 1) (Double.emax - Double.prec)); [reflexivity | lia].
Qed.

(** [binary_round_aux] on an exact mantissa of [53 + n] digits. *)
Lemma binary_round_aux_exact (m e n : Z) :
  0 < m -> Zdigits2 m = 53 + n -> 0 <= n ->
  emin Double.prec Double.emax <= e + n -> e + n + 1 <= Double.emax - Double.prec ->
  exists m1,
    m / 2 ^ n <= m1 <= m / 2 ^ n + 1
    /\ (m1 = m / 2 ^ n + 1 -> 0 < n /\ Z.odd (m / 2 ^ (n - 1)) = true)
    /\ 2 ^ 52 <= m / 2 ^ n < 2 ^ 53
    /\ binary_round_aux Double.prec Double.emax false m e loc_Exact
       = if m1 <? 2 ^ 53 then S754_finite false (Z.to_pos m1) (e + n)
         else S754_finite false (Z.to_pos (2 ^ 52)) (e + n + 1).
Proof.
  intros Hm Hd Hn He Hmax.
  destruct (shr_fexp_exact m e n Hm Hd Hn He) as (mrs & Heq & Hq & Hrec & Hr).
  pose proof (rne_bound mrs) as Hrne. cbv zeta in Hrne. destruct Hrne as [Hb Hup].
  assert (Hrange : 2 ^ 52 <= m / 2 ^ n < 2 ^ 53).
  { destruct m as [| p | p]; try lia. cbn [Zdigits2] in Hd.
    pose proof (digits2_pos_spec p) as Hs. rewrite Hd in Hs.
    replace (53 + n - 1) with (52 + n) in Hs by lia.
    rewrite !Z.pow_add_r in Hs by lia.
    assert (0 < 2 ^ n) by (apply Z.pow_pos_nonneg; lia).
    split.
    - apply Z.div_le_lower_bound; lia.
    - apply Z.div_lt_upper_bound; lia. }
  exists (round_nearest_even (shr_m mrs) (loc_of_shr_record mrs)).
  rewrite Hq in *.
  split; [exact Hb |]. split.
  { intros Hone. specialize (Hup Hone).
    destruct (Z.eq_dec n 0) as [-> | Hnz].
    - rewrite (Hrec eq_refl) in Hup. discriminate Hup.
    - split; [lia |]. rewrite <- Hr by lia. exact Hup. }
  split; [exact Hrange |].
  unfold binary_round_aux. rewrite Heq. rewrite Hq.
  apply round_tail; lia.
Qed.


Lemma binary_round_aux_53 (m e : Z) :
  2 ^ 52 <= m < 2 ^ 53 -> emin Double.prec Double.emax <= e -> e + 1 <= Double.emax - Double.prec ->
  binary_round_aux Double.prec Double.emax false m e loc_Exact = S754_finite false (Z.to_pos m) e.
Proof.
  intros Hm He Hmax.
  destruct (binary_round_aux_exact m e 0 ltac:(lia)
              (Zdigits2_unique m 53 ltac:(change (53 - 1) with 52; lia) ltac:(lia))
              ltac:(lia) ltac:(lia) ltac:(lia))
    as (m1 & Hb & Hup & _ & Heq).
  rewrite Z.div_1_r in *. rewrite Z.add_0_r in Heq.
  assert (m1 = m) as -> by (destruct (Z.eq_dec m1 (m + 1)) as [Hone | ?]; [apply Hup in Hone | ]; lia).
  rewrite Heq. destruct (Z.ltb_spec m (2 ^ 53)); [reflexivity | lia].
Qed.

Lemma pos_iter_xO (p d : positive) : Zpos (Pos.iter xO p d) = Zpos p * 2 ^ Zpos d.
Proof.
  induction d as [| d IH] using Pos.peano_ind.
  - cbn [Pos.iter]. lia.
  - rewrite Pos.iter_succ, Pos2Z.inj_succ, Z.pow_succ_r by lia.
    rewrite Pos2Z.inj_xO, IH. lia.
Qed.

(** [(double)n] is exact below 2^53: a 53-bit mantissa and the exponent
    that makes it [n]. *)
Lemma of_Z_finite (n : Z) :
  0 < n < 2 ^ 53 ->
  exists m e, Double.of_Z n = S754_finite false m e
              /\ 2 ^ 52 <= Zpos m < 2 ^ 53 /\ -52 <= e <= 0
              /\ Zpos m = n * 2 ^ (- e).
Proof.
  intros Hn. destruct n as [| p | p]; try lia.
  pose proof (digits2_pos_spec p) as Hs.
  set (D := Zpos (digits2_pos p)) in *.
  assert (HD : 1 <= D <= 53).
  { split; [unfold D; lia |].
    destruct (Z.le_gt_cases D 53) as [? | Hgt]; [assumption |].
    assert (2 ^ 53 <= 2 ^ (D - 1)) by (apply Z.pow_le_mono_r; lia). lia. }
  unfold Double.of_Z, binary_normalize, binary_round, shl_align.
  fold D.
  assert (Hf : fexp Double.prec Double.emax (D + 0) = D - 53)
    by (unfold fexp, emin, Double.prec, Double.emax; lia).
  rewrite Hf.
  destruct (Z.eq_dec D 53) as [HD53 | HD53].
  - rewrite HD53. change (53 - 53 - 0) with 0. cbv iota beta.
    rewrite HD53 in Hs. change (53 - 1) with 52 in Hs.
    rewrite binary_round_aux_53
      by (unfold emin, Double.prec, Double.emax; lia).
    exists p, 0. split; [reflexivity |]. split; [exact Hs |]. split; [lia |].
    change (2 ^ (- 0)) with 1. lia.
  - assert (Hx : D - 53 - 0 = Zneg (Z.to_pos (53 - D))).
    { rewrite <- Pos2Z.opp_pos, Z2Pos.id; lia. }
    rewrite Hx. cbv iota beta.
    assert (Hmz : Zpos (Pos.iter xO p (Z.to_pos (53 - D))) = Zpos p * 2 ^ (53 - D)).
    { rewrite pos_iter_xO, Z2Pos.id by lia. reflexivity. }
    assert (Hpow : 2 ^ (D - 1) * 2 ^ (53 - D) = 2 ^ 52).
    { rewrite <- Z.pow_add_r by lia. f_equal. lia. }
    assert (Hpow' : 2 ^ D * 2 ^ (53 - D) = 2 ^ 53).
    { rewrite <- Z.pow_add_r by lia. f_equal. lia. }
    assert (Hpos : 0 < 2 ^ (53 - D)) by (apply Z.pow_pos_nonneg; lia).
    assert (Hrange : 2 ^ 52 <= Zpos (Pos.iter xO p (Z.to_pos (53 - D))) < 2 ^ 53).
    { rewrite Hmz, <- Hpow, <- Hpow'. split.
      - apply Z.mul_le_mono_nonneg_r; lia.
      - apply Z.mul_lt_mono_pos_r; lia. }
    rewrite binary_round_aux_53
      by (try exact Hrange; unfold emin, Double.prec, Double.emax; lia).
    eexists _, (D - 53). split; [reflexivity |]. split; [exact Hrange |].
    split; [lia |]. cbn [Z.to_pos]. rewrite Hmz. f_equal. f_equal. lia.
Qed.


Lemma div_eucl_eq (a b : Z) : Z.div_eucl a b = (a / b, a mod b).
Proof. unfold Z.div, Z.modulo. destruct (Z.div_eucl a b). reflexivity. Qed.

(** Dividing by 2^53 only lowers the exponent. *)
Lemma div_pow53 (m : positive) (e : Z) :
  2 ^ 52 <= Zpos m < 2 ^ 53 -> -52 <= e <= 0 ->
  Double.div (S754_finite false m e) (Double.of_Z (2 ^ 53))
  = S754_finite false m (e - 53).
Proof.
  intros Hm He.
  change (Double.of_Z (2 ^ 53)) with (S754_finite false (Z.to_pos (2 ^ 52)) 1).
  unfold Double.div, SFdiv, SFdiv_core_binary.
  rewrite (Zdigits2_unique (Zpos m) 53) by (change (53 - 1) with 52; lia).
  change (Zdigits2 (Zpos (Z.to_pos (2 ^ 52)))) with 53.
  assert (He' : Z.min (fexp Double.prec Double.emax (53 + e - (53 + 1))) (e - 1) = e - 54)
    by (unfold fexp, emin, Double.prec, Double.emax; lia).
  rewrite He'. replace (e - 1 - (e - 54)) with 53 by lia. cbv iota beta.
  rewrite Z.shiftl_mul_pow2 by lia. rewrite div_eucl_eq.
  change (Zpos (Z.to_pos (2 ^ 52))) with (2 ^ 52).
  replace (Zpos m * 2 ^ 53) with (2 * Zpos m * 2 ^ 52)
    by (change (2 ^ 53) with (2 * 2 ^ 52); lia).
  rewrite Z.div_mul, Z.mod_mul by lia.
  change (new_location (2 ^ 52) 0) with loc_Exact. cbv iota beta.
  change (xorb false false) with false.
  destruct (binary_round_aux_exact (2 * Zpos m) (e - 54) 1 ltac:(lia)
              (Zdigits2_unique (2 * Zpos m) (53 + 1)
                 ltac:(change (53 + 1 - 1) with 53; change (2 ^ (53 + 1)) with (2 * 2 ^ 53);
                       change (2 ^ 53) with (2 * 2 ^ 52) at 1; lia) ltac:(lia))
              ltac:(lia)
              ltac:(unfold emin, Double.prec, Double.emax; lia)
              ltac:(unfold Double.prec, Double.emax; lia))
    as (m1 & Hb & Hup & _ & Heq).
  change (2 ^ 1) with 2 in *. change (2 ^ (1 - 1)) with 1 in Hup.
  rewrite Z.div_1_r in Hup.
  assert (Hq : 2 * Zpos m / 2 = Zpos m) by (rewrite Z.mul_comm; apply Z.div_mul; lia).
  rewrite Hq in *.
  assert (m1 = Zpos m) as ->.
  { destruct (Z.eq_dec m1 (Zpos m + 1)) as [Hone | ?]; [| lia].
    apply Hup in Hone. destruct Hone as [_ Hodd].
    rewrite Z.odd_mul in Hodd. discriminate Hodd. }
  rewrite Heq. destruct (Z.ltb_spec (Zpos m) (2 ^ 53)); [| lia].
  cbn [Z.to_pos]. f_equal. lia.
Qed.

Lemma shr_fexp_53 (m e : Z) (l : location) :
  2 ^ 52 <= m < 2 ^ 53 -> emin Double.prec Double.emax <= e ->
  shr_fexp Double.prec Double.emax m e l = (shr_record_of_loc m l, e).
Proof.
  intros Hm He. unfold shr_fexp.
  rewrite (Zdigits2_unique m 53) by (change (53 - 1) with 52; lia).
  replace (fexp Double.prec Double.emax (53 + e) - e) with 0
    by (unfold fexp, emin, Double.prec, Double.emax in *; lia).
  reflexivity.
Qed.

(** The square root of a double in (0, 1) is a double in (0, 1). *)
Lemma sqrt_below_one (m : positive) (e : Z) :
  2 ^ 52 <= Zpos m < 2 ^ 53 -> -105 <= e <= -53 ->
  exists m' e', Double.sqrt (S754_finite false m e) = S754_finite false m' e'
                /\ 2 ^ 52 <= Zpos m' < 2 ^ 53 /\ -79 <= e' <= -53.
Proof.
  intros Hm He.
  unfold Double.sqrt, SFsqrt, SFsqrt_core_binary.
  rewrite (Zdigits2_unique (Zpos m) 53) by (change (53 - 1) with 52; lia).
  rewrite !Z.div2_div.
  pose proof (Z.div_mod e 2 ltac:(lia)) as Hdm.
  pose proof (Z.mod_pos_bound e 2 ltac:(lia)) as Hb.
  set (k := e / 2) in *. set (b := e mod 2) in *.
  assert (Hk : (53 + e + 1) / 2 = 27 + k).
  { symmetry. apply (Z.div_unique _ _ _ b); lia. }
  rewrite Hk.
  assert (He' : Z.min (fexp Double.prec Double.emax (27 + k)) k = k - 26)
    by (unfold fexp, emin, Double.prec, Double.emax; lia).
  rewrite He'.
  assert (Hs : e - 2 * (k - 26) = 52 + b) by lia.
  rewrite Hs.
  assert (Hm' : match 52 + b with
                | 0 => Zpos m
                | Zpos _ => Z.shiftl (Zpos m) (52 + b)
                | Zneg _ => 0
                end = Zpos m * 2 ^ (52 + b)).
  { destruct (52 + b) as [| p | p] eqn:Hp; try lia.
    rewrite Z.shiftl_mul_pow2 by lia. reflexivity. }
  rewrite Hm'. clear Hm'.
  pose proof (Z.sqrtrem_spec (Zpos m * 2 ^ (52 + b))
                ltac:(apply Z.mul_nonneg_nonneg; [lia | apply Z.pow_nonneg; lia])) as Hsq.
  destruct (Z.sqrtrem (Zpos m * 2 ^ (52 + b))) as [q r].
  destruct Hsq as [Hsq Hr].
  assert (Hpow : 2 ^ (52 + b) = 2 ^ 52 * 2 ^ b) by (apply Z.pow_add_r; lia).
  assert (Hq : 2 ^ 52 <= q < 2 ^ 53).
  { assert (Hb2 : b = 0 \/ b = 1) by lia.
    assert (Hlo : 2 ^ 52 * 2 ^ 52 <= Zpos m * 2 ^ (52 + b)).
    { rewrite Hpow. destruct Hb2 as [-> | ->].
      - change (2 ^ 0) with 1. rewrite Z.mul_1_r. apply Z.mul_le_mono_nonneg_r; lia.
      - change (2 ^ 1) with 2.
        transitivity (Zpos m * 2 ^ 52); [apply Z.mul_le_mono_nonneg_r; lia | lia]. }
    assert (Hhi : Zpos m * 2 ^ (52 + b) < 2 ^ 53 * 2 ^ 53).
    { rewrite Hpow. destruct Hb2 as [-> | ->].
      - change (2 ^ 0) with 1. rewrite Z.mul_1_r.
        apply Z.lt_trans with (2 ^ 53 * 2 ^ 52); [apply Z.mul_lt_mono_pos_r; lia | lia].
      - change (2 ^ 52 * 2 ^ 1) with (2 ^ 53). apply Z.mul_lt_mono_pos_r; lia. }
    split.
    - destruct (Z.le_gt_cases (2 ^ 52) q) as [? | Hlt]; [assumption | exfalso].
      assert (q * q + r < 2 ^ 52 * 2 ^ 52); [| lia].
      assert (0 <= q) by lia.
      assert (q * q <= (2 ^ 52 - 1) * (2 ^ 52 - 1))
        by (apply Z.mul_le_mono_nonneg; lia).
      lia.
    - destruct (Z.lt_ge_cases q (2 ^ 53)) as [? | Hge]; [assumption | exfalso].
      assert (2 ^ 53 * 2 ^ 53 <= q * q) by (apply Z.mul_le_mono_nonneg; lia).
      lia. }
  unfold binary_round_aux.
  rewrite shr_fexp_53
    by (try exact Hq; unfold emin, Double.prec, Double.emax; lia).
  set (l := if r =? 0 then loc_Exact else loc_Inexact (if r <=? q then Lt else Gt)).
  set (m1 := round_nearest_even (shr_m (shr_record_of_loc q l))
                                (loc_of_shr_record (shr_record_of_loc q l))).
  assert (Hm1 : m1 = q \/ m1 = q + 1 /\ q < r).
  { unfold m1, l. destruct (Z.eqb_spec r 0); [left; reflexivity |].
    destruct (Z.leb_spec r q); [left; reflexivity | right]. split; [reflexivity | lia]. }
  clearbody m1. clear l.
  rewrite round_tail
    by (unfold emin, Double.prec, Double.emax; lia).
  destruct (Z.ltb_spec m1 (2 ^ 53)) as [Hlt | Hge].
  - eexists _, _. split; [reflexivity |].
    split; [rewrite Z2Pos.id by lia; lia | lia].
  - eexists _, _. split; [reflexivity |].
    split; [rewrite Z2Pos.id by lia; lia |].
    split; [lia |].
    destruct Hm1 as [-> | [-> Hqr]]; [lia |].
    assert (q = 2 ^ 53 - 1) as -> by lia.
    destruct (Z.eq_dec k (-27)) as [Hk27 | ?]; [exfalso | lia].
    assert (Hb2 : b = 0 \/ b = 1) by lia.
    rewrite Hpow in Hsq. destruct Hb2 as [Hb0 | Hb1]; rewrite ?Hb0, ?Hb1 in Hsq.
    + change (2 ^ 0) with 1 in Hsq. lia.
    + change (2 ^ 1) with 2 in Hsq. lia.
Qed.


Lemma to_Z_below (m : positive) (e up : Z) :
  e <= 0 -> Zpos m < up * 2 ^ (- e) ->
  0 <= Double.to_Z (S754_finite false m e) < up.
Proof.
  intros He Hm. unfold Double.to_Z.
  destruct (Z.leb_spec 0 e) as [He0 | Hneg].
  - assert (e = 0) as -> by lia. change (2 ^ (- 0)) with 1 in Hm.
    change (2 ^ 0) with 1. lia.
  - assert (0 < 2 ^ (- e)) by (apply Z.pow_pos_nonneg; lia).
    split; [apply Z.div_pos; lia |].
    apply Z.div_lt_upper_bound; [assumption |]. lia.
Qed.

(** A double below one times [(double)up] truncates below [up]. *)
Lemma mul_below (mf : positive) (ef : Z) (mu : positive) (eu up : Z) :
  2 ^ 52 <= Zpos mf < 2 ^ 53 -> -79 <= ef <= -53 ->
  2 ^ 52 <= Zpos mu < 2 ^ 53 -> -52 <= eu <= 0 ->
  Zpos mu = up * 2 ^ (- eu) ->
  0 <= Double.to_Z (Double.mul (S754_finite false mf ef) (S754_finite false mu eu)) < up.
Proof.
  intros Hmf Hef Hmu Heu Hup.
  unfold Double.mul, SFmul.
  change (xorb false false) with false. rewrite Pos2Z.inj_mul.
  set (M := Zpos mf * Zpos mu).
  assert (HMlo : 2 ^ 104 <= M).
  { unfold M. change (2 ^ 104) with (2 ^ 52 * 2 ^ 52).
    apply Z.mul_le_mono_nonneg; lia. }
  assert (HMhi : M < 2 ^ 106).
  { unfold M. change (2 ^ 106) with (2 ^ 53 * 2 ^ 53).
    apply Z.mul_lt_mono_nonneg; lia. }
  assert (Hn : exists n, (n = 52 \/ n = 53) /\ 2 ^ (53 + n - 1) <= M < 2 ^ (53 + n)
                         /\ (n = 53 -> 2 ^ 105 <= M)).
  { destruct (Z.lt_ge_cases M (2 ^ 105)) as [Hlt | Hge].
    - exists 52. split; [left; reflexivity |]. split; [| lia].
      change (53 + 52 - 1) with 104. change (53 + 52) with 105. lia.
    - exists 53. split; [right; reflexivity |]. split; [| intros _; exact Hge].
      change (53 + 53 - 1) with 105. change (53 + 53) with 106. lia. }
  destruct Hn as (n & Hn & HMn & Hn53).
  destruct (binary_round_aux_exact M (ef + eu) n ltac:(lia)
              (Zdigits2_unique M (53 + n) HMn ltac:(lia)) ltac:(lia)
              ltac:(unfold emin, Double.prec, Double.emax; lia)
              ltac:(unfold Double.prec, Double.emax; lia))
    as (m1 & Hb & Hone & Hq & Heq).
  rewrite Heq. clear Heq.
  set (q := M / 2 ^ n) in *.
  set (E := ef + eu + n) in *.
  set (L := Zpos mu * 2 ^ (- ef - n)).
  assert (H2n : 0 < 2 ^ n) by (apply Z.pow_pos_nonneg; lia).
  assert (HqM : 2 ^ n * q <= M < 2 ^ n * (q + 1)).
  { pose proof (Z.div_mod M (2 ^ n) ltac:(lia)) as Hdm.
    pose proof (Z.mod_pos_bound M (2 ^ n) H2n) as Hmb. fold q in Hdm. lia. }
  assert (Hfe : Zpos mf <= 2 ^ (- ef) - 1).
  { assert (2 ^ 53 <= 2 ^ (- ef)) by (apply Z.pow_le_mono_r; lia). lia. }
  assert (Hsplit : 2 ^ (- ef) = 2 ^ (- ef - n) * 2 ^ n).
  { rewrite <- Z.pow_add_r by lia. f_equal. lia. }
  assert (HML : M <= L * 2 ^ n - Zpos mu).
  { unfold M, L. rewrite <- Z.mul_assoc, <- Hsplit.
    transitivity ((2 ^ (- ef) - 1) * Zpos mu); [| lia].
    apply Z.mul_le_mono_nonneg_r; lia. }
  assert (HqL : q <= L - 1).
  { assert (2 ^ n * q < 2 ^ n * L) by lia.
    assert (q < L) by (apply (Z.mul_lt_mono_pos_l (2 ^ n)); assumption). lia. }
  assert (Hm1L : m1 < L).
  { destruct (Z.eq_dec m1 (q + 1)) as [Hm1 | ?]; [| lia].
    destruct (Hone Hm1) as [_ Hodd].
    destruct (Z.eq_dec q (L - 1)) as [HqL1 | ?]; [exfalso | lia].
    set (w := M / 2 ^ (n - 1)) in *.
    assert (H2n1 : 0 < 2 ^ (n - 1)) by (apply Z.pow_pos_nonneg; lia).
    assert (H2nn : 2 ^ n = 2 ^ (n - 1) * 2).
    { replace n with (n - 1 + 1) at 1 by lia. rewrite Z.pow_add_r by lia. reflexivity. }
    assert (Hw2 : w / 2 = q).
    { unfold w, q. rewrite Z.div_div by lia. rewrite <- H2nn. reflexivity. }
    assert (Hw : w = 2 * q + 1).
    { pose proof (Z.div_mod w 2 ltac:(lia)) as Hdm. rewrite Hw2 in Hdm.
      rewrite Zmod_odd, Hodd in Hdm. exact Hdm. }
    assert (HwM : 2 ^ (n - 1) * w <= M).
    { pose proof (Z.div_mod M (2 ^ (n - 1)) ltac:(lia)) as Hdm.
      pose proof (Z.mod_pos_bound M (2 ^ (n - 1)) H2n1) as Hmb. fold w in Hdm. lia. }
    rewrite Hw in HwM.
    assert (Hmule : Zpos mu <= 2 ^ (n - 1)).
    { rewrite HqL1 in HwM. rewrite H2nn in HML.
      set (P := 2 ^ (n - 1)) in *. clearbody P L. lia. }
    destruct Hn as [-> | ->].
    - change (2 ^ (52 - 1)) with (2 ^ 51) in Hmule. lia.
    - change (2 ^ (53 - 1)) with (2 ^ 52) in Hmule.
      assert (Hmu52 : Zpos mu = 2 ^ 52) by lia.
      specialize (Hn53 eq_refl). unfold M in Hn53. rewrite Hmu52 in Hn53.
      lia. }
  assert (HLup : L = up * 2 ^ (- E)).
  { unfold L, E. rewrite Hup, <- Z.mul_assoc, <- Z.pow_add_r by lia.
    f_equal. f_equal. lia. }
  assert (Hup53 : 0 < up < 2 ^ 53).
  { assert (HT : 1 <= 2 ^ (- eu)) by (apply (Z.pow_le_mono_r 2 0); lia).
    set (T := 2 ^ (- eu)) in *. clearbody T.
    assert (0 < up).
    { destruct (Z.lt_ge_cases 0 up) as [? | Hle]; [assumption | exfalso].
      assert (up * T <= 0) by (apply Z.mul_nonpos_nonneg; lia). lia. }
    assert (up * 1 <= up * T) by (apply Z.mul_le_mono_nonneg_l; lia). lia. }
  assert (HE : E <= 0) by (unfold E; lia).
  destruct (Z.ltb_spec m1 (2 ^ 53)) as [Hlt | Hge].
  - apply to_Z_below; [exact HE |]. rewrite Z2Pos.id by lia. lia.
  - assert (HE1 : E + 1 <= 0).
    { destruct (Z.eq_dec E 0) as [HE0 | ?]; [exfalso | lia].
      rewrite HE0 in HLup. change (2 ^ (- 0)) with 1 in HLup. lia. }
    fold E. apply to_Z_below; [exact HE1 |].
    change (Zpos (Z.to_pos (2 ^ 52))) with (2 ^ 52).
    assert (Hsp : 2 ^ (- E) = 2 ^ (- (E + 1)) * 2).
    { replace (- E) with (- (E + 1) + 1) by lia. rewrite Z.pow_add_r by lia. reflexivity. }
    rewrite Hsp in HLup. lia.
Qed.

(** The index drawn by the sampling formula lies below the limit. *)
Lemma sample_index_bound (r up_index_limit : Z) :
  0 <= r < 2 ^ 53 -> 0 < up_index_limit < 2 ^ 53 ->
  0 <= sample_index r up_index_limit < up_index_limit.
Proof.
  intros Hr Hup. unfold sample_index.
  destruct (of_Z_finite up_index_limit Hup) as (mu & eu & Hu & Hmu & Heu & Hval).
  rewrite Hu.
  destruct (Z.eq_dec r 0) as [-> | Hr0].
  - change (Double.sqrt (Double.div (Double.of_Z 0) (Double.of_Z (2 ^ 53))))
      with (S754_zero false).
    cbn. lia.
  - destruct (of_Z_finite r ltac:(lia)) as (mr & er & Hrr & Hmr & Her & _).
    rewrite Hrr, div_pow53 by assumption.
    destruct (sqrt_below_one mr (er - 53) Hmr ltac:(lia)) as (mf & ef & Hf & Hmf & Hef).
    rewrite Hf. apply mul_below; assumption.
Qed.

End Doubles.

(** ** Random outputs: what the query returns *)

Section RandomOutputsProperties.
Context `{Currency, Checkpoints, FormatUtils, InputChecks, TxPool, SpendTime, Random}.

Lemma find_end_of_allowed_index_range (amount_outs : list (TransactionIndex * Z))
    (s : Blockchain) :
  0 <= find_end_of_allowed_index amount_outs s <= Z.of_nat (length amount_outs).
Proof.
  induction amount_outs as [| o outs IH] using rev_ind.
  - unfold find_end_of_allowed_index. simpl. lia.
  - rewrite find_end_of_allowed_index_snoc, length_app. simpl.
    destruct (old_enough o s); lia.
Qed.

Lemma push_out_entry_last (oen : RPC.out_entry) (g : random_state)
    (pre : list RPC.outs_for_amount) (r : RPC.outs_for_amount) :
  push_out_entry oen {| m_random := g; res := pre ++ [r] |}
  = Ret tt {| m_random := g; res := pre ++ [push_back_out oen r] |}.
Proof.
  unfold push_out_entry, modify. cbn [m_random res]. f_equal. f_equal.
  rewrite length_app. cbn [length].
  replace (pred (length pre + 1)) with (length pre + 0)%nat by lia.
  rewrite alter_app_r. reflexivity.
Qed.

(** [add_out_to_get_random_outs] appends what [offered] says and returns
    true, or appends nothing. *)
Lemma add_out_to_get_random_outs_offered amount_outs i s g pre r :
  let st := {| m_random := g; res := pre ++ [r] |} in
  match offered amount_outs s i with
  | Some e =>
      add_out_to_get_random_outs amount_outs i s st
      = Ret true {| m_random := g; res := pre ++ [push_back_out e r] |}
  | None =>
      add_out_to_get_random_outs amount_outs i s st = Ret false st
      \/ add_out_to_get_random_outs amount_outs i s st = Throw out_of_bounds st
  end.
Proof.
  cbv zeta. unfold offered, add_out_to_get_random_outs.
  destruct (amount_outs !! Z.to_nat i) as [o |]; [| right; reflexivity].
  destruct (transactionByIndex (fst o) s) as [te |]; [| right; reflexivity].
  destruct (outputs (tx te) !! Z.to_nat (snd o)) as [out |]; [| left; reflexivity].
  destruct (target out) as [k | m]; [| left; reflexivity].
  destruct (is_tx_spendtime_unlocked (unlockTime (tx te)) s); [| left; reflexivity].
  cbn [negb]. unfold bind. rewrite push_out_entry_last. reflexivity.
Qed.

Lemma offered_index amount_outs s i e :
  offered amount_outs s i = Some e -> 0 <= i < 2 ^ 32 ->
  RPC.global_amount_index e = i.
Proof.
  unfold offered. intros Ho Hi.
  destruct (amount_outs !! Z.to_nat i) as [o |]; [| discriminate].
  destruct (transactionByIndex (fst o) s) as [te |]; [| discriminate].
  destruct (outputs (tx te) !! Z.to_nat (snd o)) as [out |]; [| discriminate].
  destruct (target out) as [k | m]; [| discriminate].
  destruct (is_tx_spendtime_unlocked (unlockTime (tx te)) s); [| discriminate].
  injection Ho as <-. cbn. unfold u32. apply Z.mod_small. exact Hi.
Qed.

Lemma NoDup_offered amount_outs s (l : list Z) :
  NoDup l -> (forall i, i ∈ l -> 0 <= i < 2 ^ 32) ->
  NoDup (RPC.global_amount_index <$> omap (offered amount_outs s) l).
Proof.
  induction 1 as [| i l Hni Hnd IH]; intros Hr; [constructor |].
  cbn [omap list_omap]. 
  specialize (IH (fun k Hk => Hr k (list_elem_of_further _ _ _ Hk))).
  destruct (offered amount_outs s i) as [e |] eqn:He; [| exact IH].
  rewrite fmap_cons. constructor; [| exact IH].
  rewrite (offered_index _ _ _ _ He (Hr i (list_elem_of_here _ _))).
  intros Hin. apply list_elem_of_fmap in Hin. destruct Hin as (e' & Hgi & He').
  apply list_elem_of_omap in He'. destruct He' as (i' & Hi' & Ho').
  rewrite (offered_index _ _ _ _ Ho' (Hr i' (list_elem_of_further _ _ _ Hi'))) in Hgi.
  subst i'. exact (Hni Hi').
Qed.

Lemma omap_submseteq_length {A B} (f : A -> option B) (l1 l2 : list A) :
  l1 ⊆+ l2 -> (length (omap f l1) <= length (omap f l2))%nat.
Proof.
  induction 1 as [| x l1 l2 _ IH | x y l | x l1 l2 _ IH | l1 l2 l3 _ IH1 _ IH2];
    cbn [omap list_omap].
  - lia.
  - destruct (f x); cbn [length]; lia.
  - destruct (f x), (f y); cbn [length]; lia.
  - destruct (f x); cbn [length]; lia.
  - lia.
Qed.

Lemma omap_length_le {A B} (f : A -> option B) (l : list A) :
  (length (omap f l) <= length l)%nat.
Proof.
  induction l as [| x l IH]; [cbn; lia |].
  cbn [omap list_omap]. destruct (f x); cbn [length]; lia.
Qed.

(** The branch that takes every index below the limit. *)
Lemma add_all_outs_spec amount_outs s (n : nat) :
  forall i g pre r,
    match add_all_outs n amount_outs i s {| m_random := g; res := pre ++ [r] |} with
    | Ret _ st' =>
        st' = {| m_random := g;
                 res := pre ++ [{| RPC.amount := RPC.amount r;
                                   RPC.outs := RPC.outs r
                                     ++ omap (offered amount_outs s)
                                             (seqZ i (Z.of_nat n)) |}] |}
    | Throw _ _ => True
    | Spin => False
    end.
Proof.
  induction n as [| n IH]; intros i g pre r.
  - cbn. rewrite app_nil_r. destruct r; reflexivity.
  - cbn [add_all_outs]. unfold bind at 1.
    rewrite seqZ_cons by lia.
    replace (Z.pred (Z.of_nat (S n))) with (Z.of_nat n) by lia.
    replace (Z.succ i) with (i + 1) by lia.
    cbn [omap list_omap].
    pose proof (add_out_to_get_random_outs_offered amount_outs i s g pre r) as Hadd.
    cbv zeta in Hadd.
    destruct (offered amount_outs s i) as [e |].
    + rewrite Hadd. specialize (IH (i + 1) g pre (push_back_out e r)).
      destruct (add_all_outs n amount_outs (i + 1) s _) as [[] st' | |];
        [| exact I | exact IH].
      rewrite IH. cbn [push_back_out RPC.amount RPC.outs].
      rewrite <- app_assoc. reflexivity.
    + destruct Hadd as [Hadd | Hadd]; rewrite Hadd; [| exact I].
      exact (IH (i + 1) g pre r).
Qed.

Lemma after_draws_S (n : nat) (g : random_state) :
  after_draws (S n) g = snd (randomValue (after_draws n g)).
Proof.
  revert g. induction n as [| n IH]; intros g; [reflexivity |].
  cbn [after_draws] in *. apply IH.
Qed.

Lemma sampled_more amount_outs s up_index_limit g k used r0 r :
  sampled amount_outs s up_index_limit g k used r0 r ->
  sampled amount_outs s up_index_limit g (S k) used r0 r.
Proof.
  intros (Hnd & Hall & Hrest). split; [exact Hnd |]. split; [| exact Hrest].
  intros i Hi. destruct (Hall i Hi) as (Hb & n & Hn & Hv).
  split; [exact Hb |]. exists n. split; [lia | exact Hv].
Qed.

Lemma sample_outs_spec amount_outs s up_index_limit outs_count r0 g0 (fuel : nat) :
  0 <= up_index_limit < 2 ^ 32 ->
  forall j try_count used k pre r,
    sampled amount_outs s up_index_limit g0 k used r0 r ->
    try_count = Z.of_nat (length used) ->
    j = Z.of_nat (length (omap (offered amount_outs s) (reverse used))) ->
    j <= outs_count ->
    match sample_outs fuel amount_outs up_index_limit outs_count s j try_count used
            {| m_random := after_draws k g0; res := pre ++ [r] |} with
    | Ret _ st' =>
        exists k' r' used',
          st' = {| m_random := after_draws k' g0; res := pre ++ [r'] |}
          /\ sampled amount_outs s up_index_limit g0 k' used' r0 r'
          /\ Z.of_nat (length (omap (offered amount_outs s) (reverse used')))
             <= outs_count
          /\ (Z.of_nat (length (omap (offered amount_outs s) (reverse used')))
              = outs_count
              \/ up_index_limit <= Z.of_nat (length used'))
    | Throw _ _ => True
    | Spin => True
    end.
Proof.
  intros Hup. induction fuel as [| fuel IH]; intros j try_count used k pre r Hs Htc Hj Hle.
  - cbn [sample_outs].
    destruct (negb (j =? outs_count) && (try_count <? up_index_limit)) eqn:Hc;
      [exact I |].
    cbn. exists k, r, used. split; [reflexivity |]. split; [exact Hs |].
    split; [lia |].
    apply andb_false_iff in Hc. destruct Hc as [Hc | Hc].
    + left. apply negb_false_iff, Z.eqb_eq in Hc. lia.
    + right. apply Z.ltb_ge in Hc. lia.
  - cbn [sample_outs].
    destruct (negb (j =? outs_count) && (try_count <? up_index_limit)) eqn:Hc.
    2:{ cbn. exists k, r, used. split; [reflexivity |]. split; [exact Hs |].
        split; [lia |].
        apply andb_false_iff in Hc. destruct Hc as [Hc | Hc].
        + left. apply negb_false_iff, Z.eqb_eq in Hc. lia.
        + right. apply Z.ltb_ge in Hc. lia. }
    apply andb_true_iff in Hc. destruct Hc as [Hjc Htl].
    apply negb_true_iff, Z.eqb_neq in Hjc. apply Z.ltb_lt in Htl.
    unfold bind at 1. unfold random_size_t at 1. cbn [m_random res].
    assert (Hdraw : u64 (fst (randomValue (after_draws k g0))) = draw k g0)
      by reflexivity.
    assert (Hnext : snd (randomValue (after_draws k g0)) = after_draws (S k) g0)
      by (symmetry; apply after_draws_S).
    destruct (randomValue (after_draws k g0)) as [v g1].
    cbn [fst snd] in Hdraw, Hnext. rewrite Hdraw, Hnext. clear Hdraw Hnext v g1.
    set (i := sample_index (draw k g0 mod 2 ^ 53) up_index_limit).
    assert (Hi : 0 <= i < up_index_limit).
    { apply sample_index_bound.
      - apply Z.mod_pos_bound. lia.
      - lia. }
    apply sampled_more in Hs.
    destruct (bool_decide (i ∈ used)) eqn:Hused.
    + apply IH; assumption.
    + apply bool_decide_eq_false in Hused.
      destruct Hs as (Hnd & Hall & Hamt & Houts).
      unfold bind at 1.
      pose proof (add_out_to_get_random_outs_offered amount_outs i s
                    (after_draws (S k) g0) pre r) as Hadd.
      cbv zeta in Hadd.
      assert (Hjb : 0 <= j <= Z.of_nat (length used)).
      { pose proof (omap_length_le (offered amount_outs s) (reverse used)) as Hl.
        rewrite length_reverse in Hl. lia. }
      assert (Hall' : forall x, x ∈ i :: used ->
                0 <= x < up_index_limit
                /\ exists n, (n < S k)%nat
                     /\ x = sample_index (draw n g0 mod 2 ^ 53) up_index_limit).
      { intros x Hx. apply elem_of_cons in Hx. destruct Hx as [-> | Hx].
        - split; [exact Hi |]. exists k. split; [lia | reflexivity].
        - apply Hall, Hx. }
      destruct (offered amount_outs s i) as [e |] eqn:He.
      * rewrite Hadd. apply IH.
        -- split; [constructor; assumption |]. split; [exact Hall' |].
           split; [exact Hamt |].
           cbn [push_back_out RPC.outs]. rewrite Houts, reverse_cons, omap_app.
           cbn [omap list_omap]. rewrite He, <- app_assoc. reflexivity.
        -- cbn [length]. unfold u64. rewrite Z.mod_small; lia.
        -- rewrite reverse_cons, omap_app, length_app. cbn [omap list_omap].
           rewrite He. cbn [length]. unfold u64. rewrite Z.mod_small; lia.
        -- unfold u64. rewrite Z.mod_small; lia.
      * destruct Hadd as [Hadd | Hadd]; rewrite Hadd; [| exact I].
        apply IH.
        -- split; [constructor; assumption |]. split; [exact Hall' |].
           split; [exact Hamt |].
           rewrite Houts, reverse_cons, omap_app.
           cbn [omap list_omap]. rewrite He, app_nil_r. reflexivity.
        -- cbn [length]. unfold u64. rewrite Z.mod_small; lia.
        -- rewrite reverse_cons, omap_app, length_app. cbn [omap list_omap].
           rewrite He. cbn [length]. lia.
        -- exact Hle.
Qed.

Lemma used_within (up_index_limit : Z) (used : list Z) :
  NoDup used -> (forall i, i ∈ used -> 0 <= i < up_index_limit) ->
  used ⊆+ seqZ 0 up_index_limit.
Proof.
  intros Hnd Hall. apply NoDup_submseteq; [exact Hnd |].
  intros i Hi. apply elem_of_seqZ. specialize (Hall i Hi). lia.
Qed.

Lemma offered_elem amount_outs s (l : list Z) (bound : Z) e :
  bound < 2 ^ 32 -> (forall i, i ∈ l -> 0 <= i < bound) ->
  e ∈ omap (offered amount_outs s) l ->
  RPC.global_amount_index e ∈ l
  /\ 0 <= RPC.global_amount_index e < bound
  /\ offered amount_outs s (RPC.global_amount_index e) = Some e.
Proof.
  intros Hb Hall He. apply list_elem_of_omap in He. destruct He as (i & Hi & Ho).
  rewrite (offered_index _ _ _ _ Ho ltac:(specialize (Hall i Hi); lia)).
  split; [exact Hi |]. split; [apply Hall, Hi | exact Ho].
Qed.

(** What the sampling loop leaves when it ends. *)
Lemma sampled_result amount_outs s outs_count g k used r0 r :
  let up_index_limit := find_end_of_allowed_index amount_outs s in
  Z.of_nat (length amount_outs) < 2 ^ 32 ->
  RPC.outs r0 = [] ->
  sampled amount_outs s up_index_limit g k used r0 r ->
  Z.of_nat (length (omap (offered amount_outs s) (reverse used))) <= outs_count ->
  (Z.of_nat (length (omap (offered amount_outs s) (reverse used))) = outs_count
   \/ up_index_limit <= Z.of_nat (length used)) ->
  NoDup (RPC.global_amount_index <$> RPC.outs r)
  /\ (forall e, e ∈ RPC.outs r ->
        0 <= RPC.global_amount_index e < up_index_limit
        /\ offered amount_outs s (RPC.global_amount_index e) = Some e)
  /\ Z.of_nat (length (RPC.outs r))
     = Z.min outs_count (Z.of_nat (length (candidates amount_outs s)))
  /\ (forall e, e ∈ RPC.outs r ->
        exists n, RPC.global_amount_index e
                  = sample_index (draw n g mod 2 ^ 53) up_index_limit).
Proof.
  intros up_index_limit Hlen Hr0 (Hnd & Hall & _ & Houts) Hle Hend.
  pose proof (find_end_of_allowed_index_range amount_outs s) as Hrange.
  fold up_index_limit in Hrange.
  rewrite Hr0 in Houts. cbn [app] in Houts. rewrite Houts.
  assert (Hall' : forall i, i ∈ reverse used -> 0 <= i < up_index_limit).
  { intros i Hi. apply (proj1 (elem_of_reverse _ _)) in Hi. apply Hall, Hi. }
  assert (Hperm : omap (offered amount_outs s) (reverse used)
                  ≡ₚ omap (offered amount_outs s) used).
  { apply omap_Permutation, reverse_Permutation. }
  pose proof (used_within up_index_limit used Hnd (fun i Hi => proj1 (Hall i Hi)))
    as Hsub.
  split.
  { apply NoDup_offered.
    - rewrite reverse_Permutation. exact Hnd.
    - intros i Hi. specialize (Hall' i Hi). lia. }
  split.
  { intros e He.
    destruct (offered_elem amount_outs s (reverse used) up_index_limit e
                ltac:(lia) Hall' He) as (_ & Hb & Ho).
    split; assumption. }
  split.
  { rewrite (Permutation_length Hperm) in *. unfold candidates.
    fold up_index_limit.
    pose proof (omap_submseteq_length (offered amount_outs s) _ _ Hsub) as Hcount.
    destruct Hend as [Heq | Hfull]; [lia |].
    assert (Hp : used ≡ₚ seqZ 0 up_index_limit).
    { apply submseteq_length_Permutation; [exact Hsub |].
      rewrite length_seqZ. lia. }
    rewrite <- (Permutation_length (omap_Permutation (offered amount_outs s) _ _ Hp)).
    lia. }
  intros e He.
  destruct (offered_elem amount_outs s (reverse used) up_index_limit e
              ltac:(lia) Hall' He) as (Hin & _ & _).
  apply (proj1 (elem_of_reverse _ _)) in Hin.
  destruct (Hall (RPC.global_amount_index e) Hin) as (_ & n & _ & Hn).
  exists n. exact Hn.
Qed.

(** What the other branch leaves. *)
Lemma candidates_result amount_outs s outs_count :
  let up_index_limit := find_end_of_allowed_index amount_outs s in
  Z.of_nat (length amount_outs) < 2 ^ 32 ->
  Z.of_nat (length amount_outs) <= outs_count ->
  NoDup (RPC.global_amount_index <$> candidates amount_outs s)
  /\ (forall e, e ∈ candidates amount_outs s ->
        0 <= RPC.global_amount_index e < up_index_limit
        /\ offered amount_outs s (RPC.global_amount_index e) = Some e)
  /\ Z.of_nat (length (candidates amount_outs s))
     = Z.min outs_count (Z.of_nat (length (candidates amount_outs s))).
Proof.
  intros up_index_limit Hlen Hcount.
  pose proof (find_end_of_allowed_index_range amount_outs s) as Hrange.
  fold up_index_limit in Hrange.
  assert (Hall : forall i, i ∈ seqZ 0 up_index_limit -> 0 <= i < up_index_limit).
  { intros i Hi. apply elem_of_seqZ in Hi. lia. }
  unfold candidates. fold up_index_limit.
  split.
  { apply NoDup_offered; [apply NoDup_seqZ |].
    intros i Hi. specialize (Hall i Hi). lia. }
  split.
  { intros e He.
    destruct (offered_elem amount_outs s _ up_index_limit e ltac:(lia) Hall He)
      as (_ & Hb & Ho).
    split; assumption. }
  pose proof (omap_length_le (offered amount_outs s) (seqZ 0 up_index_limit)) as Hl.
  rewrite length_seqZ in Hl. lia.
Qed.


End RandomOutputsProperties.


